(** * Facebook Timeline Cleanup: a shallow embedding of the deletion controller

    The development follows [facebook_timeline_cleanup.py].  The methods of
    [FacebookCleaner] become computations in a state-and-exception monad over
    the cleaner object (its [stats] dictionary, the outside world, and the
    chronological list of effects it has performed).  Selenium, [random] and
    [datetime] are an interface: what they answer is decided by an
    [Environment], of which the theorems assume nothing.

    Conventions.
    - Python floats (delays, durations) are exact rationals [Q].
    - Python ints read from the configuration are [Z]; the counters of
      [stats], which start at 0 and are only ever incremented, are [nat].
    - A Python [str] is a [string] with one character per code point, for
      code points below 256; slices and lengths count characters.
    - [logger.debug] calls are left out; [info], [warning] and [error] calls
      are kept as [Logged] effects.
    - [KeyboardInterrupt] is asynchronous and is not an exception of the
      model: an interrupted run stops in one of the intermediate states of
      the uninterrupted run. *)

From Stdlib Require Import Ascii QArith Lqa.
From stdpp Require Import base option list gmap strings pretty.

Local Open Scope Z_scope.

(** ** Configuration (the nested [config] dictionary) *)

Record Credentials := { email : string; password : string }.

Record Cleaning := { posts_per_session : Z; max_sessions : Z }.

Record Timing := {
  session_delay : Z;
  page_timeout : Z;
  min_action_delay : Q;
  max_action_delay : Q;
  min_delete_delay : Q;
  max_delete_delay : Q
}.

Record WindowSize := { width : Z; height : Z }.

Record Browser := { headless : bool; user_agent : string; window_size : WindowSize }.

Record Execution := { whatif : bool; verbose : bool }.

Record Config := {
  credentials : Credentials;
  cleaning : Cleaning;
  timing : Timing;
  browser : Browser;
  execution : Execution
}.

(** [create_default_config] *)
Definition create_default_config : Config := {|
  credentials := {| email := ""; password := "" |};
  cleaning := {| posts_per_session := 10; max_sessions := 5 |};
  timing := {| session_delay := 300; page_timeout := 30;
               min_action_delay := 1; max_action_delay := 3;
               min_delete_delay := 3; max_delete_delay := 7 |};
  browser := {| headless := false;
                user_agent := "Mozilla/5.0 (Windows NT 10.0; Win64; x64) AppleWebKit/537.36 (KHTML, like Gecko) Chrome/120.0.0.0 Safari/537.36";
                window_size := {| width := 1366; height := 768 |} |};
  execution := {| whatif := false; verbose := false |}
|}.

(** Python truthiness of a string: the empty string is falsy. *)
Definition truthy (s : string) : bool :=
  match s with EmptyString => false | String _ _ => true end.

Definition Qgtb (a b : Q) : bool := negb (Qle_bool a b).

(** [validate_config]: the checks in source order; the first that fires
    decides. *)
Definition validate_config (config : Config) : bool * string :=
  if negb (truthy (email (credentials config))) then
    (false, "Email missing. Use --email or specify in configuration file.")
  else if negb (truthy (password (credentials config)))
          && negb (whatif (execution config)) then
    (false, "Password missing for real mode. Use --password or --whatif for testing.")
  else if max_sessions (cleaning config) <=? 0 then
    (false, "Number of sessions must be greater than 0.")
  else if posts_per_session (cleaning config) <=? 0 then
    (false, "Number of posts per session must be greater than 0.")
  else if session_delay (timing config) <? 0 then
    (false, "Session delay cannot be negative.")
  else if Qgtb (min_action_delay (timing config)) (max_action_delay (timing config)) then
    (false, "Minimum delay cannot be greater than maximum delay.")
  else
    (true, "Configuration valid").

(** ** Statistics (the [stats] dictionary) *)

Record Stats := {
  posts_found : nat;
  posts_deleted : nat;
  posts_skipped : nat;
  errors_encountered : nat;
  session_start : Q;
  sessions_completed : nat
}.

Definition initial_stats (start : Q) : Stats := {|
  posts_found := 0; posts_deleted := 0; posts_skipped := 0;
  errors_encountered := 0; session_start := start; sessions_completed := 0
|}.

Definition add_posts_found (n : nat) (s : Stats) : Stats :=
  {| posts_found := posts_found s + n; posts_deleted := posts_deleted s;
     posts_skipped := posts_skipped s; errors_encountered := errors_encountered s;
     session_start := session_start s; sessions_completed := sessions_completed s |}.

Definition incr_posts_deleted (s : Stats) : Stats :=
  {| posts_found := posts_found s; posts_deleted := posts_deleted s + 1;
     posts_skipped := posts_skipped s; errors_encountered := errors_encountered s;
     session_start := session_start s; sessions_completed := sessions_completed s |}.

Definition incr_posts_skipped (s : Stats) : Stats :=
  {| posts_found := posts_found s; posts_deleted := posts_deleted s;
     posts_skipped := posts_skipped s + 1; errors_encountered := errors_encountered s;
     session_start := session_start s; sessions_completed := sessions_completed s |}.

Definition incr_errors_encountered (s : Stats) : Stats :=
  {| posts_found := posts_found s; posts_deleted := posts_deleted s;
     posts_skipped := posts_skipped s; errors_encountered := errors_encountered s + 1;
     session_start := session_start s; sessions_completed := sessions_completed s |}.

Definition incr_sessions_completed (s : Stats) : Stats :=
  {| posts_found := posts_found s; posts_deleted := posts_deleted s;
     posts_skipped := posts_skipped s; errors_encountered := errors_encountered s;
     session_start := session_start s; sessions_completed := sessions_completed s + 1 |}.

(** The dictionary returned by [get_final_stats]: [**self.stats] and the
    derived entries.  [total_duration] is the [timedelta] itself rather than
    its rendering by [str]. *)
Record FinalStats := {
  final_counters : Stats;
  session_end : Q;
  total_duration : Q;
  duration_seconds : Q;
  posts_per_minute : Q
}.

(** ** The outside world: Selenium, [random], [datetime], [hash] *)

(** A [WebElement] is an opaque handle owned by the driver. *)
Inductive WebElement := Element (ref : nat).

Inductive By := ById | ByName | ByCssSelector.

(** The exceptions the code distinguishes; all are subclasses of
    [Exception].  [WebDriverException] stands for every Selenium failure
    other than the two the code names. *)
Inductive Exn :=
| NoSuchElementException (msg : string)
| TimeoutException (msg : string)
| WebDriverException (msg : string)
| ValueError (msg : string).

(** [str(e)] *)
Definition exn_str (e : Exn) : string :=
  match e with
  | NoSuchElementException m | TimeoutException m
  | WebDriverException m | ValueError m => m
  end.

Definition is_NoSuchElementException (e : Exn) : bool :=
  match e with NoSuchElementException _ => true | _ => false end.

Definition is_TimeoutException (e : Exn) : bool :=
  match e with TimeoutException _ => true | _ => false end.

(** The Selenium calls the code makes, indexed by what they return. *)
Inductive Action : Type -> Type :=
| DriverGet (url : string) : Action unit
| DriverRefresh : Action unit
| CurrentUrl : Action string
| ExecuteScript (script : string) (args : list WebElement) : Action unit
    (* driver.execute_script(script, *args) *)
| FindElement (scope : option WebElement) (by_ : By) (value : string) : Action WebElement
    (* driver.find_element / element.find_element *)
| FindElements (by_ : By) (value : string) : Action (list WebElement)
| WaitJQueryIdle : Action unit
| WaitDocumentComplete : Action unit
    (* the two self.wait.until(lambda ...) of wait_for_page_load *)
| WaitPresence (by_ : By) (value : string) : Action WebElement
    (* self.wait.until(EC.presence_of_element_located(...)) *)
| WaitAnyPresence (locators : list (By * string)) : Action unit
    (* self.wait.until(EC.any_of(...)) *)
| WaitClickable (timeout : option Z) (by_ : By) (value : string) : Action WebElement
    (* [None]: self.wait; [Some t]: WebDriverWait(self.driver, t) *)
| GetAttribute (e : WebElement) (name : string) : Action (option string)
| GetText (e : WebElement) : Action string
| Clear (e : WebElement) : Action unit
| SendKeys (e : WebElement) (keys : string) : Action unit
| Click (e : WebElement) : Action unit
| MoveAndClick (e : WebElement) : Action unit.
    (* self.actions.move_to_element(e).click().perform() *)

Inductive Reply (A : Type) :=
| Returned (a : A)
| Raised (e : Exn).
Arguments Returned {A} a.
Arguments Raised {A} e.

(** A value of [random.random()]: a rational in [[0, 1)]. *)
Record UnitDraw := {
  draw_value : Q;
  draw_range : Qle_bool 0 draw_value && negb (Qle_bool 1 draw_value) = true
}.

Class Environment (World : Type) := {
  (** Selenium answers a call, or raises *)
  respond : forall R, Action R -> World -> Reply R * World;
  (** [random.random()] *)
  random_random : World -> UnitDraw * World;
  (** [datetime.now()], in seconds *)
  datetime_now : World -> Q * World;
  (** the builtin [hash] on strings: fixed within one process *)
  py_hash : string -> Z
}.

(** ** Log records *)

Inductive Level := INFO | WARNING | ERROR.

Inductive LogMsg :=
| PageLoadTimeout (timeout : Z)
| LoginStarting
| WhatifEnterEmail
| WhatifEnterPassword
| WhatifClickLogin
| LoginCompleted
| LoginError (error_text : string)
| TwoFactorRequired
| LoginVerificationTimeout
| LoginException (e : Exn)
| WhatifAcceptCookies
| NavigatingToActivityLog
| WhatifNavigate (url : string)
| NavigationCompleted
| NavigationCompletedViaProfile
| NavigationUnable
| NavigationException (e : Exn)
| FoundUniquePosts (n : nat)
| PostInfo (n : nat) (post_info : string)
| WhatifWouldDelete (n : nat)
| MenuNotFound (n : nat)
| DeleteOptionNotFound (n : nat)
| PostDeleted (n : nat)
| ConfirmButtonNotFound (n : nat)
| ErrorDeletingPost (n : nat) (e : Exn)
| BatchStarting (max_posts : Z)
| NoPostsFound
| ProcessingPosts (n : nat)
| BatchCompleted (deleted_count : nat)
| CleaningStarting
| LoginFailedStopping
| NavigationFailedStopping
| SessionHeader (n : nat) (max_sessions : Z)
| SessionTarget (posts_per_session : Z)
| SessionCompleted (n : nat) (session_deleted : nat)
| SessionPause (session_delay : Z)
| NoPostsDeletedInSession
| CleaningCompleted.

(** The text of each record, as the f-strings of the source build it. *)
Definition render (m : LogMsg) : string :=
  match m with
  | PageLoadTimeout t => "Timeout during page load wait (" +:+ pretty t +:+ "s)"
  | LoginStarting => "Starting Facebook login procedure"
  | WhatifEnterEmail => "WHATIF: Would enter email in field (email hidden for security)"
  | WhatifEnterPassword => "WHATIF: Would enter password (hidden for security)"
  | WhatifClickLogin => "WHATIF: Would click login button (not executed)"
  | LoginCompleted => "Login completed successfully"
  | LoginError t => "Login error: " +:+ t
  | TwoFactorRequired => "Two-factor authentication required - not supported automatically"
  | LoginVerificationTimeout => "Login failed - timeout in verification"
  | LoginException e => "Error during login: " +:+ exn_str e
  | WhatifAcceptCookies => "WHATIF: Would click accept cookies button (not executed)"
  | NavigatingToActivityLog => "Navigating to activity log"
  | WhatifNavigate url => "WHATIF: Would navigate to " +:+ url
  | NavigationCompleted => "Navigation to activity log completed"
  | NavigationCompletedViaProfile => "Navigation to activity log completed via profile"
  | NavigationUnable => "Unable to navigate to activity log"
  | NavigationException e => "Error navigating to activity log: " +:+ exn_str e
  | FoundUniquePosts n => "Found " +:+ pretty n +:+ " unique posts on page"
  | PostInfo n info => "Post " +:+ pretty n +:+ ": " +:+ info
  | WhatifWouldDelete n => "WHATIF: Would delete post " +:+ pretty n +:+ " (not executed)"
  | MenuNotFound n => "Menu not found for post " +:+ pretty n
  | DeleteOptionNotFound n => "Delete option not found for post " +:+ pretty n
  | PostDeleted n => "Post " +:+ pretty n +:+ " deleted successfully"
  | ConfirmButtonNotFound n => "Confirm button not found for post " +:+ pretty n
  | ErrorDeletingPost n e => "Error deleting post " +:+ pretty n +:+ ": " +:+ exn_str e
  | BatchStarting m => "Starting deletion batch of maximum " +:+ pretty m +:+ " posts"
  | NoPostsFound => "No posts found on current page"
  | ProcessingPosts n => "Processing " +:+ pretty n +:+ " posts"
  | BatchCompleted d => "Batch completed: " +:+ pretty d +:+ " posts deleted"
  | CleaningStarting => "Starting gradual Facebook profile cleaning"
  | LoginFailedStopping => "Login failed, stopping cleaning"
  | NavigationFailedStopping => "Navigation to activity log failed, stopping cleaning"
  | SessionHeader n m => "SESSION " +:+ pretty n +:+ "/" +:+ pretty m
  | SessionTarget p => "Target: " +:+ pretty p +:+ " posts for this session"
  | SessionCompleted n d =>
      "Session " +:+ pretty n +:+ " completed: " +:+ pretty d +:+ " posts deleted"
  | SessionPause d => "Pause between sessions: " +:+ pretty d +:+ " seconds"
  | NoPostsDeletedInSession => "No posts deleted in this session, possibly end of content"
  | CleaningCompleted => "Gradual cleaning completed"
  end.

(** ** Effects and the cleaner object *)

(** What a run leaves behind, in the order it happened. *)
Inductive Effect :=
| Called {R : Type} (a : Action R)            (* a Selenium call was made *)
| Slept (seconds : Q)                         (* time.sleep(seconds) was called *)
| Logged (level : Level) (msg : LogMsg)       (* self.logger.<level>(...) *)
| Printed (line : string)                     (* print(...) *)
| StatsSet (before after : Stats).            (* an assignment to self.stats[...] *)

Record Cleaner (World : Type) := {
  stats : Stats;
  world : World;
  trace : list Effect
}.
Arguments stats {World} _.
Arguments world {World} _.
Arguments trace {World} _.

(** [FacebookCleaner(config)], as far as the statistics go: the counters at
    zero and [session_start] read from the clock. *)
Definition new_cleaner `{Environment World} (w : World) : Cleaner World :=
  let '(start, w') := datetime_now w in
  {| stats := initial_stats start; world := w'; trace := [] |}.

(** ** The monad of methods *)

(** A method takes the object to a reply (a returned value or a raised
    exception) and the object as the method left it. *)
Definition M (World A : Type) : Type := Cleaner World -> Reply A * Cleaner World.

Section Methods.
Context `{Env : Environment World}.

Definition ret {A} (a : A) : M World A := fun c => (Returned a, c).

Definition raise {A} (e : Exn) : M World A := fun c => (Raised e, c).

Definition bind {A B} (m : M World A) (k : A -> M World B) : M World B :=
  fun c =>
    match m c with
    | (Returned a, c') => k a c'
    | (Raised e, c') => (Raised e, c')
    end.

(** [try: m except Exception as e: h e]; what [m] did before it raised
    stays done. *)
Definition catch {A} (m : M World A) (h : Exn -> M World A) : M World A :=
  fun c =>
    match m c with
    | (Returned a, c') => (Returned a, c')
    | (Raised e, c') => h e c'
    end.

Definition record (ev : Effect) : M World unit :=
  fun c => (Returned tt,
            {| stats := stats c; world := world c; trace := trace c ++ [ev] |}).

(** A Selenium call: recorded, then answered by the environment. *)
Definition call {R} (a : Action R) : M World R :=
  fun c =>
    let '(r, w) := respond R a (world c) in
    (r, {| stats := stats c; world := w; trace := trace c ++ [Called a] |}).

Definition log (level : Level) (msg : LogMsg) : M World unit :=
  record (Logged level msg).

Definition print (line : string) : M World unit := record (Printed line).

(** [self.stats[...] += ...]: the one way the statistics change. *)
Definition update_stats (f : Stats -> Stats) : M World unit :=
  fun c => (Returned tt,
            {| stats := f (stats c); world := world c;
               trace := trace c ++ [StatsSet (stats c) (f (stats c))] |}).

Definition get_stats : M World Stats := fun c => (Returned (stats c), c).

(** [time.sleep(seconds)]: the call is recorded; a negative argument is
    refused with [ValueError]. *)
Definition time_sleep (seconds : Q) : M World unit :=
  fun c =>
    (if Qle_bool 0 seconds then Returned tt
     else Raised (ValueError "sleep length must be non-negative"),
     {| stats := stats c; world := world c; trace := trace c ++ [Slept seconds] |}).

(** [random.uniform(a, b)] is [a + (b - a) * random()]. *)
Definition random_uniform (a b : Q) : M World Q :=
  fun c =>
    let '(r, w) := random_random (world c) in
    (Returned (a + (b - a) * draw_value r)%Q,
     {| stats := stats c; world := w; trace := trace c |}).

Definition now : M World Q :=
  fun c =>
    let '(t, w) := datetime_now (world c) in
    (Returned t, {| stats := stats c; world := w; trace := trace c |}).

End Methods.

Declare Scope method_scope.
Delimit Scope method_scope with method.
Notation "x <- m ;; k" := (bind m (fun x => k))
  (at level 100, m at next level, right associativity) : method_scope.
Notation "m ;; k" := (bind m (fun _ => k))
  (at level 100, right associativity) : method_scope.
Local Open Scope method_scope.

(** ** Python helpers *)

(** [s[:n]] *)
Fixpoint str_take (n : nat) (s : string) : string :=
  match n, s with
  | S n', String a s' => String a (str_take n' s')
  | _, _ => ""
  end.

Definition newline : ascii := "010"%char.

(** [s.replace('\n', ' ')] *)
Fixpoint replace_newlines (s : string) : string :=
  match s with
  | "" => ""
  | String a s' =>
      String (if Ascii.eqb a newline then " "%char else a) (replace_newlines s')
  end.

(** [c.isspace()] for the code points below 256: tab to carriage return,
    the four separators U+001C to U+001F, the space, U+0085 and U+00A0. *)
Definition py_isspace (a : ascii) : bool :=
  let n := nat_of_ascii a in
  ((9 <=? n) && (n <=? 13) || (28 <=? n) && (n <=? 32)
   || (n =? 133) || (n =? 160))%nat.

Fixpoint lstrip (s : string) : string :=
  match s with
  | "" => ""
  | String a s' => if py_isspace a then lstrip s' else s
  end.

(** [s.strip()] *)
Definition strip (s : string) : string :=
  String.rev (lstrip (String.rev (lstrip s))).

(** [needle in s] *)
Fixpoint str_contains (needle s : string) : bool :=
  String.prefix needle s ||
  match s with
  | "" => false
  | String _ s' => str_contains needle s'
  end.

(** [x or y] on an attribute value that may be [None] *)
Definition attr_truthy (v : option string) : option string :=
  match v with
  | Some s => if truthy s then Some s else None
  | None => None
  end.

(** [l[:n]], negative [n] counting from the end *)
Definition slice_to {A} (n : Z) (l : list A) : list A :=
  if 0 <=? n then take (Z.to_nat n) l
  else take (length l - Z.to_nat (- n)) l.

(** [enumerate(l)] *)
Fixpoint enumerate_from {A} (i : nat) (l : list A) : list (nat * A) :=
  match l with
  | [] => []
  | x :: l' => (i, x) :: enumerate_from (S i) l'
  end.

Definition enumerate {A} (l : list A) : list (nat * A) := enumerate_from 0 l.

(** [range(n)] *)
Definition range (n : Z) : list nat := seq 0 (Z.to_nat n).

(** [f"{n:02d}"] for [n >= 0] *)
Definition fmt_02d (n : nat) : string :=
  if (n <? 10)%nat then "0" +:+ pretty n else pretty n.

(** ** Selector tables *)

Definition cookie_selectors : list string := [
  "[data-testid='cookie-policy-manage-dialog'] button";
  "[data-cookiebanner='accept_button']";
  "button[title*='Accept']";
  "button[title*='Accetta']" ].

Definition activity_selectors : list string := [
  "a[href*='allactivity']";
  "a[href*='activity']";
  "[data-testid*='activity']";
  "a:contains('Activity Log')";
  "a:contains('Registro attività')" ].

Definition post_selectors : list string := [
  "[data-testid='activity-log-item']";
  "[data-pagelet='ActivityLogList'] > div";
  ".userContentWrapper";
  "[role='article']";
  "[data-testid='fbfeed_story']" ].

Definition menu_selectors : list string := [
  "[aria-label*='More options']";
  "[aria-label*='Altre opzioni']";
  "[data-testid='post_menu']";
  ".UFIMoreButton";
  "[aria-haspopup='menu']" ].

Definition delete_selectors : list string := [
  "[data-testid*='delete']";
  "a:contains('Delete')";
  "a:contains('Elimina')";
  "[role='menuitem']:contains('Delete')";
  "[role='menuitem']:contains('Elimina')" ].

Definition confirm_selectors : list string := [
  "[data-testid='confirm-delete-button']";
  "button:contains('Delete')";
  "button:contains('Elimina')";
  "[aria-label*='Confirm']";
  "[aria-label*='Conferma']" ].

Definition timestamp_selectors : list string := [
  "[data-testid='story-subtitle'] a";
  ".timestampContent";
  "time";
  "[title*='20']" ].

Definition login_markers : list (By * string) := [
  (ByCssSelector, "[data-testid='search']");
  (ByCssSelector, "[aria-label*='main menu']");
  (ByCssSelector, "[data-testid='blue_bar_profile_link']") ].

Definition scroll_script : string := "arguments[0].scrollIntoView(true);".

(** ** The methods of [FacebookCleaner] *)

Section FacebookCleaner.
Context `{Env : Environment World}.
Variable config : Config.

Abbreviation Method := (M World).

(** [try: m except <class>: h], for the exception classes [is_class]
    accepts; any other exception goes on. *)
Definition except {A} (is_class : Exn -> bool) (m : Method A)
    (h : Exn -> Method A) : Method A :=
  catch m (fun e => if is_class e then h e else raise e).

(** [human_like_delay(min_delay=None, max_delay=None)] *)
Definition human_like_delay (min_delay max_delay : option Q) : Method unit :=
  let min_delay := default (min_action_delay (timing config)) min_delay in
  let max_delay := default (max_action_delay (timing config)) max_delay in
  delay <- random_uniform min_delay max_delay ;;
  time_sleep delay.

(** [wait_for_page_load(timeout=None)] *)
Definition wait_for_page_load (timeout : option Z) : Method unit :=
  let timeout := default (page_timeout (timing config)) timeout in
  except is_TimeoutException
    (call WaitJQueryIdle ;;
     call WaitDocumentComplete)
    (fun _ => log WARNING (PageLoadTimeout timeout)).

(** The [for selector in cookie_selectors] loop of [handle_cookie_banner];
    [true] when the loop body reached its [return]. *)
Fixpoint cookie_loop (selectors : list string) : Method bool :=
  match selectors with
  | [] => ret false
  | selector :: rest =>
      returned <-
        except is_TimeoutException
          (cookie_button <- call (WaitClickable (Some 2) ByCssSelector selector) ;;
           (if whatif (execution config) then log INFO WhatifAcceptCookies
            else call (Click cookie_button) ;;
                 human_like_delay (Some 1%Q) (Some 2%Q)) ;;
           ret true)
          (fun _ => ret false) ;;
      if returned : bool then ret true else cookie_loop rest
  end.

(** [handle_cookie_banner] *)
Definition handle_cookie_banner : Method unit :=
  catch (cookie_loop cookie_selectors ;; ret tt) (fun _ => ret tt).

(** [for char in text: field.send_keys(char); time.sleep(random.uniform(0.05, 0.15))] *)
Fixpoint type_keys (field : WebElement) (text : string) : Method unit :=
  match text with
  | "" => ret tt
  | String char rest =>
      call (SendKeys field (String char "")) ;;
      pause <- random_uniform (5 # 100) (15 # 100) ;;
      time_sleep pause ;;
      type_keys field rest
  end.

(** [login] *)
Definition login : Method bool :=
  log INFO LoginStarting ;;
  catch
    (call (DriverGet "https://www.facebook.com") ;;
     wait_for_page_load None ;;
     handle_cookie_banner ;;
     email_field <- call (WaitPresence ById "email") ;;
     (if whatif (execution config) then log INFO WhatifEnterEmail
      else call (Clear email_field) ;;
           type_keys email_field (email (credentials config))) ;;
     human_like_delay (Some 1%Q) (Some 2%Q) ;;
     password_field <- call (FindElement None ById "pass") ;;
     (if whatif (execution config) then log INFO WhatifEnterPassword
      else call (Clear password_field) ;;
           type_keys password_field (password (credentials config))) ;;
     human_like_delay (Some 1%Q) (Some 3%Q) ;;
     login_button <- call (FindElement None ByName "login") ;;
     if whatif (execution config) then
       log INFO WhatifClickLogin ;;
       ret true
     else
       call (MoveAndClick login_button) ;;
       except is_TimeoutException
         (call (WaitAnyPresence login_markers) ;;
          log INFO LoginCompleted ;;
          ret true)
         (fun _ =>
            error_elements <-
              call (FindElements ByCssSelector "[data-testid='royal_login_error']") ;;
            match error_elements with
            | first :: _ =>
                error_text <- call (GetText first) ;;
                log ERROR (LoginError error_text) ;;
                ret false
            | [] =>
                two_fa_elements <-
                  call (FindElements ByCssSelector "[name='approvals_code']") ;;
                match two_fa_elements with
                | _ :: _ => log ERROR TwoFactorRequired ;; ret false
                | [] => log ERROR LoginVerificationTimeout ;; ret false
                end
            end))
    (fun e => log ERROR (LoginException e) ;; ret false).

(** ["allactivity" in self.driver.current_url or "activity" in self.driver.current_url] *)
Definition on_activity_page : Method bool :=
  url <- call CurrentUrl ;;
  if str_contains "allactivity" url then ret true
  else url <- call CurrentUrl ;;
       ret (str_contains "activity" url).

(** The [for selector in activity_selectors] loop of
    [navigate_to_activity_log] and the two statements after it. *)
Fixpoint navigate_through_profile (selectors : list string) : Method bool :=
  match selectors with
  | [] => log ERROR NavigationUnable ;; ret false
  | selector :: rest =>
      returned <-
        except is_TimeoutException
          (activity_link <- call (WaitClickable None ByCssSelector selector) ;;
           call (Click activity_link) ;;
           wait_for_page_load None ;;
           arrived <- on_activity_page ;;
           if arrived : bool then log INFO NavigationCompletedViaProfile ;; ret true
           else ret false)
          (fun _ => ret false) ;;
      if returned : bool then ret true else navigate_through_profile rest
  end.

(** [navigate_to_activity_log] *)
Definition navigate_to_activity_log : Method bool :=
  log INFO NavigatingToActivityLog ;;
  catch
    (let activity_url := "https://www.facebook.com/me/allactivity" in
     if whatif (execution config) then
       log INFO (WhatifNavigate activity_url) ;;
       ret true
     else
       call (DriverGet activity_url) ;;
       wait_for_page_load None ;;
       arrived <- on_activity_page ;;
       if arrived : bool then log INFO NavigationCompleted ;; ret true
       else
         call (DriverGet "https://www.facebook.com/me") ;;
         wait_for_page_load None ;;
         navigate_through_profile activity_selectors)
    (fun e => log ERROR (NavigationException e) ;; ret false).

(** The [for selector in post_selectors] loop of [find_posts_on_page]:
    [all_posts] is what the first selector with a non-empty answer gave. *)
Fixpoint collect_posts (selectors : list string) : Method (list WebElement) :=
  match selectors with
  | [] => ret []
  | selector :: rest =>
      posts <-
        catch (call (FindElements ByCssSelector selector))
              (fun _ => ret []) ;;
      match posts with
      | _ :: _ => ret posts
      | [] => collect_posts rest
      end
  end.

(** [post.get_attribute('data-testid') or post.get_attribute('id') or
    str(hash(post.text[:50]))] *)
Definition element_id (post : WebElement) : Method string :=
  testid <- call (GetAttribute post "data-testid") ;;
  match attr_truthy testid with
  | Some s => ret s
  | None =>
      id <- call (GetAttribute post "id") ;;
      match attr_truthy id with
      | Some s => ret s
      | None =>
          text <- call (GetText post) ;;
          ret (pretty (py_hash (str_take 50 text)))
      end
  end.

(** The [for post in all_posts] loop that removes duplicates. *)
Fixpoint unique_loop (all_posts unique_posts : list WebElement)
    (seen_elements : gset string) : Method (list WebElement) :=
  match all_posts with
  | [] => ret unique_posts
  | post :: rest =>
      id <- element_id post ;;
      if decide (id ∈ seen_elements) then unique_loop rest unique_posts seen_elements
      else unique_loop rest (unique_posts ++ [post]) (seen_elements ∪ {[ id ]})
  end.

(** [find_posts_on_page] *)
Definition find_posts_on_page : Method (list WebElement) :=
  all_posts <- collect_posts post_selectors ;;
  unique_posts <- unique_loop all_posts [] ∅ ;;
  log INFO (FoundUniquePosts (length unique_posts)) ;;
  update_stats (add_posts_found (length unique_posts)) ;;
  ret unique_posts.

(** The [for selector in timestamp_selectors] loop of [extract_post_info]. *)
Fixpoint timestamp_loop (post_element : WebElement) (selectors : list string)
    : Method string :=
  match selectors with
  | [] => ret "Unknown timestamp"
  | selector :: rest =>
      found <-
        except is_NoSuchElementException
          (time_element <- call (FindElement (Some post_element) ByCssSelector selector) ;;
           title <- call (GetAttribute time_element "title") ;;
           match attr_truthy title with
           | Some t => ret (Some t)
           | None => t <- call (GetText time_element) ;; ret (Some t)
           end)
          (fun _ => ret None) ;;
      match found with
      | Some timestamp => ret timestamp
      | None => timestamp_loop post_element rest
      end
  end.

(** [extract_post_info] *)
Definition extract_post_info (post_element : WebElement) : Method string :=
  catch
    (text <- call (GetText post_element) ;;
     let post_text := strip (replace_newlines (str_take 100 text)) in
     timestamp <- timestamp_loop post_element timestamp_selectors ;;
     text' <- call (GetText post_element) ;;
     ret ("[" +:+ timestamp +:+ "] " +:+ post_text +:+
          (if (100 <? String.length text')%nat then "..." else "")))
    (fun e => ret ("Error extracting info: " +:+ exn_str e)).

(** The three lookup loops of [attempt_post_deletion] have one shape:
    [for selector in selectors: try: x = lookup(selector); break
     except <is_miss>: continue], with [x = None] before the loop. *)
Fixpoint first_found (lookup : string -> Method WebElement)
    (is_miss : Exn -> bool) (selectors : list string) : Method (option WebElement) :=
  match selectors with
  | [] => ret None
  | selector :: rest =>
      found <-
        except is_miss (x <- lookup selector ;; ret (Some x)) (fun _ => ret None) ;;
      match found with
      | Some x => ret (Some x)
      | None => first_found lookup is_miss rest
      end
  end.

Definition find_in (post_element : WebElement) (selector : string) : Method WebElement :=
  call (FindElement (Some post_element) ByCssSelector selector).

Definition wait_clickable (selector : string) : Method WebElement :=
  call (WaitClickable None ByCssSelector selector).

(** [attempt_post_deletion], from the comment [# Confirm deletion] to the
    end of the [try] block. *)
Definition confirm_deletion (post_index : nat) : Method bool :=
  confirm_button <- first_found wait_clickable is_TimeoutException confirm_selectors ;;
  match confirm_button with
  | Some confirm_button =>
      call (Click confirm_button) ;;
      human_like_delay (Some 2%Q) (Some 4%Q) ;;
      log INFO (PostDeleted (post_index + 1)) ;;
      update_stats incr_posts_deleted ;;
      ret true
  | None =>
      log WARNING (ConfirmButtonNotFound (post_index + 1)) ;;
      update_stats incr_posts_skipped ;;
      ret false
  end.

(** The [try] block of [attempt_post_deletion]. *)
Definition attempt_body (post_element : WebElement) (post_index : nat) : Method bool :=
  call (ExecuteScript scroll_script [post_element]) ;;
  human_like_delay (Some 1%Q) (Some 2%Q) ;;
  post_info <- extract_post_info post_element ;;
  log INFO (PostInfo (post_index + 1) post_info) ;;
  if whatif (execution config) then
    log INFO (WhatifWouldDelete (post_index + 1)) ;;
    update_stats incr_posts_deleted ;;
    ret true
  else
    menu_button <-
      first_found (find_in post_element) is_NoSuchElementException menu_selectors ;;
    match menu_button with
    | None =>
        log WARNING (MenuNotFound (post_index + 1)) ;;
        update_stats incr_posts_skipped ;;
        ret false
    | Some menu_button =>
        call (MoveAndClick menu_button) ;;
        human_like_delay (Some 1%Q) (Some 3%Q) ;;
        delete_option <-
          first_found wait_clickable is_TimeoutException delete_selectors ;;
        match delete_option with
        | None =>
            log WARNING (DeleteOptionNotFound (post_index + 1)) ;;
            update_stats incr_posts_skipped ;;
            ret false
        | Some delete_option =>
            call (Click delete_option) ;;
            human_like_delay (Some 1%Q) (Some 2%Q) ;;
            confirm_deletion post_index
        end
    end.

(** [attempt_post_deletion] *)
Definition attempt_post_deletion (post_element : WebElement) (post_index : nat)
    : Method bool :=
  catch (attempt_body post_element post_index)
    (fun e =>
       log ERROR (ErrorDeletingPost (post_index + 1) e) ;;
       update_stats incr_errors_encountered ;;
       ret false).

(** The [for i, post in enumerate(posts_to_process)] loop of
    [delete_posts_batch].  Its last statement, the check every five posts,
    is [try: pass except KeyboardInterrupt: break]: it does nothing. *)
Fixpoint batch_loop (items : list (nat * WebElement)) (deleted_count : nat)
    : Method nat :=
  match items with
  | [] => ret deleted_count
  | (i, post) :: rest =>
      deleted <- attempt_post_deletion post i ;;
      if deleted : bool then
        delay <- random_uniform (min_delete_delay (timing config))
                                (max_delete_delay (timing config)) ;;
        time_sleep delay ;;
        batch_loop rest (deleted_count + 1)
      else batch_loop rest deleted_count
  end.

(** [delete_posts_batch] *)
Definition delete_posts_batch (max_posts : Z) : Method nat :=
  log INFO (BatchStarting max_posts) ;;
  posts <- find_posts_on_page ;;
  match posts with
  | [] =>
      log WARNING NoPostsFound ;;
      ret 0%nat
  | _ :: _ =>
      let posts_to_process := slice_to max_posts posts in
      log INFO (ProcessingPosts (length posts_to_process)) ;;
      deleted_count <- batch_loop (enumerate posts_to_process) 0 ;;
      log INFO (BatchCompleted deleted_count) ;;
      ret deleted_count
  end.

(** [get_final_stats] *)
Definition get_final_stats : Method FinalStats :=
  end_time <- now ;;
  stats <- get_stats ;;
  let duration := (end_time - session_start stats)%Q in
  ret {| final_counters := stats;
         session_end := end_time;
         total_duration := duration;
         duration_seconds := duration;
         posts_per_minute :=
           if Qgtb duration 0
           then (inject_Z (Z.of_nat (posts_deleted stats)) / (duration / 60))%Q
           else 0%Q |}.

(** The countdown shown between sessions in verbose mode:
    [while remaining > 0: ...; time.sleep(1); remaining -= 1]. *)
Fixpoint countdown (remaining : nat) : Method unit :=
  match remaining with
  | O => ret tt
  | S remaining' =>
      let mins := (remaining / 60)%nat in
      let secs := (remaining `mod` 60)%nat in
      print (String "013"%char "Next session in: " +:+ fmt_02d mins +:+ ":" +:+ fmt_02d secs) ;;
      time_sleep 1 ;;
      countdown remaining'
  end.

(** The [for session in range(max_sessions)] loop of
    [clean_profile_gradually]. *)
Fixpoint session_loop (sessions : list nat) : Method unit :=
  let max_sessions := max_sessions (cleaning config) in
  let posts_per_session := posts_per_session (cleaning config) in
  let session_delay := session_delay (timing config) in
  match sessions with
  | [] => ret tt
  | session :: rest =>
      log INFO (SessionHeader (session + 1) max_sessions) ;;
      log INFO (SessionTarget posts_per_session) ;;
      (if (0 <? session)%nat && negb (whatif (execution config)) then
         call DriverRefresh ;;
         wait_for_page_load None ;;
         human_like_delay (Some 3%Q) (Some 5%Q)
       else ret tt) ;;
      session_deleted <- delete_posts_batch posts_per_session ;;
      log INFO (SessionCompleted (session + 1) session_deleted) ;;
      update_stats incr_sessions_completed ;;
      (if Z.of_nat session <? max_sessions - 1 then
         log INFO (SessionPause session_delay) ;;
         if verbose (execution config) then
           countdown (Z.to_nat session_delay) ;;
           print ""
         else time_sleep (inject_Z session_delay)
       else ret tt) ;;
      if (session_deleted =? 0)%nat then log INFO NoPostsDeletedInSession
      else session_loop rest
  end.

(** [clean_profile_gradually] *)
Definition clean_profile_gradually : Method FinalStats :=
  log INFO CleaningStarting ;;
  logged_in <- login ;;
  if negb logged_in then
    log ERROR LoginFailedStopping ;;
    get_final_stats
  else
    arrived <- navigate_to_activity_log ;;
    if negb arrived then
      log ERROR NavigationFailedStopping ;;
      get_final_stats
    else
      session_loop (range (max_sessions (cleaning config))) ;;
      log INFO CleaningCompleted ;;
      get_final_stats.

End FacebookCleaner.

(** ** A small simulated browser

    One concrete [Environment], used to run the methods on examples.  The
    activity log lists items by number; an item's options menu, the delete
    entry of an open menu and the confirmation dialog are elements of their
    own, numbered from the item. *)

Record Sim := {
  sim_listing : list nat;          (* the items the activity log shows *)
  sim_online : bool;               (* driver.get succeeds *)
  sim_scrollable : bool;           (* execute_script succeeds *)
  sim_menus : bool;                (* items carry an options menu *)
  sim_confirms : bool;             (* deleting asks for confirmation *)
  sim_menu_open : option nat;      (* the item whose menu is open *)
  sim_pending : option nat;        (* the item awaiting confirmation *)
  sim_clock : Q                    (* seconds *)
}.

Definition menu_of (item : nat) : WebElement := Element (1000 + item).
Definition delete_entry_of (item : nat) : WebElement := Element (2000 + item).
Definition confirm_button_of (item : nat) : WebElement := Element (3000 + item).

Definition sim_set_menu (o : option nat) (w : Sim) : Sim :=
  {| sim_listing := sim_listing w; sim_online := sim_online w;
     sim_scrollable := sim_scrollable w; sim_menus := sim_menus w;
     sim_confirms := sim_confirms w; sim_menu_open := o;
     sim_pending := sim_pending w; sim_clock := sim_clock w |}.

Definition sim_set_pending (o : option nat) (w : Sim) : Sim :=
  {| sim_listing := sim_listing w; sim_online := sim_online w;
     sim_scrollable := sim_scrollable w; sim_menus := sim_menus w;
     sim_confirms := sim_confirms w; sim_menu_open := None;
     sim_pending := o; sim_clock := sim_clock w |}.

Definition sim_remove (item : nat) (w : Sim) : Sim :=
  {| sim_listing := filter (fun n => n ≠ item) (sim_listing w);
     sim_online := sim_online w;
     sim_scrollable := sim_scrollable w; sim_menus := sim_menus w;
     sim_confirms := sim_confirms w; sim_menu_open := None;
     sim_pending := None; sim_clock := sim_clock w |}.

Definition sim_click (e : WebElement) (w : Sim) : Sim :=
  let 'Element n := e in
  if (n <? 1000)%nat then w
  else if (n <? 2000)%nat then sim_set_menu (Some (n - 1000)%nat) w
  else if (n <? 3000)%nat then
    if sim_confirms w then sim_set_pending (Some (n - 2000)%nat) w
    else sim_remove (n - 2000) w
  else sim_remove (n - 3000) w.

Definition sim_respond (R : Type) (a : Action R) : Sim -> Reply R * Sim :=
  match a in Action R return Sim -> Reply R * Sim with
  | DriverGet _ => fun w =>
      (if sim_online w then Returned tt
       else Raised (WebDriverException "net::ERR_INTERNET_DISCONNECTED"), w)
  | DriverRefresh => fun w => (Returned tt, w)
  | CurrentUrl => fun w => (Returned "https://www.facebook.com/me/allactivity", w)
  | ExecuteScript _ _ => fun w =>
      (if sim_scrollable w then Returned tt
       else Raised (WebDriverException "stale element reference"), w)
  | FindElement None _ _ => fun w => (Returned (Element 1), w)
  | FindElement (Some (Element n)) _ selector => fun w =>
      (if sim_menus w && String.eqb selector "[aria-label*='More options']"
       then Returned (menu_of n)
       else Raised (NoSuchElementException ("no such element: " +:+ selector)), w)
  | FindElements _ selector => fun w =>
      (Returned (if String.eqb selector "[role='article']"
                 then Element <$> sim_listing w else []), w)
  | WaitJQueryIdle => fun w => (Returned tt, w)
  | WaitDocumentComplete => fun w => (Returned tt, w)
  | WaitPresence _ _ => fun w => (Returned (Element 2), w)
  | WaitAnyPresence _ => fun w => (Returned tt, w)
  | WaitClickable _ _ selector => fun w =>
      (match sim_menu_open w, sim_pending w with
       | Some n, _ =>
           if String.eqb selector "[data-testid*='delete']"
           then Returned (delete_entry_of n)
           else Raised (TimeoutException selector)
       | None, Some n =>
           if String.eqb selector "[data-testid='confirm-delete-button']"
           then Returned (confirm_button_of n)
           else Raised (TimeoutException selector)
       | None, None => Raised (TimeoutException selector)
       end, w)
  | GetAttribute (Element n) name => fun w =>
      (Returned (if String.eqb name "id" then Some ("item-" +:+ pretty n) else None), w)
  | GetText (Element n) => fun w => (Returned ("Item number " +:+ pretty n), w)
  | Clear _ => fun w => (Returned tt, w)
  | SendKeys _ _ => fun w => (Returned tt, w)
  | Click e => fun w => (Returned tt, sim_click e w)
  | MoveAndClick e => fun w => (Returned tt, sim_click e w)
  end.

Definition half : UnitDraw := {| draw_value := 1 # 2; draw_range := eq_refl |}.

Definition sim_tick (w : Sim) : Sim :=
  {| sim_listing := sim_listing w; sim_online := sim_online w;
     sim_scrollable := sim_scrollable w; sim_menus := sim_menus w;
     sim_confirms := sim_confirms w; sim_menu_open := sim_menu_open w;
     sim_pending := sim_pending w; sim_clock := Qred (sim_clock w + 90) |}.

#[export] Instance sim_environment : Environment Sim := {|
  respond := sim_respond;
  random_random w := (half, w);
  datetime_now w := (sim_clock w, sim_tick w);
  py_hash s := Z.of_nat (String.length s)
|}.

Definition sim_page (items : list nat) : Sim :=
  {| sim_listing := items; sim_online := true; sim_scrollable := true;
     sim_menus := true; sim_confirms := true; sim_menu_open := None;
     sim_pending := None; sim_clock := 0 |}.

Definition sim_offline (w : Sim) : Sim :=
  {| sim_listing := sim_listing w; sim_online := false;
     sim_scrollable := sim_scrollable w; sim_menus := sim_menus w;
     sim_confirms := sim_confirms w; sim_menu_open := sim_menu_open w;
     sim_pending := sim_pending w; sim_clock := sim_clock w |}.

Definition sim_unscrollable (w : Sim) : Sim :=
  {| sim_listing := sim_listing w; sim_online := sim_online w;
     sim_scrollable := false; sim_menus := sim_menus w;
     sim_confirms := sim_confirms w; sim_menu_open := sim_menu_open w;
     sim_pending := sim_pending w; sim_clock := sim_clock w |}.

Definition sim_without_menus (w : Sim) : Sim :=
  {| sim_listing := sim_listing w; sim_online := sim_online w;
     sim_scrollable := sim_scrollable w; sim_menus := false;
     sim_confirms := sim_confirms w; sim_menu_open := sim_menu_open w;
     sim_pending := sim_pending w; sim_clock := sim_clock w |}.

Definition sim_without_confirmation (w : Sim) : Sim :=
  {| sim_listing := sim_listing w; sim_online := sim_online w;
     sim_scrollable := sim_scrollable w; sim_menus := sim_menus w;
     sim_confirms := false; sim_menu_open := sim_menu_open w;
     sim_pending := sim_pending w; sim_clock := sim_clock w |}.

(** Configurations for the examples: the defaults with credentials filled
    in, in real and in simulation mode. *)
Definition with_account (c : Config) : Config :=
  {| credentials := {| email := "user@example.com"; password := "secret" |};
     cleaning := cleaning c; timing := timing c; browser := browser c;
     execution := execution c |}.

Definition with_whatif (c : Config) : Config :=
  {| credentials := credentials c; cleaning := cleaning c; timing := timing c;
     browser := browser c;
     execution := {| whatif := true; verbose := verbose (execution c) |} |}.

Definition with_max_sessions (n : Z) (c : Config) : Config :=
  {| credentials := credentials c;
     cleaning := {| posts_per_session := posts_per_session (cleaning c);
                    max_sessions := n |};
     timing := timing c; browser := browser c; execution := execution c |}.

Definition with_delete_delays (lo hi : Q) (c : Config) : Config :=
  {| credentials := credentials c; cleaning := cleaning c;
     timing := {| session_delay := session_delay (timing c);
                  page_timeout := page_timeout (timing c);
                  min_action_delay := min_action_delay (timing c);
                  max_action_delay := max_action_delay (timing c);
                  min_delete_delay := lo; max_delete_delay := hi |};
     browser := browser c; execution := execution c |}.

Definition real_config : Config := with_account create_default_config.
Definition whatif_config : Config := with_whatif real_config.

(** The cleaner before its first method call, in a given world. *)
Definition cleaner_in {World} (w : World) (start : Q) : Cleaner World :=
  {| stats := initial_stats start; world := w; trace := [] |}.

(** ** Vocabulary of the specifications *)

(** The items whose attempt has been accounted for. *)
Definition attempted (s : Stats) : nat :=
  (posts_deleted s + posts_skipped s + errors_encountered s)%nat.

(** The accounting invariant. *)
Definition stats_ok (s : Stats) : Prop := (attempted s <= posts_found s)%nat.

(** No counter of [after] is below its value in [before]. *)
Definition no_decrement (before after : Stats) : Prop :=
  (posts_found before <= posts_found after)%nat /\
  (posts_deleted before <= posts_deleted after)%nat /\
  (posts_skipped before <= posts_skipped after)%nat /\
  (errors_encountered before <= errors_encountered after)%nat /\
  (sessions_completed before <= sessions_completed after)%nat.

(** An assignment to the statistics that decrements nothing and leaves the
    invariant in place; every other effect. *)
Definition accounted (ev : Effect) : Prop :=
  match ev with
  | StatsSet before after => no_decrement before after /\ stats_ok after
  | _ => True
  end.

(** Clicking and typing: the calls that act on the page. *)
Definition is_click_or_type (ev : Effect) : bool :=
  match ev with
  | Called (Click _) | Called (MoveAndClick _)
  | Called (SendKeys _ _) | Called (Clear _) => true
  | _ => false
  end.

(** Effects that leave the statistics alone and do not close a session. *)
Definition quiet (ev : Effect) : Prop :=
  match ev with
  | StatsSet _ _ => False
  | Logged _ (SessionCompleted _ _) => False
  | _ => True
  end.

(** Quiet effects that neither click nor type. *)
Definition read_only (ev : Effect) : Prop :=
  quiet ev /\ is_click_or_type ev = false.

(** Effects within one batch: the session counter stays, nothing is
    decremented, no session is closed. *)
Definition same_session (before after : Stats) : Prop :=
  no_decrement before after /\ sessions_completed after = sessions_completed before.

Definition in_batch (ev : Effect) : Prop :=
  match ev with
  | StatsSet before after => same_session before after
  | Logged _ (SessionCompleted _ _) => False
  | _ => True
  end.

(** The numbers of deletions of the sessions a trace closes, in order, as
    [clean_profile_gradually] logs them. *)
Definition session_deleted_of (ev : Effect) : option nat :=
  match ev with
  | Logged _ (SessionCompleted _ session_deleted) => Some session_deleted
  | _ => None
  end.

Definition session_history (evs : list Effect) : list nat := omap session_deleted_of evs.

(** A session without deletions can only be the last one. *)
Definition zero_is_last (history : list nat) : Prop :=
  forall k, history !! k = Some 0%nat -> length history = S k.

(** The state [c] with one more effect, and with the statistics assigned. *)
Definition after_effect {World} (ev : Effect) (c : Cleaner World) : Cleaner World :=
  {| stats := stats c; world := world c; trace := trace c ++ [ev] |}.

Definition after_update {World} (f : Stats -> Stats) (c : Cleaner World) : Cleaner World :=
  {| stats := f (stats c); world := world c;
     trace := trace c ++ [StatsSet (stats c) (f (stats c))] |}.

(** The state after a Selenium call that left the world as [w]. *)
Definition after_call {World R} (a : Action R) (w : World) (c : Cleaner World)
    : Cleaner World :=
  {| stats := stats c; world := w; trace := trace c ++ [Called a] |}.

Section Judgements.
Context {World : Type}.

(** [c'] comes after [c]: the statistics are related by [S] and the effects
    added all satisfy [P]. *)
Definition extends (S : relation Stats) (P : Effect -> Prop)
    (c c' : Cleaner World) : Prop :=
  S (stats c) (stats c') /\
  exists evs, trace c' = trace c ++ evs /\ Forall P evs.

(** Whatever [m] replies, it takes a state to an [R]-related one. *)
Definition respects (R : relation (Cleaner World)) {A} (m : M World A) : Prop :=
  forall c, R c (m c).2.

(** [m] never raises. *)
Definition total {A} (m : M World A) : Prop :=
  forall c, exists a, (m c).1 = Returned a.

(** At most [k] further items are accounted for, none is found, and so at
    every assignment on the way. *)
Definition within_budget (k : nat) (c c' : Cleaner World) : Prop :=
  extends
    (fun s s' => posts_found s' = posts_found s /\
                 (attempted s' <= attempted s + k)%nat /\ no_decrement s s')
    (fun ev => match ev with
               | StatsSet before after =>
                   no_decrement before after /\
                   posts_found after = posts_found (stats c) /\
                   (attempted after <= attempted (stats c) + k)%nat
               | _ => True
               end)
    c c'.

(** The invariant, if it holds before, holds after and at every assignment
    on the way. *)
Definition keeps_accounts (c c' : Cleaner World) : Prop :=
  stats_ok (stats c) ->
  stats_ok (stats c') /\
  exists evs, trace c' = trace c ++ evs /\ Forall accounted evs.

(** [r] is what a method leaves when all it does to the statistics is one
    assignment, [G a], made last and only when it returns [a]. *)
Definition commits {A} (G : A -> Stats -> Stats) (c0 : Cleaner World)
    (r : Reply A * Cleaner World) : Prop :=
  match r with
  | (Returned a, c') =>
      exists c1, extends eq quiet c0 c1 /\ c' = after_update (G a) c1
  | (Raised _, c') => extends eq quiet c0 c'
  end.

End Judgements.

(** What [attempt_post_deletion] assigns when its [try] block returns
    [deleted], and what [find_posts_on_page] assigns when it returns
    [unique_posts]. *)
Definition attempt_update (deleted : bool) : Stats -> Stats :=
  if deleted then incr_posts_deleted else incr_posts_skipped.

Definition found_update (unique_posts : list WebElement) : Stats -> Stats :=
  add_posts_found (length unique_posts).

(** Every lookup of [selectors] with [self.wait] times out, one after the
    other, starting in the world [w]. *)
Fixpoint all_time_out `{Env : Environment World} (selectors : list string)
    (w : World) : Prop :=
  match selectors with
  | [] => True
  | selector :: rest =>
      exists msg w',
        respond _ (WaitClickable None ByCssSelector selector) w
          = (Raised (TimeoutException msg), w') /\
        all_time_out rest w'
  end.

(** The world after those lookups. *)
Fixpoint world_after_lookups `{Env : Environment World} (selectors : list string)
    (w : World) : World :=
  match selectors with
  | [] => w
  | selector :: rest =>
      world_after_lookups rest
        (respond _ (WaitClickable None ByCssSelector selector) w).2
  end.

(** The calls [post_element.find_element(By.CSS_SELECTOR, selector)], one per
    selector. *)
Definition lookups_in (post_element : WebElement) (selectors : list string)
    : list Effect :=
  (fun selector => Called (FindElement (Some post_element) ByCssSelector selector))
    <$> selectors.

Definition lookups (selectors : list string) : list Effect :=
  (fun selector => Called (WaitClickable None ByCssSelector selector)) <$> selectors.

(** The attribute reads of [element_id] answer from the page as it was
    scanned: they do not raise and do not depend on when they are made. *)
Record StableReads `{Env : Environment World} := {
  testid_of : WebElement -> option string;
  id_of : WebElement -> option string;
  text_of : WebElement -> string;
  read_testid : forall post w,
    (respond _ (GetAttribute post "data-testid") w).1 = Returned (testid_of post);
  read_id : forall post w,
    (respond _ (GetAttribute post "id") w).1 = Returned (id_of post);
  read_text : forall post w,
    (respond _ (GetText post) w).1 = Returned (text_of post)
}.
Arguments StableReads World {Env}.

(** The identity [element_id] derives on a stable page. *)
Definition identity `{Env : Environment World} (page : StableReads World)
    (post : WebElement) : string :=
  match attr_truthy (testid_of page post) with
  | Some s => s
  | None =>
      match attr_truthy (id_of page post) with
      | Some s => s
      | None => pretty (py_hash (str_take 50 (text_of page post)))
      end
  end.

(** A precondition of [clean_profile_gradually] fails from the state [c]:
    [login] returns [False], or [login] returns [True] and
    [navigate_to_activity_log] returns [False].  [msg] is what the method
    then logs and [c_failed] the state in which it does. *)
Inductive precondition_failure `{Env : Environment World} (config : Config)
    (c : Cleaner World) : LogMsg -> Cleaner World -> Prop :=
| login_failure c_failed :
    login config (after_effect (Logged INFO CleaningStarting) c)
      = (Returned false, c_failed) ->
    precondition_failure config c LoginFailedStopping c_failed
| navigation_failure c_logged_in c_failed :
    login config (after_effect (Logged INFO CleaningStarting) c)
      = (Returned true, c_logged_in) ->
    navigate_to_activity_log config c_logged_in = (Returned false, c_failed) ->
    precondition_failure config c NavigationFailedStopping c_failed.

(** [h] sessions are closed between [c] and [c'], with these numbers of
    deletions. *)
Definition closes_sessions {World} (h : list nat) (c c' : Cleaner World) : Prop :=
  exists evs,
    trace c' = trace c ++ evs /\
    session_history evs = h /\
    sessions_completed (stats c') = (sessions_completed (stats c) + length h)%nat.

(** The loop of [find_posts_on_page] on identities alone: what it appends to
    [unique_posts] given what it has [seen]. *)
Fixpoint fresh_posts (ident : WebElement -> string) (all_posts : list WebElement)
    (seen : gset string) : list WebElement :=
  match all_posts with
  | [] => []
  | post :: rest =>
      if decide (ident post ∈ seen) then fresh_posts ident rest seen
      else post :: fresh_posts ident rest (seen ∪ {[ ident post ]})
  end.

(** ** The command line and the start of [main] *)

(** The [argparse.Namespace] that [parse_arguments] returns. *)
Record Args := {
  args_email : option string;
  args_password : option string;
  args_config : option string;
  args_save_config : option string;
  args_sessions : Z;
  args_posts_per_session : Z;
  args_session_delay : Z;
  args_page_timeout : Z;
  args_min_delay : Q;
  args_max_delay : Q;
  args_headless : bool;
  args_user_agent : option string;
  args_whatif : bool;
  args_verbose : bool
}.

(** [merge_config_with_args].  The result is given as a new value; in the
    source [base_config.copy()] is shallow and the nested dictionaries are
    those of [base_config], which [main] rebinds and does not read again. *)
Definition merge_config_with_args (base_config : Config) (args : Args) : Config :=
  {| credentials :=
       {| email := default (email (credentials base_config))
                     (attr_truthy (args_email args));
          password := default (password (credentials base_config))
                        (attr_truthy (args_password args)) |};
     cleaning :=
       {| posts_per_session := args_posts_per_session args;
          max_sessions := args_sessions args |};
     timing :=
       {| session_delay := args_session_delay args;
          page_timeout := args_page_timeout args;
          min_action_delay := args_min_delay args;
          max_action_delay := args_max_delay args;
          min_delete_delay := min_delete_delay (timing base_config);
          max_delete_delay := max_delete_delay (timing base_config) |};
     browser :=
       {| headless := if args_headless args then true
                      else headless (browser base_config);
          user_agent := default (user_agent (browser base_config))
                          (attr_truthy (args_user_agent args));
          window_size := window_size (browser base_config) |};
     execution :=
       {| whatif := args_whatif args; verbose := args_verbose args |} |}.

(** How [main] goes on after its preliminaries. *)
Inductive Preflight :=
| SaveTemplate (path : string)   (* save_config_template(path); return 0 *)
| Exit (code : Z)                (* return code *)
| Start (config : Config).       (* "Starting operations..." is reached *)

(** [main], from [parse_arguments()] to the line before
    [# Session information].  [load] is [load_config_from_file] ([None] when
    the file is missing or is not JSON) and [answer] what the operator types
    at the prompt; the [print] calls are left out. *)
Definition main_preflight (args : Args) (load : string -> option Config)
    (answer : string) : Preflight :=
  match attr_truthy (args_save_config args) with
  | Some path => SaveTemplate path
  | None =>
      let loaded :=
        match attr_truthy (args_config args) with
        | Some path => load path
        | None => Some create_default_config
        end in
      match loaded with
      | None => Exit 1
      | Some config =>
          let config := merge_config_with_args config args in
          let '(is_valid, error_msg) := validate_config config in
          if negb is_valid then Exit 1
          else if negb (whatif (execution config))
                  && negb (String.eqb answer "DELETE")
          then Exit 0
          else Start config
      end
  end.

(** The success rate [print_final_report] prints, when it prints one:
    [if stats['posts_deleted'] > 0:
       (posts_deleted / (posts_deleted + posts_skipped)) * 100]. *)
Definition success_rate (stats : Stats) : option Q :=
  if (0 <? posts_deleted stats)%nat then
    Some (inject_Z (Z.of_nat (posts_deleted stats))
          / inject_Z (Z.of_nat (posts_deleted stats + posts_skipped stats)) * 100)%Q
  else None.

(** ** Reading a trace *)

(** The elements handed to [execute_script]: each attempt begins by
    scrolling its item into view. *)
Definition script_targets (ev : Effect) : list WebElement :=
  match ev with
  | Called a =>
      match a with
      | ExecuteScript _ args => args
      | _ => []
      end
  | _ => []
  end.

Definition scrolled (evs : list Effect) : list WebElement :=
  evs ≫= script_targets.

Definition is_script (ev : Effect) : bool :=
  match ev with
  | Called (ExecuteScript _ _) => true
  | _ => false
  end.

(** The keys sent with [send_keys], in order. *)
Definition keys_sent (ev : Effect) : string :=
  match ev with
  | Called a =>
      match a with
      | SendKeys _ keys => keys
      | _ => ""
      end
  | _ => ""
  end.

Definition typed (evs : list Effect) : string :=
  foldr (fun ev s => keys_sent ev +:+ s) "" evs.

(** The seconds asked of [time.sleep], in total. *)
Definition slept (evs : list Effect) : Q :=
  foldr (fun ev total => match ev with Slept d => d + total | _ => total end)%Q 0%Q evs.

(** The clicks and keystrokes of a trace. *)
Definition clicks (evs : list Effect) : list Effect := List.filter is_click_or_type evs.

(** Effects that neither click nor type. *)
Definition hands_off (ev : Effect) : Prop := is_click_or_type ev = false.

(** Effects that are not a call of [execute_script]. *)
Definition no_script (ev : Effect) : Prop := is_script ev = false.

(** No constraint on how the statistics change. *)
Definition any_stats : relation Stats := fun _ _ => True.

(** Every lookup of [selectors] inside [post_element] fails with
    [NoSuchElementException], in whatever state of the world. *)
Definition never_found `{Env : Environment World} (post_element : WebElement)
    (selectors : list string) : Prop :=
  forall selector w, selector ∈ selectors ->
    exists msg,
      (respond _ (FindElement (Some post_element) ByCssSelector selector) w).1
        = Raised (NoSuchElementException msg).

(** ** A page without menus

    A second [Environment], without state: every element carries the test
    identifier of an activity-log item, nothing is ever found inside an
    element or by waiting, and every other call succeeds. *)
Definition bare_respond (R : Type) (a : Action R) : unit -> Reply R * unit :=
  match a in Action R return unit -> Reply R * unit with
  | DriverGet _ => fun w => (Returned tt, w)
  | DriverRefresh => fun w => (Returned tt, w)
  | CurrentUrl => fun w => (Returned "about:blank", w)
  | ExecuteScript _ _ => fun w => (Returned tt, w)
  | FindElement _ _ selector => fun w =>
      (Raised (NoSuchElementException ("no such element: " +:+ selector)), w)
  | FindElements _ _ => fun w => (Returned [], w)
  | WaitJQueryIdle => fun w => (Returned tt, w)
  | WaitDocumentComplete => fun w => (Returned tt, w)
  | WaitPresence _ selector => fun w => (Raised (TimeoutException selector), w)
  | WaitAnyPresence _ => fun w => (Raised (TimeoutException "any_of"), w)
  | WaitClickable _ _ selector => fun w => (Raised (TimeoutException selector), w)
  | GetAttribute _ name => fun w =>
      (Returned (if String.eqb name "data-testid" then Some "activity-log-item"
                 else None), w)
  | GetText _ => fun w => (Returned "", w)
  | Clear _ => fun w => (Returned tt, w)
  | SendKeys _ _ => fun w => (Returned tt, w)
  | Click _ => fun w => (Returned tt, w)
  | MoveAndClick _ => fun w => (Returned tt, w)
  end.

Definition bare_environment : Environment unit := {|
  respond := bare_respond;
  random_random w := (half, w);
  datetime_now w := (0%Q, w);
  py_hash s := Z.of_nat (String.length s)
|}.

(** Command lines for the examples: the defaults of [parse_arguments], and
    those with an account. *)
Definition default_args : Args := {|
  args_email := None; args_password := None;
  args_config := None; args_save_config := None;
  args_sessions := 5; args_posts_per_session := 10; args_session_delay := 300;
  args_page_timeout := 30; args_min_delay := 1; args_max_delay := 3;
  args_headless := false; args_user_agent := None;
  args_whatif := false; args_verbose := false
|}.

Definition account_args : Args := {|
  args_email := Some "user@example.com"; args_password := Some "secret";
  args_config := None; args_save_config := None;
  args_sessions := 5; args_posts_per_session := 10; args_session_delay := 300;
  args_page_timeout := 30; args_min_delay := 1; args_max_delay := 3;
  args_headless := false; args_user_agent := None;
  args_whatif := false; args_verbose := false
|}.

(** The three clicks of a deletion: the options menu through the action
    chain, then the delete entry, then the confirmation button. *)
Definition deletion_clicks (menu_button delete_option confirm_button : WebElement)
    : list Effect :=
  [Called (MoveAndClick menu_button); Called (Click delete_option);
   Called (Click confirm_button)].

(** At most [k] more items are accounted for in [s'] than in [s]. *)
Definition spends (k : nat) (s s' : Stats) : Prop :=
  (attempted s' <= attempted s + k)%nat.

(** The calls [driver.find_elements(By.CSS_SELECTOR, selector)], one per
    selector. *)
Definition scans (selectors : list string) : list Effect :=
  (fun selector => Called (FindElements ByCssSelector selector)) <$> selectors.

(** Effects that send no keys. *)
Definition no_keys (ev : Effect) : Prop := keys_sent ev = "".

(** [m] sends the keys of [text] in order and nothing else: a prefix of
    [text] whatever happens, all of it when [m] returns. *)
Definition types {World A} (text : string) (m : M World A) : Prop :=
  forall c, exists evs rest,
    trace (m c).2 = trace c ++ evs /\
    text = typed evs +:+ rest /\
    (forall x, (m c).1 = Returned x -> rest = "").

(** ** What the browser answered

    The trace of a cleaner has the calls made; the statements about which
    reply decided what need the replies too. *)

(** One exchange with the browser: the call and what came back. *)
Inductive Answer :=
| Answered {R : Type} (a : Action R) (reply : Reply R).

(** The call of an answer, as the trace has it. *)
Definition asked_of (ans : Answer) : Effect :=
  match ans with Answered a _ => Called a end.

(** The exception of an answer, when the call raised. *)
Definition raised_by (ans : Answer) : option Exn :=
  match ans with
  | Answered _ (Raised e) => Some e
  | Answered _ (Returned _) => None
  end.

(** An environment that keeps the minutes of its exchanges: [answers w] is
    every call answered so far, with its reply, in order.  The methods of
    [FacebookCleaner] cannot read them. *)
Class Recorded `{Env : Environment World} := {
  answers : World -> list Answer;
  answers_respond : forall R (a : Action R) w,
    answers (respond R a w).2 = answers w ++ [Answered a (respond R a w).1];
  answers_random : forall w, answers (random_random w).2 = answers w;
  answers_now : forall w, answers (datetime_now w).2 = answers w
}.
Arguments Recorded World {Env}.

(** Every environment can be made to keep them: the same replies, and the
    minutes beside the world. *)
Definition recording `(Env : Environment World) : Environment (World * list Answer) := {|
  respond R a s :=
    let '(reply, w) := respond R a s.1 in (reply, (w, s.2 ++ [Answered a reply]));
  random_random s := let '(draw, w) := random_random s.1 in (draw, (w, s.2));
  datetime_now s := let '(t, w) := datetime_now s.1 in (t, (w, s.2));
  py_hash := py_hash
|}.

(** A browser with faults: the calls for which [fault] names an exception
    raise it, the others are answered by [Env]. *)
Definition faulty `(Env : Environment World) (fault : forall R, Action R -> option Exn)
    : Environment World := {|
  respond R a w :=
    match fault R a with
    | Some e => (Raised e, w)
    | None => respond R a w
    end;
  random_random := random_random;
  datetime_now := datetime_now;
  py_hash := py_hash
|}.

(** Between [c] and [c'] the effects [evs] were added and the browser gave
    the answers [asked]. *)
Definition ran `{Rec : Recorded World} (evs : list Effect) (asked : list Answer)
    (c c' : Cleaner World) : Prop :=
  trace c' = trace c ++ evs /\ answers (world c') = answers (world c) ++ asked.

(** [selector in table] *)
Definition listed (selector : string) (table : list string) : bool :=
  existsb (String.eqb selector) table.

(** The exceptions an attempt deals with where they arise.
    [attempt_post_deletion] has [except NoSuchElementException: continue] in
    the menu loop and [except TimeoutException: continue] in the loops for
    the delete option and the confirm button; [extract_post_info] has
    [except Exception] around all its calls: the text of the element, the
    timestamp lookups inside it, the title and the text of the timestamp.
    Every other exception of the browser is not dealt with there. *)
Definition handled_in_attempt (ans : Answer) : bool :=
  match ans with
  | Answered _ (Returned _) => true
  | Answered a (Raised e) =>
      match a with
      | GetText _ | GetAttribute _ _ => true
      | FindElement (Some _) ByCssSelector selector =>
          if listed selector menu_selectors then
            match e with NoSuchElementException _ => true | _ => false end
          else listed selector timestamp_selectors
      | WaitClickable None ByCssSelector selector =>
          if listed selector delete_selectors || listed selector confirm_selectors then
            match e with TimeoutException _ => true | _ => false end
          else false
      | _ => false
      end
  end.

Definition handled (ans : Answer) : Prop := handled_in_attempt ans = true.
Definition unhandled (ans : Answer) : Prop := handled_in_attempt ans = false.

(** [m] deals with the exceptions of the browser as an attempt does: when
    it returns, every exception raised on the way was handled where it
    arose; when it raises [e], the browser raised [e] at the last call made,
    the answer satisfies [K], and every exception before was handled. *)
Definition surfaces `{Rec : Recorded World} (K : Answer -> Prop) {A}
    (m : M World A) : Prop :=
  forall c, exists evs asked,
    ran evs asked c (m c).2 /\
    match (m c).1 with
    | Returned _ => Forall handled asked
    | Raised e =>
        exists evs' before ans,
          evs = evs' ++ [asked_of ans] /\ asked = before ++ [ans] /\
          Forall handled before /\ raised_by ans = Some e /\ K ans
    end.

(** The replies of lookups that ended without an element: a timeout of
    [self.wait.until(EC.element_to_be_clickable(...))], and for
    [find_elements] an empty list or any exception. *)
Definition timeout_reply {A} (reply : Reply A) : Prop :=
  exists msg, reply = Raised (TimeoutException msg).

Definition fruitless_reply (reply : Reply (list WebElement)) : Prop :=
  reply = Returned [] \/ exists e, reply = Raised e.

(** The answers to [self.wait.until(EC.element_to_be_clickable(...))] and
    to [driver.find_elements(...)] for a selector. *)
Definition waits_for (selector : string) (reply : Reply WebElement) : Answer :=
  Answered (WaitClickable None ByCssSelector selector) reply.

Definition scan_for (selector : string) (reply : Reply (list WebElement)) : Answer :=
  Answered (FindElements ByCssSelector selector) reply.

(** A cleaner whose clock was set back: three posts deleted in a session
    started at second 30, and a clock that now reads 0. *)
Definition clock_set_back : Cleaner Sim :=
  {| stats := {| posts_found := 3; posts_deleted := 3; posts_skipped := 0;
                 errors_encountered := 0; session_start := 30;
                 sessions_completed := 1 |};
     world := sim_page [];
     trace := [] |}.

(** Faults for the examples: a document that never gets ready, and menus
    whose elements have gone stale. *)
Definition slow_page (R : Type) (a : Action R) : option Exn :=
  match a with
  | WaitDocumentComplete => Some (TimeoutException "document.readyState")
  | _ => None
  end.

Definition stale_menus (R : Type) (a : Action R) : option Exn :=
  match a with
  | FindElement (Some _) _ _ => Some (WebDriverException "stale element reference")
  | _ => None
  end.

(** ** The elements the lookups of an attempt gave *)

Definition same_element (a b : WebElement) : bool :=
  match a, b with Element m, Element n => Nat.eqb m n end.

(** The menu button found: the reply to
    [post_element.find_element(By.CSS_SELECTOR, selector)] for a selector of
    the menu table, when it returned an element. *)
Definition menu_found (post_element : WebElement) (ans : Answer) : option WebElement :=
  match ans with
  | Answered a reply =>
      match a in Action R return Reply R -> option WebElement with
      | FindElement (Some scope) ByCssSelector selector => fun reply =>
          match reply with
          | Returned menu_button =>
              if same_element scope post_element && listed selector menu_selectors
              then Some menu_button else None
          | Raised _ => None
          end
      | _ => fun _ => None
      end reply
  end.

(** The element waited for: the reply to
    [self.wait.until(EC.element_to_be_clickable((By.CSS_SELECTOR, selector)))]
    for a selector of [table], when it returned an element. *)
Definition clickable_found (table : list string) (ans : Answer) : option WebElement :=
  match ans with
  | Answered a reply =>
      match a in Action R return Reply R -> option WebElement with
      | WaitClickable None ByCssSelector selector => fun reply =>
          match reply with
          | Returned button => if listed selector table then Some button else None
          | Raised _ => None
          end
      | _ => fun _ => None
      end reply
  end.

(** The clicks of an attempt: through the action chain on a menu button,
    directly on the other elements. *)
Definition chain_clicks (targets : list WebElement) : list Effect :=
  (fun target => Called (MoveAndClick target)) <$> targets.

Definition plain_clicks (targets : list WebElement) : list Effect :=
  (fun target => Called (Click target)) <$> targets.

(** Between [c] and [c'] the clicks and keystrokes [made] were made, and the
    lookups gave the menu buttons [menus], the delete options [deletes] and
    the confirm buttons [confirms]. *)
Definition progress `{Rec : Recorded World} (post_element : WebElement)
    (made : list Effect) (menus deletes confirms : list WebElement)
    (c c' : Cleaner World) : Prop :=
  exists evs asked,
    ran evs asked c c' /\
    clicks evs = made /\
    omap (menu_found post_element) asked = menus /\
    omap (clickable_found delete_selectors) asked = deletes /\
    omap (clickable_found confirm_selectors) asked = confirms.

(** Nothing clicked, nothing found. *)
Definition idle `{Rec : Recorded World} (post_element : WebElement)
    : relation (Cleaner World) :=
  progress post_element [] [] [] [].

(** What an attempt has clicked, and found, when it ends. *)
Definition clicks_match (made : list Effect) (ms ds ks : list WebElement)
    (r : Reply bool) : Prop :=
  made = chain_clicks ms ++ plain_clicks ds ++ plain_clicks ks /\
  (length ks <= length ds <= length ms)%nat /\ (length ms <= 1)%nat /\
  (r = Returned true -> length ks = 1%nat).

(** * Proofs *)

(** ** Rules for the judgements *)

Section Rules.
Context `{Env : Environment World}.

Lemma extends_refl S P `{!Reflexive S} (c : Cleaner World) : extends S P c c.
Proof.
  split; [reflexivity|]. exists []. by rewrite app_nil_r.
Qed.

Lemma extends_trans S P `{!Transitive S} (c1 c2 c3 : Cleaner World) :
  extends S P c1 c2 -> extends S P c2 c3 -> extends S P c1 c3.
Proof.
  intros [HS1 (evs1 & E1 & F1)] [HS2 (evs2 & E2 & F2)]. split; [by etrans|].
  exists (evs1 ++ evs2). rewrite E2, E1, app_assoc. split; [done|].
  by apply Forall_app.
Qed.

#[export] Instance extends_preorder S P `{!PreOrder S} :
  PreOrder (extends (World:=World) S P).
Proof.
  split.
  - intros c. apply extends_refl, _.
  - intros c1 c2 c3. apply extends_trans, _.
Qed.

Lemma extends_mono (S S' : relation Stats) (P P' : Effect -> Prop)
    (c c' : Cleaner World) :
  (forall s s', S s s' -> S' s s') -> (forall ev, P ev -> P' ev) ->
  extends S P c c' -> extends S' P' c c'.
Proof.
  intros HS HP [H1 (evs & E & F)]. split; [auto|].
  exists evs. split; [done|]. eapply Forall_impl; eauto.
Qed.

Lemma extends_effect S P `{!Reflexive S} ev (c : Cleaner World) :
  P ev -> extends S P c (after_effect ev c).
Proof.
  intros HP. split; [reflexivity|]. exists [ev]. split; [done|]. by constructor.
Qed.

Lemma respects_mono (R R' : relation (Cleaner World)) {A} (m : M World A) :
  (forall c c', R c c' -> R' c c') -> respects R m -> respects R' m.
Proof. intros HR Hm c. apply HR, Hm. Qed.

Lemma respects_ret (R : relation (Cleaner World)) `{!Reflexive R} {A} (a : A) : respects R (ret a).
Proof. intros c. simpl. reflexivity. Qed.

Lemma respects_raise (R : relation (Cleaner World)) `{!Reflexive R} {A} e : respects R (raise (A:=A) e).
Proof. intros c. simpl. reflexivity. Qed.

Lemma respects_bind (R : relation (Cleaner World)) `{!Transitive R} {A B} (m : M World A) (k : A -> M World B) :
  respects R m -> (forall a, respects R (k a)) -> respects R (bind m k).
Proof.
  intros Hm Hk c. unfold bind. specialize (Hm c).
  destruct (m c) as [[a|e] c1]; simpl in *; [|done].
  etrans; [exact Hm|]. apply Hk.
Qed.

Lemma respects_catch (R : relation (Cleaner World)) `{!Transitive R} {A} (m : M World A) (h : Exn -> M World A) :
  respects R m -> (forall e, respects R (h e)) -> respects R (catch m h).
Proof.
  intros Hm Hh c. unfold catch. specialize (Hm c).
  destruct (m c) as [[a|e] c1]; simpl in *; [done|].
  etrans; [exact Hm|]. apply Hh.
Qed.

Lemma respects_except (R : relation (Cleaner World)) `{!PreOrder R} {A} is_class (m : M World A) h :
  respects R m -> (forall e, respects R (h e)) -> respects R (except is_class m h).
Proof.
  intros Hm Hh. apply respects_catch; [apply _|done|].
  intros e. destruct (is_class e); [apply Hh|]. apply respects_raise, _.
Qed.

Section Primitives.
Context (S : relation Stats) (P : Effect -> Prop) `{!PreOrder S}.

Lemma keeps_record ev : P ev -> respects (extends S P) (record (World:=World) ev).
Proof. intros HP c. by apply extends_effect; [apply _|]. Qed.

Lemma keeps_log level msg :
  P (Logged level msg) -> respects (extends S P) (log (World:=World) level msg).
Proof. apply keeps_record. Qed.

Lemma keeps_print line :
  P (Printed line) -> respects (extends S P) (print (World:=World) line).
Proof. apply keeps_record. Qed.

Lemma keeps_call {R} (a : Action R) :
  P (Called a) -> respects (extends S P) (call a).
Proof.
  intros HP c. unfold call. destruct (respond R a (world c)) as [r w].
  split; [reflexivity|]. exists [Called a]. split; [done|]. by constructor.
Qed.

Lemma keeps_time_sleep d :
  P (Slept d) -> respects (extends S P) (time_sleep (World:=World) d).
Proof.
  intros HP c. split; [reflexivity|]. exists [Slept d]. split; [done|]. by constructor.
Qed.

Lemma keeps_random_uniform a b : respects (extends S P) (random_uniform a b).
Proof.
  intros c. unfold random_uniform. destruct (random_random (world c)) as [r w].
  split; [reflexivity|]. exists []. by rewrite app_nil_r.
Qed.

Lemma keeps_now : respects (extends S P) now.
Proof.
  intros c. unfold now. destruct (datetime_now (world c)) as [t w].
  split; [reflexivity|]. exists []. by rewrite app_nil_r.
Qed.

Lemma keeps_get_stats : respects (extends S P) (get_stats (World:=World)).
Proof. intros c. apply extends_refl, _. Qed.

Lemma keeps_update_stats f :
  (forall s, S s (f s) /\ P (StatsSet s (f s))) ->
  respects (extends S P) (update_stats (World:=World) f).
Proof.
  intros Hf c. destruct (Hf (stats c)) as [HS HP]. split; [done|].
  exists [StatsSet (stats c) (f (stats c))]. split; [done|]. by constructor.
Qed.

End Primitives.

Lemma total_ret {A} (a : A) : total (ret (World:=World) a).
Proof. intros c. by exists a. Qed.

Lemma total_bind {A B} (m : M World A) (k : A -> M World B) :
  total m -> (forall a, total (k a)) -> total (bind m k).
Proof.
  intros Hm Hk c. unfold bind. destruct (Hm c) as [a Ha].
  destruct (m c) as [r c1]; simpl in Ha; subst r. apply Hk.
Qed.

Lemma total_catch {A} (m : M World A) (h : Exn -> M World A) :
  (forall e, total (h e)) -> total (catch m h).
Proof.
  intros Hh c. unfold catch. destruct (m c) as [[a|e] c1]; [by exists a|]. apply Hh.
Qed.

Lemma total_record ev : total (record (World:=World) ev).
Proof. intros c. by exists tt. Qed.

Lemma total_update_stats f : total (update_stats (World:=World) f).
Proof. intros c. by exists tt. Qed.

Lemma total_get_stats : total (get_stats (World:=World)).
Proof. intros c. by eexists. Qed.

Lemma total_now : total now.
Proof.
  intros c. unfold now. destruct (datetime_now (world c)) as [t w]. by exists t.
Qed.

End Rules.

(** Decomposes a [respects] goal along the structure of the method. *)
Ltac respects_step :=
  lazymatch goal with
  | |- respects _ (ret _) => apply respects_ret; apply _
  | |- respects _ (raise _) => apply respects_raise; apply _
  | |- respects _ (bind _ _) => apply respects_bind; [apply _| |intros ?]
  | |- respects _ (catch _ _) => apply respects_catch; [apply _| |intros ?]
  | |- respects _ (except _ _ _) => apply respects_except; [apply _| |intros ?]
  | |- respects _ (log _ _) => apply keeps_log; try apply _
  | |- respects _ (print _) => apply keeps_print; try apply _
  | |- respects _ (call _) => apply keeps_call; try apply _
  | |- respects _ (time_sleep _) => apply keeps_time_sleep; try apply _
  | |- respects _ (random_uniform _ _) => apply keeps_random_uniform; apply _
  | |- respects _ now => apply keeps_now; apply _
  | |- respects _ get_stats => apply keeps_get_stats; apply _
  | |- respects _ (update_stats _) => apply keeps_update_stats; try apply _; intros ?; split; simpl
  | |- respects _ (if ?b then _ else _) => destruct b
  | |- respects _ (match ?x with _ => _ end) => destruct x
  | |- respects _ (let _ := _ in _) => cbv zeta
  end.

Ltac respects_auto := repeat (respects_step || assumption || done).

(** ** Which methods leave the statistics alone *)

#[export] Instance no_decrement_preorder : PreOrder no_decrement.
Proof.
  split.
  - intros s. unfold no_decrement. lia.
  - intros s1 s2 s3. unfold no_decrement. lia.
Qed.

#[export] Instance same_session_preorder : PreOrder same_session.
Proof.
  split.
  - intros s. split; [reflexivity|done].
  - intros s1 s2 s3 [H1 E1] [H2 E2]. split; [by etrans|congruence].
Qed.

Create HintDb methods.

Ltac methods_auto :=
  repeat first [ respects_step | assumption | done | solve [eauto with methods] ].

Abbreviation reading := (respects (extends eq read_only)).
Abbreviation quietly := (respects (extends eq quiet)).
Abbreviation batching := (respects (extends same_session in_batch)).

Section Cleaning.
Context `{Env : Environment World}.
Variable config : Config.

Lemma reading_quietly {A} (m : M World A) : reading m -> quietly m.
Proof.
  apply respects_mono. intros c c'. apply extends_mono; [done|]. by intros ev [].
Qed.

Lemma quietly_batching {A} (m : M World A) : quietly m -> batching m.
Proof.
  apply respects_mono. intros c c'. apply extends_mono.
  - intros s s' <-. reflexivity.
  - intros [] ; simpl; try done.
Qed.

Lemma human_like_delay_reading a b : reading (human_like_delay config a b).
Proof. unfold human_like_delay. methods_auto. Qed.
Hint Resolve human_like_delay_reading : methods.

Lemma timestamp_loop_reading post selectors :
  reading (timestamp_loop post selectors).
Proof. induction selectors as [|selector rest IH]; simpl; methods_auto. Qed.
Hint Resolve timestamp_loop_reading : methods.

Lemma extract_post_info_reading post : reading (extract_post_info post).
Proof. unfold extract_post_info. methods_auto. Qed.

Lemma human_like_delay_quietly a b : quietly (human_like_delay config a b).
Proof. apply reading_quietly, human_like_delay_reading. Qed.
Hint Resolve human_like_delay_quietly : methods.

Lemma extract_post_info_quietly post : quietly (extract_post_info post).
Proof. apply reading_quietly, extract_post_info_reading. Qed.
Hint Resolve extract_post_info_quietly : methods.

Lemma wait_for_page_load_quietly timeout : quietly (wait_for_page_load config timeout).
Proof. unfold wait_for_page_load. methods_auto. Qed.
Hint Resolve wait_for_page_load_quietly : methods.

Lemma cookie_loop_quietly selectors : quietly (cookie_loop config selectors).
Proof. induction selectors as [|selector rest IH]; simpl; methods_auto. Qed.
Hint Resolve cookie_loop_quietly : methods.

Lemma handle_cookie_banner_quietly : quietly (handle_cookie_banner config).
Proof. unfold handle_cookie_banner. methods_auto. Qed.
Hint Resolve handle_cookie_banner_quietly : methods.

Lemma type_keys_quietly field text : quietly (type_keys field text).
Proof. induction text as [|char rest IH]; simpl; methods_auto. Qed.
Hint Resolve type_keys_quietly : methods.

Lemma login_quietly : quietly (login config).
Proof. unfold login. methods_auto. Qed.

Lemma on_activity_page_quietly : quietly on_activity_page.
Proof. unfold on_activity_page. methods_auto. Qed.
Hint Resolve on_activity_page_quietly : methods.

Lemma navigate_through_profile_quietly selectors :
  quietly (navigate_through_profile config selectors).
Proof. induction selectors as [|selector rest IH]; simpl; methods_auto. Qed.
Hint Resolve navigate_through_profile_quietly : methods.

Lemma navigate_to_activity_log_quietly : quietly (navigate_to_activity_log config).
Proof. unfold navigate_to_activity_log. methods_auto. Qed.

Lemma collect_posts_quietly selectors : quietly (collect_posts selectors).
Proof. induction selectors as [|selector rest IH]; simpl; methods_auto. Qed.
Hint Resolve collect_posts_quietly : methods.

Lemma element_id_quietly post : quietly (element_id post).
Proof. unfold element_id. methods_auto. Qed.
Hint Resolve element_id_quietly : methods.

Lemma unique_loop_quietly all_posts unique_posts seen :
  quietly (unique_loop all_posts unique_posts seen).
Proof.
  revert unique_posts seen.
  induction all_posts as [|post rest IH]; intros; simpl; methods_auto.
Qed.
Hint Resolve unique_loop_quietly : methods.

Lemma first_found_quietly (lookup : string -> M World WebElement) is_miss selectors :
  (forall selector, quietly (lookup selector)) ->
  quietly (first_found lookup is_miss selectors).
Proof. intros Hl. induction selectors as [|selector rest IH]; simpl; methods_auto. Qed.

Lemma find_in_quietly post selector :
  quietly (find_in (World:=World) post selector).
Proof. unfold find_in. methods_auto. Qed.

Lemma wait_clickable_quietly selector :
  quietly (wait_clickable (World:=World) selector).
Proof. unfold wait_clickable. methods_auto. Qed.

Lemma menu_lookup_quietly post :
  quietly (first_found (find_in post) is_NoSuchElementException menu_selectors).
Proof. apply first_found_quietly, find_in_quietly. Qed.
Hint Resolve menu_lookup_quietly : methods.

Lemma clickable_lookup_quietly selectors :
  quietly (first_found wait_clickable is_TimeoutException selectors).
Proof. apply first_found_quietly, wait_clickable_quietly. Qed.
Hint Resolve clickable_lookup_quietly : methods.

Lemma countdown_quietly remaining : quietly (countdown (World:=World) remaining).
Proof. induction remaining as [|remaining IH]; simpl; methods_auto. Qed.
Hint Resolve countdown_quietly : methods.

Lemma get_final_stats_quietly : quietly get_final_stats.
Proof. unfold get_final_stats. methods_auto. Qed.

(** Within a batch the session counter stays and nothing is decremented. *)

Lemma incr_posts_deleted_same_session s : same_session s (incr_posts_deleted s).
Proof. repeat split; simpl; lia. Qed.

Lemma incr_posts_skipped_same_session s : same_session s (incr_posts_skipped s).
Proof. repeat split; simpl; lia. Qed.

Lemma incr_errors_encountered_same_session s :
  same_session s (incr_errors_encountered s).
Proof. repeat split; simpl; lia. Qed.

Lemma add_posts_found_same_session n s : same_session s (add_posts_found n s).
Proof. repeat split; simpl; lia. Qed.

Hint Resolve incr_posts_deleted_same_session incr_posts_skipped_same_session
  incr_errors_encountered_same_session add_posts_found_same_session : methods.

Hint Extern 1 (batching _) => apply quietly_batching; solve [eauto with methods] : methods.

Lemma find_posts_on_page_batching : batching find_posts_on_page.
Proof. unfold find_posts_on_page. methods_auto. Qed.
Hint Resolve find_posts_on_page_batching : methods.

Lemma confirm_deletion_batching i : batching (confirm_deletion config i).
Proof. unfold confirm_deletion. methods_auto. Qed.
Hint Resolve confirm_deletion_batching : methods.

Lemma attempt_post_deletion_batching post i :
  batching (attempt_post_deletion config post i).
Proof. unfold attempt_post_deletion, attempt_body. methods_auto. Qed.
Hint Resolve attempt_post_deletion_batching : methods.

Lemma batch_loop_batching items deleted_count :
  batching (batch_loop config items deleted_count).
Proof.
  revert deleted_count.
  induction items as [|[i post] rest IH]; intros; simpl; methods_auto.
Qed.
Hint Resolve batch_loop_batching : methods.

Lemma delete_posts_batch_batching max_posts :
  batching (delete_posts_batch config max_posts).
Proof. unfold delete_posts_batch. methods_auto. Qed.

(** ** Pacing *)

Lemma draw_value_range (r : UnitDraw) : (0 <= draw_value r < 1)%Q.
Proof.
  destruct r as [q Hq]. simpl. apply andb_true_iff in Hq as [H0 H1].
  apply Qle_bool_iff in H0. split; [done|].
  apply Qnot_le_lt. intros H%Qle_bool_iff. by rewrite H in H1.
Qed.

Lemma uniform_bounds (a b : Q) (r : UnitDraw) :
  (a <= b)%Q ->
  (a <= a + (b - a) * draw_value r <= b)%Q.
Proof.
  intros Hab. destruct (draw_value_range r) as [H0 H1].
  assert (0 <= (b - a) * draw_value r)%Q as Hlow.
  { apply Qmult_le_0_compat; lra. }
  assert (0 <= (b - a) * (1 - draw_value r))%Q as Hhigh.
  { apply Qmult_le_0_compat; lra. }
  lra.
Qed.

Lemma uniform_degenerate (a b : Q) (r : UnitDraw) :
  (a == b)%Q -> (a + (b - a) * draw_value r == a)%Q.
Proof. intros Hab. rewrite Hab. ring. Qed.

Lemma uniform_nonnegative (a b : Q) (r : UnitDraw) :
  (0 <= a)%Q -> (0 <= b)%Q -> (0 <= a + (b - a) * draw_value r)%Q.
Proof.
  intros Ha Hb. destruct (draw_value_range r) as [H0 H1].
  assert (0 <= a * (1 - draw_value r))%Q by (apply Qmult_le_0_compat; lra).
  assert (0 <= b * draw_value r)%Q by (apply Qmult_le_0_compat; lra).
  lra.
Qed.

Lemma human_like_delay_total (a b : Q) :
  (0 <= a)%Q -> (0 <= b)%Q ->
  total (human_like_delay config (Some a) (Some b)).
Proof.
  intros Ha Hb c. unfold human_like_delay, bind, random_uniform, time_sleep. simpl.
  destruct (random_random (world c)) as [r w]. simpl.
  pose proof (uniform_nonnegative a b r Ha Hb) as H%Qle_bool_iff.
  rewrite H. by exists tt.
Qed.

(** C9. For bounds [lo <= hi] (the arguments, or the configured action
    delays where an argument is [None]), [human_like_delay] makes exactly one
    call [time.sleep(d)], with [lo <= d <= hi]; when [lo = hi] the duration
    is that common value; and for non-negative bounds the call returns. *)
Theorem human_like_delay_within_bounds (min_delay max_delay : option Q)
    (c : Cleaner World) :
  let lo := default (min_action_delay (timing config)) min_delay in
  let hi := default (max_action_delay (timing config)) max_delay in
  (lo <= hi)%Q ->
  exists d : Q,
    trace (human_like_delay config min_delay max_delay c).2 = trace c ++ [Slept d] /\
    (lo <= d <= hi)%Q /\
    ((lo == hi)%Q -> (d == lo)%Q) /\
    ((0 <= lo)%Q -> (human_like_delay config min_delay max_delay c).1 = Returned tt).
Proof.
  intros lo hi Hle.
  unfold human_like_delay, bind, random_uniform, time_sleep. fold lo hi.
  destruct (random_random (world c)) as [r w]. simpl.
  exists (lo + (hi - lo) * draw_value r)%Q. split; [done|].
  split; [by apply uniform_bounds|]. split; [apply uniform_degenerate|].
  intros H0.
  assert (0 <= lo + (hi - lo) * draw_value r)%Q as H%Qle_bool_iff.
  { apply uniform_nonnegative; lra. }
  by rewrite H.
Qed.

(** ** One assignment per attempt *)

Lemma commits_bind {A B} (G : B -> Stats -> Stats) (c0 : Cleaner World)
    (m : M World A) (k : A -> M World B) (c : Cleaner World) :
  quietly m -> extends eq quiet c0 c ->
  (forall a c1, extends eq quiet c0 c1 -> commits G c0 (k a c1)) ->
  commits G c0 (bind m k c).
Proof.
  intros Hm Hc Hk. unfold bind. specialize (Hm c).
  destruct (m c) as [[a|e] c1]; simpl in Hm.
  - apply Hk. by etrans.
  - simpl. by etrans.
Qed.

Lemma commits_update {A} (G : A -> Stats -> Stats) (c0 : Cleaner World) f (a : A) c :
  extends eq quiet c0 c -> f = G a ->
  commits G c0 (bind (update_stats f) (fun _ => ret a) c).
Proof. intros Hc ->. simpl. by exists c. Qed.

Ltac commits_step :=
  lazymatch goal with
  | |- commits _ _ (bind (update_stats _) (fun _ => ret _) _) =>
      apply commits_update; [assumption|reflexivity]
  | |- commits _ _ (bind _ _ _) =>
      eapply commits_bind; [solve [methods_auto] | eassumption | intros ? ? ?]
  | |- commits _ _ ((if ?b then _ else _) _) => destruct b
  | |- commits _ _ ((match ?x with _ => _ end) _) => destruct x
  | |- commits _ _ (confirm_deletion _ _ _) => unfold confirm_deletion
  end.

Lemma attempt_body_commits post i c :
  commits attempt_update c (attempt_body config post i c).
Proof.
  assert (extends eq quiet c c) by reflexivity.
  unfold attempt_body. repeat commits_step.
Qed.

Lemma find_posts_on_page_commits c :
  commits found_update c (find_posts_on_page c).
Proof.
  assert (extends eq quiet c c) by reflexivity.
  unfold find_posts_on_page. repeat commits_step.
Qed.

(** An attempt always returns, and what it does to the statistics is one
    increment of one of the three outcome counters, made last. *)
Lemma attempt_post_deletion_spec post i c :
  exists deleted f c1,
    attempt_post_deletion config post i c = (Returned deleted, after_update f c1) /\
    extends eq quiet c c1 /\
    (f = incr_posts_deleted /\ deleted = true \/
     f = incr_posts_skipped /\ deleted = false \/
     f = incr_errors_encountered /\ deleted = false).
Proof.
  pose proof (attempt_body_commits post i c) as H.
  unfold attempt_post_deletion, catch.
  destruct (attempt_body config post i c) as [[deleted|e] c']; simpl in H.
  - destruct H as (c1 & H1 & ->). exists deleted, (attempt_update deleted), c1.
    split; [done|]. split; [done|]. destruct deleted; auto.
  - exists false, incr_errors_encountered,
      (after_effect (Logged ERROR (ErrorDeletingPost (i + 1) e)) c').
    split; [done|]. split; [|auto].
    etrans; [exact H|]. by apply extends_effect; [apply _|].
Qed.

(** ** The accounting invariant *)

Lemma within_budget_quiet (c c' : Cleaner World) :
  extends eq quiet c c' -> within_budget 0 c c'.
Proof.
  intros [Hs (evs & E & F)]. split.
  - rewrite <- Hs. split; [done|]. split; [lia|reflexivity].
  - exists evs. split; [done|]. eapply Forall_impl; [exact F|].
    by intros [].
Qed.

Lemma within_budget_trans j k (c1 c2 c3 : Cleaner World) :
  within_budget j c1 c2 -> within_budget k c2 c3 -> within_budget (j + k) c1 c3.
Proof.
  intros [(Hf1 & Ha1 & Hd1) (evs1 & E1 & F1)] [(Hf2 & Ha2 & Hd2) (evs2 & E2 & F2)].
  split.
  - split; [congruence|]. split; [lia|by etrans].
  - exists (evs1 ++ evs2). rewrite E2, E1, app_assoc. split; [done|].
    apply Forall_app. split.
    + eapply Forall_impl; [exact F1|]. intros []; simpl; try done.
      intros (?&?&?). split; [done|]. split; [done|lia].
    + eapply Forall_impl; [exact F2|]. intros []; simpl; try done.
      intros (?&?&?). split; [done|]. split; [congruence|lia].
Qed.

Lemma within_budget_weaken j k (c c' : Cleaner World) :
  (j <= k)%nat -> within_budget j c c' -> within_budget k c c'.
Proof.
  intros Hjk [(Hf & Ha & Hd) (evs & E & F)]. split.
  - split; [done|]. split; [lia|done].
  - exists evs. split; [done|]. eapply Forall_impl; [exact F|].
    intros []; simpl; try done. intros (?&?&?). split; [done|]. split; [done|lia].
Qed.

Lemma within_budget_then_quiet k (c1 c2 c3 : Cleaner World) :
  within_budget k c1 c2 -> extends eq quiet c2 c3 -> within_budget k c1 c3.
Proof.
  intros H12 H23%within_budget_quiet.
  rewrite <- (Nat.add_0_r k). by apply (within_budget_trans k 0 c1 c2 c3).
Qed.

Lemma within_budget_outcome f (c : Cleaner World) :
  f = incr_posts_deleted \/ f = incr_posts_skipped \/ f = incr_errors_encountered ->
  within_budget 1 c (after_update f c).
Proof.
  intros Hf.
  assert (posts_found (f (stats c)) = posts_found (stats c) /\
          attempted (f (stats c)) = (attempted (stats c) + 1)%nat /\
          no_decrement (stats c) (f (stats c))) as (Hfound & Hatt & Hdec).
  { unfold attempted, no_decrement.
    destruct Hf as [->|[->| ->]]; simpl; lia. }
  split.
  - simpl. split; [done|]. split; [lia|done].
  - exists [StatsSet (stats c) (f (stats c))]. split; [done|].
    constructor; [|done]. simpl. split; [done|]. split; [done|lia].
Qed.

Lemma attempt_within_budget post i c :
  within_budget 1 c (attempt_post_deletion config post i c).2.
Proof.
  destruct (attempt_post_deletion_spec post i c) as (deleted & f & c1 & -> & H1 & Hf).
  simpl. apply (within_budget_trans 0 1 c c1).
  - by apply within_budget_quiet.
  - apply within_budget_outcome. tauto.
Qed.

Lemma pacing_quietly a b :
  quietly (bind (random_uniform (World:=World) a b) time_sleep).
Proof. methods_auto. Qed.

Lemma batch_loop_within_budget items deleted_count c :
  within_budget (length items) c (batch_loop config items deleted_count c).2.
Proof.
  revert deleted_count c.
  induction items as [|[i post] rest IH]; intros deleted_count c.
  - simpl. apply within_budget_quiet. reflexivity.
  - simpl. unfold bind at 1.
    pose proof (attempt_within_budget post i c) as Hattempt.
    destruct (attempt_post_deletion_spec post i c) as (deleted & f & c1 & E & _ & _).
    rewrite E in Hattempt |- *. simpl in Hattempt. cbv iota beta.
    change (S (length rest)) with (1 + length rest)%nat.
    destruct deleted.
    + unfold bind at 1.
      pose proof (keeps_random_uniform eq quiet (min_delete_delay (timing config))
                    (max_delete_delay (timing config)) (after_update f c1)) as Hu.
      destruct (random_uniform _ _ (after_update f c1)) as [[delay|e] c2];
        simpl in Hu.
      * unfold bind at 1.
        pose proof (keeps_time_sleep eq quiet delay I c2) as Hs.
        destruct (time_sleep delay c2) as [[[]|e] c3]; simpl in Hs.
        -- eapply within_budget_trans; [|apply IH].
           eapply within_budget_then_quiet; [exact Hattempt|by etrans].
        -- apply (within_budget_weaken 1); [lia|].
           eapply within_budget_then_quiet; [exact Hattempt|by etrans].
      * apply (within_budget_weaken 1); [lia|].
        eapply within_budget_then_quiet; [exact Hattempt|done].
    + eapply within_budget_trans; [exact Hattempt|apply IH].
Qed.

#[export] Instance keeps_accounts_preorder : PreOrder (keeps_accounts (World:=World)).
Proof.
  split.
  - intros c Hok. split; [done|]. exists []. by rewrite app_nil_r.
  - intros c1 c2 c3 H12 H23 Hok.
    destruct (H12 Hok) as [Hok2 (evs1 & E1 & F1)].
    destruct (H23 Hok2) as [Hok3 (evs2 & E2 & F2)].
    split; [done|]. exists (evs1 ++ evs2). rewrite E2, E1, app_assoc.
    split; [done|]. by apply Forall_app.
Qed.

Lemma keeps_accounts_quiet (c c' : Cleaner World) :
  extends eq quiet c c' -> keeps_accounts c c'.
Proof.
  intros [Hs (evs & E & F)] Hok. rewrite <- Hs. split; [done|].
  exists evs. split; [done|]. eapply Forall_impl; [exact F|]. by intros [].
Qed.

Lemma quietly_accounting {A} (m : M World A) :
  quietly m -> respects keeps_accounts m.
Proof. apply respects_mono, keeps_accounts_quiet. Qed.

Lemma keeps_accounts_found n k (c1 c3 : Cleaner World) :
  (k <= n)%nat ->
  within_budget k (after_update (add_posts_found n) c1) c3 ->
  keeps_accounts c1 c3.
Proof.
  intros Hkn [(Hf & Ha & Hd) (evs & E & F)] Hok.
  unfold stats_ok, attempted in *. simpl in Hf, Ha, E, F.
  split; [lia|].
  exists (StatsSet (stats c1) (add_posts_found n (stats c1)) :: evs).
  split; [by rewrite E, <- app_assoc|].
  constructor.
  - split; [unfold no_decrement|unfold stats_ok, attempted]; simpl; lia.
  - eapply Forall_impl; [exact F|]. intros []; simpl; try done.
    intros (?&?&?). split; [done|]. unfold stats_ok, attempted. lia.
Qed.

Lemma length_slice_to {A} (n : Z) (l : list A) : (length (slice_to n l) <= length l)%nat.
Proof. unfold slice_to. destruct (0 <=? n); rewrite length_take; lia. Qed.

Lemma length_enumerate_from {A} (i : nat) (l : list A) :
  length (enumerate_from i l) = length l.
Proof. revert i. induction l as [|x l IH]; intros i; simpl; [done|]. by rewrite IH. Qed.

Lemma bind_eq {A B} (m : M World A) (k : A -> M World B) c :
  bind m k c =
  match m c with
  | (Returned a, c') => k a c'
  | (Raised e, c') => (Raised e, c')
  end.
Proof. done. Qed.

Lemma log_eq level msg (c : Cleaner World) :
  log level msg c = (Returned tt, after_effect (Logged level msg) c).
Proof. done. Qed.

Lemma update_stats_eq f (c : Cleaner World) :
  update_stats f c = (Returned tt, after_update f c).
Proof. done. Qed.

Lemma delete_posts_batch_accounting max_posts :
  respects keeps_accounts (delete_posts_batch config max_posts).
Proof.
  intros c. unfold delete_posts_batch. rewrite bind_eq, log_eq.
  set (c0 := after_effect (Logged INFO (BatchStarting max_posts)) c).
  transitivity c0.
  { apply keeps_accounts_quiet. by apply extends_effect; [apply _|]. }
  rewrite bind_eq. pose proof (find_posts_on_page_commits c0) as Hfind.
  destruct (find_posts_on_page c0) as [[posts|e] c2]; simpl in Hfind;
    [|by apply keeps_accounts_quiet].
  destruct Hfind as (c1 & H1 & ->).
  transitivity c1; [by apply keeps_accounts_quiet|].
  apply (keeps_accounts_found (length posts) (length posts)); [done|].
  fold (found_update posts). set (c2 := after_update (found_update posts) c1).
  destruct posts as [|post posts'].
  - apply (within_budget_weaken 0); [lia|]. apply within_budget_quiet.
    rewrite bind_eq, log_eq. by apply extends_effect; [apply _|].
  - set (posts := post :: posts') in *.
    set (items := enumerate (slice_to max_posts posts)).
    assert (length items <= length posts)%nat as Hlen.
    { unfold items, enumerate. rewrite length_enumerate_from. apply length_slice_to. }
    rewrite bind_eq, log_eq.
    set (c3 := after_effect _ c2).
    assert (within_budget 0 c2 c3) as H23.
    { apply within_budget_quiet. by apply extends_effect; [apply _|]. }
    rewrite bind_eq. pose proof (batch_loop_within_budget items 0 c3) as Hloop.
    apply (within_budget_weaken (0 + length items)); [lia|].
    apply (within_budget_trans _ _ _ c3); [done|].
    destruct (batch_loop config items 0 c3) as [[deleted_count|e] c4];
      simpl in Hloop; [|done].
    rewrite bind_eq, log_eq.
    eapply within_budget_then_quiet; [exact Hloop|].
    by apply extends_effect; [apply _|].
Qed.

Lemma session_closing_accounting :
  respects keeps_accounts (update_stats (World:=World) incr_sessions_completed).
Proof.
  intros c Hok. split; [done|].
  exists [StatsSet (stats c) (incr_sessions_completed (stats c))]. split; [done|].
  constructor; [|done]. split; [|done]. unfold no_decrement. simpl. lia.
Qed.

Lemma log_accounting level msg :
  respects keeps_accounts (log (World:=World) level msg).
Proof.
  intros c Hok. split; [done|]. exists [Logged level msg]. split; [done|].
  by constructor.
Qed.

Hint Resolve delete_posts_batch_accounting session_closing_accounting log_accounting
  login_quietly navigate_to_activity_log_quietly get_final_stats_quietly : methods.
Hint Extern 2 (respects keeps_accounts _) =>
  apply quietly_accounting; solve [methods_auto] : methods.

Lemma session_loop_accounting sessions :
  respects keeps_accounts (session_loop config sessions).
Proof. induction sessions as [|session rest IH]; simpl; methods_auto. Qed.
Hint Resolve session_loop_accounting : methods.

Lemma clean_profile_gradually_accounting :
  respects keeps_accounts (clean_profile_gradually config).
Proof. unfold clean_profile_gradually. methods_auto. Qed.

(** C1. In a run of [clean_profile_gradually] on a new cleaner, every
    assignment to the statistics decrements no counter and leaves
    [posts_deleted + posts_skipped + errors_encountered <= posts_found] in
    place; the inequality holds before the run and when it ends. *)
Theorem accounting_invariant (w : World) :
  let c0 := new_cleaner w in
  let c' := (clean_profile_gradually config c0).2 in
  stats_ok (stats c0) /\ Forall accounted (trace c') /\ stats_ok (stats c').
Proof.
  intros c0 c'.
  assert (stats_ok (stats c0) /\ trace c0 = []) as [Hok Hnil].
  { unfold c0, new_cleaner. destruct (datetime_now w) as [start w'].
    split; [|done]. unfold stats_ok, attempted. simpl. lia. }
  destruct (clean_profile_gradually_accounting c0 Hok) as [Hok' (evs & E & F)].
  fold c' in Hok', E. rewrite Hnil in E. simpl in E. rewrite E. done.
Qed.

(** ** Simulation mode *)

Lemma extract_post_info_total post : total (extract_post_info post).
Proof. apply total_catch. intros e. apply total_ret. Qed.

(** A method that only reads and never raises. *)
Lemma run_reading {A} (m : M World A) (c : Cleaner World) :
  reading m -> total m ->
  exists a c', m c = (Returned a, c') /\ extends eq read_only c c'.
Proof.
  intros Hr Ht. specialize (Hr c). destruct (Ht c) as [a Ha].
  destruct (m c) as [r c']. simpl in *. subst r. by exists a, c'.
Qed.

Lemma call_eq {R} (a : Action R) (c : Cleaner World) :
  call a c = ((respond R a (world c)).1, after_call a (respond R a (world c)).2 c).
Proof. unfold call. by destruct (respond R a (world c)). Qed.

Lemma attempt_scroll_raises post i c e :
  (respond _ (ExecuteScript scroll_script [post]) (world c)).1 = Raised e ->
  attempt_post_deletion config post i c =
    (Returned false,
     after_update incr_errors_encountered
       (after_effect (Logged ERROR (ErrorDeletingPost (i + 1) e))
          (after_call (ExecuteScript scroll_script [post])
             (respond _ (ExecuteScript scroll_script [post]) (world c)).2 c))).
Proof.
  intros Hscroll. unfold attempt_post_deletion, attempt_body, catch.
  by rewrite bind_eq, call_eq, Hscroll.
Qed.

Lemma whatif_attempt_scrolled post i c u :
  whatif (execution config) = true ->
  (respond _ (ExecuteScript scroll_script [post]) (world c)).1 = Returned u ->
  exists post_info c3,
    extends eq read_only
      (after_call (ExecuteScript scroll_script [post])
         (respond _ (ExecuteScript scroll_script [post]) (world c)).2 c) c3 /\
    attempt_post_deletion config post i c =
      (Returned true,
       after_update incr_posts_deleted
         (after_effect (Logged INFO (WhatifWouldDelete (i + 1)))
            (after_effect (Logged INFO (PostInfo (i + 1) post_info)) c3))).
Proof.
  intros Hwhatif Hscroll. unfold attempt_post_deletion, attempt_body, catch.
  rewrite bind_eq, call_eq, Hscroll.
  set (c1 := after_call _ _ c). rewrite bind_eq.
  destruct (run_reading (human_like_delay config (Some 1%Q) (Some 2%Q)) c1)
    as ([] & c2 & -> & H2).
  { apply human_like_delay_reading. }
  { by apply human_like_delay_total. }
  rewrite bind_eq.
  destruct (run_reading (extract_post_info post) c2) as (post_info & c3 & -> & H3).
  { apply extract_post_info_reading. }
  { apply extract_post_info_total. }
  rewrite bind_eq, log_eq, Hwhatif, bind_eq, log_eq, bind_eq, update_stats_eq.
  exists post_info, c3. split; [by etrans|done].
Qed.

(** C2, as the code has it. In simulation mode an attempt first scrolls the
    item into view, and after that neither clicks nor types. If the
    scrolling call returns, the attempt adds one to [posts_deleted], leaves
    the other counters, and returns [True]; if that call raises, the attempt
    adds one to [errors_encountered] and returns [False]. *)
Theorem whatif_attempt (post : WebElement) (i : nat) (c : Cleaner World) :
  whatif (execution config) = true ->
  let scroll := ExecuteScript scroll_script [post] in
  let r := attempt_post_deletion config post i c in
  (exists evs,
     trace r.2 = trace c ++ Called scroll :: evs /\
     Forall (fun ev => is_click_or_type ev = false) evs) /\
  match (respond _ scroll (world c)).1 with
  | Returned _ => r.1 = Returned true /\ stats r.2 = incr_posts_deleted (stats c)
  | Raised _ => r.1 = Returned false /\ stats r.2 = incr_errors_encountered (stats c)
  end.
Proof.
  intros Hwhatif scroll r.
  destruct (respond _ scroll (world c)).1 as [u|e] eqn:Hscroll.
  - destruct (whatif_attempt_scrolled post i c u Hwhatif Hscroll)
      as (post_info & c3 & [Hs (evs & E & F)] & Hr).
    subst r. rewrite Hr. cbn [fst snd after_update after_effect stats trace].
    split; [|by rewrite <- Hs].
    exists (evs ++ [Logged INFO (PostInfo (i + 1) post_info);
                    Logged INFO (WhatifWouldDelete (i + 1));
                    StatsSet (stats c3) (incr_posts_deleted (stats c3))]).
    split.
    + rewrite E. cbn [after_call trace]. by rewrite <- !app_assoc.
    + apply Forall_app. split; [eapply Forall_impl; [exact F|by intros ? []]|].
      by repeat constructor.
  - subst r. rewrite (attempt_scroll_raises post i c e Hscroll).
    cbn [fst snd after_update after_effect after_call stats trace]. split; [|done].
    eexists. split; [by rewrite <- !app_assoc|]. by repeat constructor.
Qed.

(** ** The confirmation step *)

Lemma first_found_all_time_out selectors (c : Cleaner World) :
  all_time_out selectors (world c) ->
  first_found wait_clickable is_TimeoutException selectors c =
    (Returned None,
     {| stats := stats c; world := world_after_lookups selectors (world c);
        trace := trace c ++ lookups selectors |}).
Proof.
  revert c. induction selectors as [|selector rest IH]; intros c Hall.
  - simpl. unfold ret. destruct c. simpl. by rewrite app_nil_r.
  - destruct Hall as (msg & w' & Hr & Hrest). simpl.
    rewrite bind_eq. unfold except, catch. rewrite bind_eq.
    unfold wait_clickable at 1. rewrite call_eq, Hr. cbn [fst snd is_TimeoutException].
    unfold ret at 1. rewrite IH by done.
    unfold after_call. cbn [stats world trace]. by rewrite <- app_assoc.
Qed.

(** C3, as the code has it. When every lookup of a confirmation control
    times out, the rest of the attempt makes those lookups and nothing else
    on the page, logs "Confirm button not found for post N", adds one to
    [posts_skipped] and returns [False]: no check of the page decides
    otherwise. *)
Theorem unconfirmed_deletion_is_skipped (i : nat) (c : Cleaner World) :
  all_time_out confirm_selectors (world c) ->
  let r := confirm_deletion config i c in
  r.1 = Returned false /\
  stats r.2 = incr_posts_skipped (stats c) /\
  trace r.2 =
    trace c ++ lookups confirm_selectors ++
    [Logged WARNING (ConfirmButtonNotFound (i + 1));
     StatsSet (stats c) (incr_posts_skipped (stats c))].
Proof.
  intros Hall r. subst r. unfold confirm_deletion.
  rewrite bind_eq, (first_found_all_time_out _ _ Hall).
  rewrite bind_eq, log_eq, bind_eq, update_stats_eq.
  unfold after_update, after_effect. cbn [fst snd stats trace].
  split; [done|]. split; [done|]. by rewrite <- !app_assoc.
Qed.

(** ** Exceptions inside an attempt *)

(** An exception that leaves the [try] block of [attempt_post_deletion] is
    logged, adds one to [errors_encountered] and nothing else, and makes the
    attempt return [False]; the batch loop goes on with the next item. *)
Lemma raised_attempt_is_counted (post : WebElement) (i : nat)
    (rest : list (nat * WebElement)) (deleted_count : nat)
    (c c_raised : Cleaner World) (e : Exn) :
  attempt_body config post i c = (Raised e, c_raised) ->
  let c' :=
    after_update incr_errors_encountered
      (after_effect (Logged ERROR (ErrorDeletingPost (i + 1) e)) c_raised) in
  attempt_post_deletion config post i c = (Returned false, c') /\
  stats c' = incr_errors_encountered (stats c) /\
  batch_loop config ((i, post) :: rest) deleted_count c =
    batch_loop config rest deleted_count c'.
Proof.
  intros Hbody c'.
  assert (attempt_post_deletion config post i c = (Returned false, c')) as Hattempt.
  { unfold attempt_post_deletion, catch. by rewrite Hbody. }
  split; [done|]. split.
  - pose proof (attempt_body_commits post i c) as H. rewrite Hbody in H.
    destruct H as [Hs _]. subst c'. cbn [after_update after_effect stats].
    by rewrite Hs.
  - cbn [batch_loop]. by rewrite bind_eq, Hattempt.
Qed.

(** ** Failing preconditions *)

Lemma get_final_stats_eq (c : Cleaner World) :
  exists fs,
    get_final_stats c =
      (Returned fs,
       {| stats := stats c; world := (datetime_now (world c)).2; trace := trace c |}) /\
    final_counters fs = stats c /\
    session_end fs = (datetime_now (world c)).1.
Proof.
  unfold get_final_stats, bind, now, get_stats.
  destruct (datetime_now (world c)) as [t w]. cbn [fst snd stats].
  eexists. split; [reflexivity|]. done.
Qed.

(** C8. When [login] returns [False], or [login] succeeds and
    [navigate_to_activity_log] returns [False] (neither ever raises),
    [clean_profile_gradually] logs the failure and returns the final
    statistics normally: the counters are those the run started with, and
    nothing is done after the failure but that log record. *)
Theorem failed_precondition_stops_the_run (c c_failed : Cleaner World) (msg : LogMsg) :
  precondition_failure config c msg c_failed ->
  exists fs c',
    clean_profile_gradually config c = (Returned fs, c') /\
    final_counters fs = stats c /\
    stats c' = stats c /\
    trace c' = trace c_failed ++ [Logged ERROR msg].
Proof.
  intros Hfail.
  assert (stats c_failed = stats c) as Hstats.
  { destruct Hfail as [c2 Hlogin|c2 c3 Hlogin Hnav].
    - pose proof (login_quietly (after_effect (Logged INFO CleaningStarting) c)) as H.
      rewrite Hlogin in H. destruct H as [Hs _]. simpl in Hs. by rewrite <- Hs.
    - pose proof (login_quietly (after_effect (Logged INFO CleaningStarting) c)) as H.
      rewrite Hlogin in H. destruct H as [Hs _].
      pose proof (navigate_to_activity_log_quietly c2) as H'.
      rewrite Hnav in H'. destruct H' as [Hs' _]. simpl in Hs, Hs'.
      by rewrite <- Hs', <- Hs. }
  destruct (get_final_stats_eq (after_effect (Logged ERROR msg) c_failed))
    as (fs & Hfinal & Hcounters & _).
  exists fs. eexists. split; [|split; [|split]].
  - unfold clean_profile_gradually. rewrite bind_eq, log_eq.
    destruct Hfail as [c2 Hlogin|c2 c3 Hlogin Hnav].
    + rewrite bind_eq, Hlogin. cbn [negb]. by rewrite bind_eq, log_eq, Hfinal.
    + rewrite bind_eq, Hlogin. cbn [negb]. rewrite bind_eq, Hnav. cbn [negb].
      by rewrite bind_eq, log_eq, Hfinal.
  - by rewrite Hcounters.
  - exact Hstats.
  - done.
Qed.

Lemma login_total : total (login config).
Proof.
  unfold login. apply total_bind; [apply total_record|]. intros _.
  apply total_catch. intros e.
  apply total_bind; [apply total_record|]. intros _. apply total_ret.
Qed.

Lemma navigate_to_activity_log_total : total (navigate_to_activity_log config).
Proof.
  unfold navigate_to_activity_log. apply total_bind; [apply total_record|]. intros _.
  apply total_catch. intros e.
  apply total_bind; [apply total_record|]. intros _. apply total_ret.
Qed.

(** ** Sessions *)

Lemma session_history_in_batch evs : Forall in_batch evs -> session_history evs = [].
Proof.
  induction 1 as [|ev evs Hev _ IH]; [done|].
  change (session_history (ev :: evs))
    with (from_option (fun d => d :: session_history evs) (session_history evs)
            (session_deleted_of ev)).
  rewrite IH. destruct ev as [? a|d|level msg|line|before after]; try done.
  by destruct msg.
Qed.

Lemma closes_sessions_batching (c c' : Cleaner World) :
  extends same_session in_batch c c' -> closes_sessions [] c c'.
Proof.
  intros [[_ Hs] (evs & E & F)]. exists evs. split; [done|].
  split; [by apply session_history_in_batch|]. simpl. lia.
Qed.

Lemma closes_sessions_quiet (c c' : Cleaner World) :
  extends eq quiet c c' -> closes_sessions [] c c'.
Proof.
  intros H. apply closes_sessions_batching. revert H. apply extends_mono.
  - intros s s' <-. reflexivity.
  - by intros [].
Qed.

Lemma closes_sessions_trans h1 h2 (c1 c2 c3 : Cleaner World) :
  closes_sessions h1 c1 c2 -> closes_sessions h2 c2 c3 ->
  closes_sessions (h1 ++ h2) c1 c3.
Proof.
  intros (evs1 & E1 & H1 & S1) (evs2 & E2 & H2 & S2). exists (evs1 ++ evs2).
  split; [by rewrite E2, E1, app_assoc|]. split.
  - unfold session_history in *. by rewrite omap_app, H1, H2.
  - rewrite S2, S1, length_app. lia.
Qed.

Lemma closes_sessions_close n session_deleted (c : Cleaner World) :
  closes_sessions [session_deleted] c
    (after_update incr_sessions_completed
       (after_effect (Logged INFO (SessionCompleted n session_deleted)) c)).
Proof.
  exists [Logged INFO (SessionCompleted n session_deleted);
          StatsSet (stats c) (incr_sessions_completed (stats c))].
  split; [by cbn; rewrite <- app_assoc|]. done.
Qed.

Lemma zero_is_last_nil : zero_is_last [].
Proof. intros k. by rewrite lookup_nil. Qed.

Lemma zero_is_last_singleton d : zero_is_last [d].
Proof. intros [|k]; [done|]. by rewrite lookup_cons, lookup_nil. Qed.

Lemma zero_is_last_cons d h : d <> 0%nat -> zero_is_last h -> zero_is_last (d :: h).
Proof.
  intros Hd Hh [|k]; simpl.
  - intros [= ->]. done.
  - intros Hk. by rewrite (Hh k Hk).
Qed.

(** Runs the method at the head of the goal, keeping what is known of the
    state it leaves. *)
Ltac run_quiet H :=
  lazymatch goal with
  | |- context [bind ?m ?k ?c] =>
      rewrite (bind_eq m k c);
      assert (H : quietly m) by methods_auto;
      specialize (H c);
      destruct (m c) as [[?|?] ?]; cbn [snd] in H
  end.

Lemma session_loop_history sessions (c : Cleaner World) :
  exists h,
    closes_sessions h c (session_loop config sessions c).2 /\
    zero_is_last h /\ (length h <= length sessions)%nat.
Proof.
  revert c. induction sessions as [|session rest IH]; intros c.
  - exists []. split; [by apply closes_sessions_quiet|].
    split; [apply zero_is_last_nil|done].
  - cbn [session_loop]. rewrite bind_eq, log_eq, bind_eq, log_eq.
    set (c2 := after_effect _ (after_effect _ c)).
    assert (closes_sessions [] c c2) as H2.
    { apply closes_sessions_quiet. etrans; by apply extends_effect; [apply _|]. }
    run_quiet H3.
    2:{ exists []. split; [|split; [apply zero_is_last_nil|simpl; lia]].
        apply (closes_sessions_trans [] [] c c2); [done|].
        by apply closes_sessions_quiet. }
    apply closes_sessions_quiet in H3.
    pose proof (closes_sessions_trans [] [] _ _ _ H2 H3) as H23. clear H2 H3.
    rewrite bind_eq.
    pose proof (delete_posts_batch_batching (posts_per_session (cleaning config)) c0)
      as H4.
    destruct (delete_posts_batch config _ c0) as [[session_deleted|e] c4];
      cbn [snd] in H4; apply closes_sessions_batching in H4;
      pose proof (closes_sessions_trans _ _ _ _ _ H23 H4) as H24; clear H23 H4.
    2:{ exists []. split; [done|]. split; [apply zero_is_last_nil|simpl; lia]. }
    rewrite bind_eq, log_eq, bind_eq, update_stats_eq.
    pose proof (closes_sessions_close (session + 1) session_deleted c4) as H5.
    pose proof (closes_sessions_trans _ _ _ _ _ H24 H5) as H25. clear H24 H5.
    simpl app in H25.
    set (c5 := after_update _ _) in *.
    run_quiet H6;
      apply closes_sessions_quiet in H6;
      pose proof (closes_sessions_trans _ _ _ _ _ H25 H6) as H26; clear H25 H6;
      simpl app in H26.
    2:{ exists [session_deleted]. split; [done|].
        split; [apply zero_is_last_singleton|simpl; lia]. }
    destruct (Nat.eqb_spec session_deleted 0) as [->|Hpos].
    + exists [0%nat]. split; [|split; [apply zero_is_last_singleton|simpl; lia]].
      apply (closes_sessions_trans [0%nat] [] c c1) ; [done|].
      apply closes_sessions_quiet. rewrite log_eq. by apply extends_effect; [apply _|].
    + destruct (IH c1) as (h & Hh & Hlast & Hlen).
      exists (session_deleted :: h). split; [|split].
      * by apply (closes_sessions_trans [session_deleted] h c c1).
      * by apply zero_is_last_cons.
      * simpl. lia.
Qed.

Lemma length_range n : length (range n) = Z.to_nat n.
Proof. unfold range. apply length_seq. Qed.

Lemma clean_profile_gradually_history (c : Cleaner World) :
  exists h,
    closes_sessions h c (clean_profile_gradually config c).2 /\
    zero_is_last h /\
    (length h <= Z.to_nat (max_sessions (cleaning config)))%nat.
Proof.
  assert (forall c', extends eq quiet c c' ->
            exists h, closes_sessions h c c' /\ zero_is_last h /\
              (length h <= Z.to_nat (max_sessions (cleaning config)))%nat) as Hquiet.
  { intros c' H. exists []. split; [by apply closes_sessions_quiet|].
    split; [apply zero_is_last_nil|simpl; lia]. }
  unfold clean_profile_gradually. rewrite bind_eq, log_eq.
  set (c0 := after_effect _ c).
  assert (extends eq quiet c c0) as H0 by (by apply extends_effect; [apply _|]).
  rewrite bind_eq. pose proof (login_quietly c0) as H1.
  destruct (login config c0) as [[logged_in|e] c1]; cbn [snd] in H1;
    [|apply Hquiet; by etrans].
  assert (extends eq quiet c c1) as H01 by (by etrans). clear H0 H1.
  destruct logged_in; cbn [negb].
  2:{ apply Hquiet. etrans; [exact H01|].
      assert (quietly (bind (log (World:=World) ERROR LoginFailedStopping)
                (fun _ => get_final_stats))) as Hq by methods_auto.
      apply Hq. }
  rewrite bind_eq. pose proof (navigate_to_activity_log_quietly c1) as H2.
  destruct (navigate_to_activity_log config c1) as [[arrived|e] c2]; cbn [snd] in H2;
    [|apply Hquiet; by etrans].
  assert (extends eq quiet c c2) as H02 by (by etrans). clear H01 H2.
  destruct arrived; cbn [negb].
  2:{ apply Hquiet. etrans; [exact H02|].
      assert (quietly (bind (log (World:=World) ERROR NavigationFailedStopping)
                (fun _ => get_final_stats))) as Hq by methods_auto.
      apply Hq. }
  rewrite bind_eq.
  destruct (session_loop_history (range (max_sessions (cleaning config))) c2)
    as (h & Hh & Hlast & Hlen).
  rewrite length_range in Hlen.
  apply closes_sessions_quiet in H02.
  pose proof (closes_sessions_trans _ _ _ _ _ H02 Hh) as H03. simpl app in H03.
  destruct (session_loop config _ c2) as [[[]|e] c3]; cbn [snd] in H03;
    [|by exists h].
  exists h. split; [|done].
  rewrite <- (app_nil_r h). eapply closes_sessions_trans; [exact H03|].
  apply closes_sessions_quiet.
  assert (quietly (bind (log (World:=World) INFO CleaningCompleted)
            (fun _ => get_final_stats))) as Hq by methods_auto.
  apply Hq.
Qed.

Lemma clean_profile_gradually_counters (c : Cleaner World) fs :
  (clean_profile_gradually config c).1 = Returned fs ->
  final_counters fs = stats (clean_profile_gradually config c).2.
Proof.
  assert (forall c' fs', (get_final_stats c').1 = Returned fs' ->
            final_counters fs' = stats (get_final_stats c').2) as Hfinal.
  { intros c' fs'. destruct (get_final_stats_eq c') as (fs0 & -> & Hc & _).
    cbn [fst snd stats]. by intros [= <-]. }
  unfold clean_profile_gradually. rewrite bind_eq, log_eq, bind_eq.
  destruct (login config _) as [[[]|e] c1]; cbn [negb]; [| |done].
  - rewrite bind_eq.
    destruct (navigate_to_activity_log config c1) as [[[]|e] c2]; cbn [negb];
      [| |done].
    + rewrite bind_eq. destruct (session_loop config _ c2) as [[[]|e] c3]; [|done].
      rewrite bind_eq, log_eq. apply Hfinal.
    + rewrite bind_eq, log_eq. apply Hfinal.
  - rewrite bind_eq, log_eq. apply Hfinal.
Qed.

(** C4. In every run the sessions closed, read off the "Session N
    completed: D posts deleted" records, number at most [max_sessions], and
    a session with no deletions is the last of them; [sessions_completed]
    grows by their number.  So when the second session deletes nothing, no
    third one is run and [sessions_completed], also in the returned
    statistics, is two more than at the start. *)
Theorem zero_deletion_session_is_last (c : Cleaner World) :
  let r := clean_profile_gradually config c in
  exists evs,
    trace r.2 = trace c ++ evs /\
    zero_is_last (session_history evs) /\
    (length (session_history evs) <= Z.to_nat (max_sessions (cleaning config)))%nat /\
    sessions_completed (stats r.2)
      = (sessions_completed (stats c) + length (session_history evs))%nat /\
    (forall fs, r.1 = Returned fs -> final_counters fs = stats r.2) /\
    (session_history evs !! 1%nat = Some 0%nat ->
       length (session_history evs) = 2%nat /\
       sessions_completed (stats r.2) = (sessions_completed (stats c) + 2)%nat).
Proof.
  intros r. subst r.
  destruct (clean_profile_gradually_history c) as (h & (evs & E & <- & Hs) & Hlast & Hlen).
  exists evs. split; [done|]. split; [done|]. split; [done|]. split; [done|].
  split; [apply clean_profile_gradually_counters|].
  intros Hsecond. apply Hlast in Hsecond. by rewrite Hs, Hsecond.
Qed.

(** ** The derived rate *)

(** C10, as the code has it. [get_final_stats] always returns, whatever the
    clock says.  The rate it reports is [posts_deleted] divided by the
    duration in minutes when the duration is positive, and 0 when the
    duration is zero or negative: the division is then not evaluated. *)
Theorem posts_per_minute_is_guarded (c : Cleaner World) :
  exists fs c',
    get_final_stats c = (Returned fs, c') /\
    (duration_seconds fs == (datetime_now (world c)).1 - session_start (stats c))%Q /\
    ((0 < duration_seconds fs)%Q ->
       (posts_per_minute fs ==
          inject_Z (Z.of_nat (posts_deleted (stats c))) / (duration_seconds fs / 60))%Q) /\
    ((duration_seconds fs <= 0)%Q -> (posts_per_minute fs == 0)%Q).
Proof.
  unfold get_final_stats, bind, now, get_stats.
  destruct (datetime_now (world c)) as [end_time w]. cbn [fst snd stats] in *.
  eexists. eexists. split; [reflexivity|]. cbn [duration_seconds posts_per_minute].
  split; [reflexivity|]. unfold Qgtb.
  destruct (Qle_bool (end_time - session_start (stats c)) 0) eqn:Hle; cbn [negb].
  - apply Qle_bool_iff in Hle. split; [|reflexivity]. intros Hpos. lra.
  - split; [reflexivity|]. intros Hneg%Qle_bool_iff. by rewrite Hneg in Hle.
Qed.

(** * Further properties of the methods *)

(** ** What cannot fail *)

(** X1. Whatever Selenium does, [login] returns a boolean (it never
    raises), and it leaves the statistics as they were. *)
Theorem login_always_returns (c : Cleaner World) :
  exists logged_in c',
    login config c = (Returned logged_in, c') /\ stats c' = stats c.
Proof.
  destruct (login_total c) as [logged_in H]. pose proof (login_quietly c) as [Hs _].
  destruct (login config c) as [r c']. simpl in *. subst r.
  by exists logged_in, c'.
Qed.

(** X2. Whatever Selenium does, [navigate_to_activity_log] returns a boolean
    (it never raises), and it leaves the statistics as they were. *)
Theorem navigate_to_activity_log_always_returns (c : Cleaner World) :
  exists arrived c',
    navigate_to_activity_log config c = (Returned arrived, c') /\ stats c' = stats c.
Proof.
  destruct (navigate_to_activity_log_total c) as [arrived H].
  pose proof (navigate_to_activity_log_quietly c) as [Hs _].
  destruct (navigate_to_activity_log config c) as [r c']. simpl in *. subst r.
  by exists arrived, c'.
Qed.

(** X3. Whatever Selenium does, [extract_post_info] returns a string (it
    never raises), changes no statistics, and neither clicks nor types. *)
Theorem extract_post_info_always_returns (post : WebElement) (c : Cleaner World) :
  exists post_info c' evs,
    extract_post_info post c = (Returned post_info, c') /\
    stats c' = stats c /\
    trace c' = trace c ++ evs /\ Forall hands_off evs.
Proof.
  destruct (run_reading (extract_post_info post) c)
    as (post_info & c' & H & [Hs (evs & E & F)]).
  { apply extract_post_info_reading. }
  { apply extract_post_info_total. }
  exists post_info, c', evs. split; [done|]. split; [done|]. split; [done|].
  eapply Forall_impl; [exact F|]. by intros ev [_ ?].
Qed.

(** X4. A timeout of either wait of [wait_for_page_load] (the wait for
    jQuery, or after it the wait for the document) does not reach the
    caller: the method logs the warning with the timeout in force, the
    argument or else the configured [page_timeout], makes no further call
    and returns normally, the statistics untouched. *)
Theorem wait_for_page_load_swallows_timeouts (timeout : option Z)
    (c : Cleaner World) (msg : string) (w : World) :
  respond _ WaitJQueryIdle (world c) = (Raised (TimeoutException msg), w) \/
  (exists w1,
     respond _ WaitJQueryIdle (world c) = (Returned tt, w1) /\
     respond _ WaitDocumentComplete w1 = (Raised (TimeoutException msg), w)) ->
  exists evs,
    wait_for_page_load config timeout c =
      (Returned tt,
       {| stats := stats c; world := w;
          trace := trace c ++ evs ++
            [Logged WARNING
               (PageLoadTimeout (default (page_timeout (timing config)) timeout))] |}) /\
    (evs = [Called WaitJQueryIdle] \/
     evs = [Called WaitJQueryIdle; Called WaitDocumentComplete]).
Proof.
  intros Htimeout. unfold wait_for_page_load, except, catch.
  rewrite bind_eq, call_eq.
  destruct Htimeout as [->|(w1 & -> & Hdoc)]; cbn [fst snd is_TimeoutException].
  - exists [Called WaitJQueryIdle]. split; [|by left].
    rewrite log_eq. unfold after_effect, after_call. cbn [stats world trace].
    by rewrite <- app_assoc.
  - rewrite call_eq. cbn [after_call world]. rewrite Hdoc.
    cbn [fst snd is_TimeoutException].
    exists [Called WaitJQueryIdle; Called WaitDocumentComplete]. split; [|by right].
    rewrite log_eq. unfold after_effect, after_call. cbn [stats world trace].
    by rewrite <- !app_assoc.
Qed.

(** ** Simulation mode, for the whole run *)

#[export] Instance any_stats_preorder : PreOrder any_stats.
Proof. by split. Qed.

Hint Extern 0 (hands_off _) => reflexivity : methods.
Hint Extern 0 (no_script _) => reflexivity : methods.
Hint Extern 0 (any_stats _ _) => exact I : methods.

Lemma reading_hands_off {A} (m : M World A) :
  reading m -> respects (extends any_stats hands_off) m.
Proof.
  apply respects_mono. intros c c'. apply extends_mono; [done|]. by intros ev [_ ?].
Qed.

Hint Extern 1 (respects (extends any_stats hands_off) _) =>
  apply reading_hands_off; solve [eauto with methods] : methods.
Hint Resolve extract_post_info_reading : methods.

Section Whatif.
Hypothesis simulating : whatif (execution config) = true.

Lemma cookie_loop_hands_off selectors :
  respects (extends any_stats hands_off) (cookie_loop config selectors).
Proof.
  induction selectors as [|selector rest IH]; simpl; rewrite ?simulating; methods_auto.
Qed.

Lemma login_hands_off : respects (extends any_stats hands_off) (login config).
Proof.
  pose proof cookie_loop_hands_off.
  unfold login, handle_cookie_banner, wait_for_page_load. rewrite !simulating.
  methods_auto.
Qed.

Lemma navigate_to_activity_log_hands_off :
  respects (extends any_stats hands_off) (navigate_to_activity_log config).
Proof. unfold navigate_to_activity_log. rewrite simulating. methods_auto. Qed.

Lemma attempt_post_deletion_hands_off post i :
  respects (extends any_stats hands_off) (attempt_post_deletion config post i).
Proof.
  unfold attempt_post_deletion, attempt_body. rewrite simulating. methods_auto.
Qed.

Lemma batch_loop_hands_off items deleted_count :
  respects (extends any_stats hands_off) (batch_loop config items deleted_count).
Proof.
  pose proof attempt_post_deletion_hands_off.
  revert deleted_count.
  induction items as [|[i post] rest IH]; intros; simpl; methods_auto.
Qed.

Lemma unique_loop_hands_off all_posts unique_posts seen :
  respects (extends any_stats hands_off) (unique_loop all_posts unique_posts seen).
Proof.
  revert unique_posts seen.
  induction all_posts as [|post rest IH]; intros; simpl; unfold element_id;
    methods_auto.
Qed.

Lemma collect_posts_hands_off selectors :
  respects (extends any_stats hands_off) (collect_posts selectors).
Proof. induction selectors as [|selector rest IH]; simpl; methods_auto. Qed.

Lemma delete_posts_batch_hands_off max_posts :
  respects (extends any_stats hands_off) (delete_posts_batch config max_posts).
Proof.
  pose proof batch_loop_hands_off. pose proof unique_loop_hands_off.
  pose proof collect_posts_hands_off.
  unfold delete_posts_batch, find_posts_on_page. methods_auto.
Qed.

Lemma countdown_hands_off remaining :
  respects (extends any_stats hands_off) (countdown (World:=World) remaining).
Proof. induction remaining as [|remaining IH]; simpl; methods_auto. Qed.

Lemma session_loop_hands_off sessions :
  respects (extends any_stats hands_off) (session_loop config sessions).
Proof.
  pose proof delete_posts_batch_hands_off. pose proof countdown_hands_off.
  induction sessions as [|session rest IH]; simpl; unfold wait_for_page_load;
    methods_auto.
Qed.

(** X5. In simulation mode a whole run of [clean_profile_gradually], login,
    navigation and every session included, neither clicks nor types
    ([click], [send_keys], [clear] and the action chain are never called),
    whatever Selenium answers. *)
Theorem whatif_run_never_clicks (c : Cleaner World) :
  exists evs,
    trace (clean_profile_gradually config c).2 = trace c ++ evs /\
    Forall hands_off evs.
Proof.
  pose proof login_hands_off. pose proof navigate_to_activity_log_hands_off.
  pose proof session_loop_hands_off.
  assert (respects (extends any_stats hands_off) (clean_profile_gradually config)) as Hrun.
  { unfold clean_profile_gradually, get_final_stats. methods_auto. }
  by destruct (Hrun c) as [_ Hevs].
Qed.

End Whatif.

(** ** The batch loop *)

Lemma scrolled_app evs1 evs2 : scrolled (evs1 ++ evs2) = scrolled evs1 ++ scrolled evs2.
Proof. unfold scrolled. apply bind_app. Qed.

Lemma scrolled_no_script evs : Forall no_script evs -> scrolled evs = [].
Proof.
  induction 1 as [|ev evs Hev _ IH]; [done|].
  change (scrolled (ev :: evs)) with (script_targets ev ++ scrolled evs).
  rewrite IH, app_nil_r.
  destruct ev as [R a|d|level msg|line|before after]; try done. by destruct a.
Qed.

Lemma quiet_no_script_after_call {A R} (a : Action R) (k : R -> M World A)
    (h : Exn -> M World A) (c : Cleaner World) :
  (forall x, respects (extends any_stats no_script) (k x)) ->
  (forall e, respects (extends any_stats no_script) (h e)) ->
  exists evs,
    trace (catch (bind (call a) k) h c).2 = trace c ++ Called a :: evs /\
    Forall no_script evs.
Proof.
  intros Hk Hh. unfold catch. rewrite bind_eq, call_eq.
  destruct (respond R a (world c)) as [[x|e] w]; cbn [fst snd].
  - pose proof (Hk x (after_call a w c)) as [_ (evs & E & F)].
    destruct (k x (after_call a w c)) as [[y|e] c1]; cbn [snd] in *.
    + exists evs. split; [|done]. rewrite E. cbn. by rewrite <- app_assoc.
    + pose proof (Hh e c1) as [_ (evs' & E' & F')]. exists (evs ++ evs').
      split; [|by apply Forall_app]. rewrite E', E. cbn. by rewrite <- !app_assoc.
  - pose proof (Hh e (after_call a w c)) as [_ (evs & E & F)].
    exists evs. split; [|done]. rewrite E. cbn. by rewrite <- app_assoc.
Qed.

Lemma first_found_no_script (lookup : string -> M World WebElement) is_miss selectors :
  (forall selector, respects (extends any_stats no_script) (lookup selector)) ->
  respects (extends any_stats no_script) (first_found lookup is_miss selectors).
Proof. intros Hl. induction selectors as [|selector rest IH]; simpl; methods_auto. Qed.

Lemma timestamp_loop_no_script post selectors :
  respects (extends any_stats no_script) (timestamp_loop post selectors).
Proof. induction selectors as [|selector rest IH]; simpl; methods_auto. Qed.

(** An attempt calls [execute_script] once, first, on its item. *)
Lemma attempt_scrolls_once post i (c : Cleaner World) :
  exists evs,
    trace (attempt_post_deletion config post i c).2
      = trace c ++ Called (ExecuteScript scroll_script [post]) :: evs /\
    Forall no_script evs.
Proof.
  pose proof timestamp_loop_no_script.
  assert (forall sels, respects (extends any_stats no_script)
            (first_found (find_in (World:=World) post) is_NoSuchElementException sels)).
  { intros sels. apply first_found_no_script. intros s. unfold find_in. methods_auto. }
  assert (forall sels, respects (extends any_stats no_script)
            (first_found (wait_clickable (World:=World)) is_TimeoutException sels)).
  { intros sels. apply first_found_no_script. intros s. unfold wait_clickable.
    methods_auto. }
  unfold attempt_post_deletion, attempt_body.
  apply quiet_no_script_after_call.
  - intros []. unfold confirm_deletion, extract_post_info, human_like_delay.
    methods_auto.
  - intros e. methods_auto.
Qed.

Lemma random_uniform_eq a b (c : Cleaner World) :
  random_uniform a b c =
    (Returned (a + (b - a) * draw_value (random_random (world c)).1)%Q,
     {| stats := stats c; world := (random_random (world c)).2; trace := trace c |}).
Proof. unfold random_uniform. by destruct (random_random (world c)). Qed.

Lemma time_sleep_eq d (c : Cleaner World) :
  time_sleep d c =
    (if Qle_bool 0 d then Returned tt
     else Raised (ValueError "sleep length must be non-negative"),
     after_effect (Slept d) c).
Proof. done. Qed.

(** The items the batch loop scrolls to, and what it returns. *)
Lemma batch_loop_order (items : list (nat * WebElement))
    (deleted_count : nat) (c : Cleaner World) :
  let r := batch_loop config items deleted_count c in
  exists evs,
    trace r.2 = trace c ++ evs /\
    scrolled evs `prefix_of` items.*2 /\
    match r.1 with
    | Returned n =>
        scrolled evs = items.*2 /\
        (n + posts_deleted (stats c) = deleted_count + posts_deleted (stats r.2))%nat
    | Raised e => exists msg, e = ValueError msg
    end.
Proof.
  revert deleted_count c.
  induction items as [|[i post] rest IH]; intros deleted_count c; cbn zeta.
  - exists []. cbn. rewrite app_nil_r. done.
  - cbn [batch_loop]. rewrite bind_eq.
    destruct (attempt_scrolls_once post i c) as (evs0 & E0 & F0).
    destruct (attempt_post_deletion_spec post i c)
      as (deleted & f & c1 & Hattempt & [Hs1 _] & Hf).
    rewrite Hattempt in E0 |- *. cbn [snd] in E0.
    set (c2 := after_update f c1) in *.
    assert (scrolled (Called (ExecuteScript scroll_script [post]) :: evs0) = [post])
      as Hscrolled.
    { change (scrolled (?ev :: evs0)) with (script_targets ev ++ scrolled evs0).
      by rewrite (scrolled_no_script _ F0). }
    assert (posts_deleted (stats c2)
            = (posts_deleted (stats c) + if deleted then 1 else 0)%nat) as Hdeleted.
    { unfold c2. cbn [after_update stats]. rewrite <- Hs1.
      destruct Hf as [[-> ->]|[[-> ->]|[-> ->]]]; cbn; lia. }
    destruct deleted.
    + rewrite bind_eq, random_uniform_eq, bind_eq, time_sleep_eq.
      set (delay := (_ + _ * _)%Q).
      set (c3 := after_effect (Slept delay) _).
      destruct (Qle_bool 0 delay).
      * destruct (IH (deleted_count + 1)%nat c3) as (evs & E & Hprefix & Hresult).
        exists (Called (ExecuteScript scroll_script [post]) :: evs0 ++ Slept delay :: evs).
        split; [|split].
        -- rewrite E. unfold c3. cbn [after_effect trace]. rewrite E0.
           by rewrite <- !app_assoc.
        -- rewrite app_comm_cons, scrolled_app, Hscrolled.
           change (scrolled (Slept delay :: evs)) with (scrolled evs).
           cbn. by apply prefix_cons.
        -- destruct (batch_loop config rest (deleted_count + 1) c3).1 as [n|e];
             [|done].
           destruct Hresult as [Hall Hcount].
           split.
           ++ rewrite app_comm_cons, scrolled_app, Hscrolled.
              change (scrolled (Slept delay :: evs)) with (scrolled evs).
              cbn. by rewrite Hall.
           ++ change (stats c3) with (stats c2) in Hcount.
              rewrite Hdeleted in Hcount. lia.
      * exists (Called (ExecuteScript scroll_script [post]) :: evs0 ++ [Slept delay]).
        split; [|split].
        -- unfold c3. cbn [snd after_effect trace]. rewrite E0.
           by rewrite <- !app_assoc.
        -- rewrite app_comm_cons, scrolled_app, Hscrolled. cbn.
           apply prefix_cons, prefix_nil.
        -- cbn [fst]. by eexists.
    + destruct (IH deleted_count c2) as (evs & E & Hprefix & Hresult).
      exists (Called (ExecuteScript scroll_script [post]) :: evs0 ++ evs).
      split; [|split].
      * rewrite E, E0. by rewrite <- !app_assoc.
      * rewrite app_comm_cons, scrolled_app, Hscrolled. cbn. by apply prefix_cons.
      * destruct (batch_loop config rest deleted_count c2).1 as [n|e]; [|done].
        destruct Hresult as [Hall Hcount]. split.
        -- rewrite app_comm_cons, scrolled_app, Hscrolled. cbn. by rewrite Hall.
        -- rewrite Hdeleted in Hcount. lia.
Qed.

(** X6. The batch loop attempts the items in the order given, each at most
    once, and stops early only when the pause after a deletion is refused by
    [time.sleep] ([ValueError]). When it returns, every item was attempted
    exactly once, and the count returned is the start count plus the number
    of increments of [posts_deleted]. *)
Theorem batch_loop_attempts_in_order (items : list (nat * WebElement))
    (deleted_count : nat) (c : Cleaner World) :
  let r := batch_loop config items deleted_count c in
  exists evs,
    trace r.2 = trace c ++ evs /\
    scrolled evs `prefix_of` items.*2 /\
    match r.1 with
    | Returned n =>
        scrolled evs = items.*2 /\
        (n + posts_deleted (stats c) = deleted_count + posts_deleted (stats r.2))%nat
    | Raised e => exists msg, e = ValueError msg
    end.
Proof. exact (batch_loop_order items deleted_count c). Qed.

Lemma length_slice_to_nonneg {A} (n : Z) (l : list A) :
  0 <= n -> length (slice_to n l) = (Z.to_nat n `min` length l)%nat.
Proof.
  intros Hn. unfold slice_to. rewrite (proj2 (Z.leb_le 0 n) Hn). apply length_take.
Qed.

Lemma enumerate_from_snd {A} (i : nat) (l : list A) : (enumerate_from i l).*2 = l.
Proof. revert i. induction l as [|x l IH]; intros i; simpl; [done|]. by rewrite IH. Qed.

Lemma find_posts_on_page_no_script :
  respects (extends any_stats no_script) find_posts_on_page.
Proof.
  assert (forall sels, respects (extends any_stats no_script)
            (collect_posts (Env:=Env) sels)) as Hcollect.
  { intros sels. induction sels as [|selector rest IH]; simpl; methods_auto. }
  assert (forall all_posts unique_posts seen,
            respects (extends any_stats no_script)
              (unique_loop (Env:=Env) all_posts unique_posts seen)) as Hunique.
  { intros all_posts. induction all_posts as [|post rest IH]; intros; simpl;
      unfold element_id; methods_auto. }
  unfold find_posts_on_page. methods_auto.
Qed.

(** X7. With a cap [max_posts >= 0], [delete_posts_batch] attempts at most
    [max_posts] items, and when it returns [n]:  exactly
    [min(max_posts, number of posts it has just counted as found)] items
    were attempted, [n <= max_posts], and [posts_deleted] has grown by [n]. *)
Theorem delete_posts_batch_respects_cap (max_posts : Z) (c : Cleaner World) :
  0 <= max_posts ->
  let r := delete_posts_batch config max_posts c in
  exists evs,
    trace r.2 = trace c ++ evs /\
    (length (scrolled evs) <= Z.to_nat max_posts)%nat /\
    forall n, r.1 = Returned n ->
      length (scrolled evs)
        = (Z.to_nat max_posts `min`
           (posts_found (stats r.2) - posts_found (stats c)))%nat /\
      (n <= Z.to_nat max_posts)%nat /\
      posts_deleted (stats r.2) = (posts_deleted (stats c) + n)%nat.
Proof.
  intros Hcap r. subst r. unfold delete_posts_batch. rewrite bind_eq, log_eq.
  set (start := Logged INFO (BatchStarting max_posts)).
  set (c0 := after_effect start c).
  assert (trace c0 = trace c ++ [start] /\ stats c0 = stats c) as [E0 Hs0] by done.
  clearbody c0. rewrite bind_eq.
  pose proof (find_posts_on_page_commits c0) as Hfind.
  pose proof (find_posts_on_page_no_script c0) as [_ (evs1 & E1 & F1)].
  destruct (find_posts_on_page c0) as [[posts|e] c2]; cbn [snd] in *.
  2:{ exists (start :: evs1). split; [|split].
      - by rewrite E1, E0, <- app_assoc.
      - change (scrolled (start :: evs1)) with (scrolled evs1).
        rewrite (scrolled_no_script _ F1). cbn. lia.
      - intros n [=]. }
  assert (posts_found (stats c2) = (posts_found (stats c) + length posts)%nat
          /\ posts_deleted (stats c2) = posts_deleted (stats c)) as (Hfound & Hdel).
  { destruct Hfind as (c1 & [Hs1 _] & ->). cbn [after_update stats].
    by rewrite <- Hs1, Hs0. }
  clear Hfind.
  destruct posts as [|post posts'].
  - rewrite bind_eq, log_eq. unfold ret. cbn [fst snd after_effect stats trace].
    exists (start :: evs1 ++ [Logged WARNING NoPostsFound]).
    assert (scrolled (start :: evs1 ++ [Logged WARNING NoPostsFound]) = []) as ->.
    { change (scrolled (start :: ?l)) with (scrolled l).
      by rewrite scrolled_app, (scrolled_no_script _ F1). }
    split; [by rewrite E1, E0, <- !app_assoc|]. split; [cbn; lia|].
    intros n [= <-]. rewrite Hfound, Hdel. cbn. lia.
  - set (posts := post :: posts') in *.
    set (items := enumerate (slice_to max_posts posts)).
    assert (length items = (Z.to_nat max_posts `min` length posts)%nat) as Hlen.
    { unfold items, enumerate. rewrite length_enumerate_from.
      by apply length_slice_to_nonneg. }
    assert (length items.*2 = length items) as Hlen2 by apply length_fmap.
    clearbody items. rewrite bind_eq, log_eq.
    set (processing := Logged INFO (ProcessingPosts _)).
    set (c3 := after_effect processing c2).
    assert (trace c3 = trace c2 ++ [processing] /\ stats c3 = stats c2)
      as [E3 Hs3] by done.
    clearbody c3. rewrite bind_eq.
    destruct (batch_loop_order items 0 c3) as (evs2 & E2 & Hprefix & Hres).
    pose proof (batch_loop_within_budget items 0 c3) as [(Hf4 & Ha4 & Hd4) _].
    pose proof (prefix_length _ _ Hprefix) as Hshort.
    assert (forall tail, scrolled (start :: evs1 ++ processing :: evs2 ++ tail)
                         = scrolled evs2 ++ scrolled tail) as Hscrolled.
    { intros tail. change (scrolled (start :: ?l)) with (scrolled l).
      rewrite scrolled_app, (scrolled_no_script _ F1).
      change (scrolled (processing :: ?l)) with (scrolled l).
      by rewrite scrolled_app. }
    destruct (batch_loop config items 0 c3) as [[n|e] c4]; cbn [fst snd] in *.
    + destruct Hres as [Hall Hcount]. rewrite bind_eq, log_eq. unfold ret.
      cbn [fst snd after_effect stats trace].
      exists (start :: evs1 ++ processing :: evs2 ++ [Logged INFO (BatchCompleted n)]).
      rewrite Hscrolled. cbn [scrolled mbind list_bind]. rewrite app_nil_r.
      split; [|split].
      * rewrite E2, E3, E1, E0. by rewrite <- !app_assoc.
      * lia.
      * intros n' [= <-]. rewrite Hs3 in *.
        unfold no_decrement, attempted in *. rewrite Hall. lia.
    + exists (start :: evs1 ++ processing :: evs2 ++ []).
      rewrite Hscrolled. cbn [scrolled mbind list_bind]. rewrite !app_nil_r.
      split; [|split].
      * rewrite E2, E3, E1, E0. by rewrite <- !app_assoc.
      * lia.
      * intros n [=].
Qed.

Lemma batch_loop_total items deleted_count :
  (0 <= min_delete_delay (timing config))%Q ->
  (0 <= max_delete_delay (timing config))%Q ->
  total (batch_loop config items deleted_count).
Proof.
  intros Hmin Hmax. revert deleted_count.
  induction items as [|[i post] rest IH]; intros deleted_count c.
  - by exists deleted_count.
  - cbn [batch_loop]. rewrite bind_eq.
    destruct (attempt_post_deletion_spec post i c) as (deleted & f & c1 & -> & _).
    destruct deleted; [|apply IH].
    rewrite bind_eq, random_uniform_eq, bind_eq, time_sleep_eq.
    match goal with |- context [Qle_bool 0 ?d] =>
      assert (Qle_bool 0 d = true) as ->
    end.
    { apply Qle_bool_iff. by apply uniform_nonnegative. }
    apply IH.
Qed.

(** X8. With non-negative delete delays (in either order) the batch loop
    always returns: no exception of Selenium leaves it, and every item is
    attempted exactly once, in order. *)
Theorem batch_loop_completes (items : list (nat * WebElement)) (deleted_count : nat)
    (c : Cleaner World) :
  (0 <= min_delete_delay (timing config))%Q ->
  (0 <= max_delete_delay (timing config))%Q ->
  exists n c' evs,
    batch_loop config items deleted_count c = (Returned n, c') /\
    trace c' = trace c ++ evs /\
    scrolled evs = items.*2 /\
    (deleted_count <= n <= deleted_count + length items)%nat.
Proof.
  intros Hmin Hmax.
  destruct (batch_loop_total items deleted_count Hmin Hmax c) as [n Hn].
  destruct (batch_loop_order items deleted_count c)
    as (evs & E & _ & Hres).
  pose proof (batch_loop_within_budget items deleted_count c) as [(_ & Ha & Hd) _].
  destruct (batch_loop config items deleted_count c) as [r c']; cbn [fst snd] in *.
  subst r. destruct Hres as [Hall Hcount].
  exists n, c', evs. split; [done|]. split; [done|]. split; [done|].
  unfold no_decrement, attempted in *. lia.
Qed.

(** X9. When both delete delays are negative, the pause after a successful
    attempt is refused by [time.sleep]: the batch loop raises [ValueError]
    right after the first deletion and attempts none of the remaining
    items. *)
Theorem negative_delete_delay_aborts_batch (post : WebElement) (i : nat)
    (rest : list (nat * WebElement)) (deleted_count : nat) (c c' : Cleaner World) :
  (min_delete_delay (timing config) < 0)%Q ->
  (max_delete_delay (timing config) < 0)%Q ->
  attempt_post_deletion config post i c = (Returned true, c') ->
  exists msg delay,
    (delay < 0)%Q /\
    (batch_loop config ((i, post) :: rest) deleted_count c).1 = Raised (ValueError msg) /\
    trace (batch_loop config ((i, post) :: rest) deleted_count c).2
      = trace c' ++ [Slept delay].
Proof.
  intros Hmin Hmax Hattempt. cbn [batch_loop].
  rewrite bind_eq, Hattempt, bind_eq, random_uniform_eq, bind_eq, time_sleep_eq.
  set (r := (random_random (world c')).1).
  set (delay := (_ + _ * draw_value r)%Q).
  assert (delay < 0)%Q as Hneg.
  { unfold delay. destruct (draw_value_range r) as [H0 H1].
    set (a := min_delete_delay (timing config)) in *.
    set (b := max_delete_delay (timing config)) in *.
    assert (0 <= (- a) * (1 - draw_value r))%Q by (apply Qmult_le_0_compat; lra).
    assert (0 <= (- b) * draw_value r)%Q by (apply Qmult_le_0_compat; lra).
    destruct (Qlt_le_dec (draw_value r) (1 # 2)) as [Hlow|Hhigh].
    - assert (0 < (- a) * (1 - draw_value r))%Q by (apply Qmult_lt_0_compat; lra).
      lra.
    - assert (0 < (- b) * draw_value r)%Q by (apply Qmult_lt_0_compat; lra).
      lra. }
  assert (Qle_bool 0 delay = false) as ->.
  { destruct (Qle_bool 0 delay) eqn:Hle; [|done].
    apply Qle_bool_iff in Hle. lra. }
  cbn [fst snd after_effect trace]. by exists "sleep length must be non-negative", delay.
Qed.

(** ** Pacing and typing *)

Lemma print_eq line (c : Cleaner World) :
  print line c = (Returned tt, after_effect (Printed line) c).
Proof. done. Qed.

(** X10. The countdown between sessions always returns; it prints one line
    and sleeps one second for each of the [remaining] seconds, so that it
    sleeps [remaining] seconds in all, and it does nothing else. *)
Theorem countdown_sleeps_every_second (remaining : nat) (c : Cleaner World) :
  exists evs,
    countdown remaining c
      = (Returned tt,
         {| stats := stats c; world := world c; trace := trace c ++ evs |}) /\
    length evs = (2 * remaining)%nat /\
    (slept evs == inject_Z (Z.of_nat remaining))%Q /\
    Forall (fun ev => match ev with
                      | Slept d => d = 1%Q
                      | Printed _ => True
                      | _ => False
                      end) evs.
Proof.
  revert c. induction remaining as [|remaining IH]; intros c.
  - exists []. cbn. rewrite app_nil_r. by destruct c.
  - cbn [countdown]. rewrite bind_eq.
    set (line := (_ +:+ _)).
    rewrite (print_eq line), bind_eq, time_sleep_eq.
    change (Qle_bool 0 1) with true. cbv iota.
    destruct (IH (after_effect (Slept 1) (after_effect (Printed line) c)))
      as (evs & -> & Hlen & Hslept & Hall).
    exists (Printed line :: Slept 1 :: evs). split; [|split; [|split]].
    + cbn. by rewrite <- !app_assoc.
    + cbn. lia.
    + change (slept (Printed line :: Slept 1 :: evs)) with (1 + slept evs)%Q.
      rewrite Hslept, Nat2Z.inj_succ, <- Z.add_1_l, inject_Z_plus. reflexivity.
    + by repeat constructor.
Qed.

(** X11. The pause [time.sleep(random.uniform(a, b))] asks for a duration
    that lies between [a] and [b], whichever of the two is the larger: an
    inverted pair of delete delays still gives a pause within the pair. *)
Theorem pause_lies_between_bounds (a b : Q) (c : Cleaner World) :
  let r := bind (random_uniform a b) time_sleep c in
  exists d,
    trace r.2 = trace c ++ [Slept d] /\
    stats r.2 = stats c /\
    ((a <= d <= b)%Q \/ (b <= d <= a)%Q).
Proof.
  cbn zeta. rewrite bind_eq, random_uniform_eq, time_sleep_eq.
  set (r := (random_random (world c)).1).
  exists (a + (b - a) * draw_value r)%Q. split; [done|]. split; [done|].
  destruct (Qlt_le_dec b a) as [Hlt|Hle].
  - right. destruct (draw_value_range r) as [H0 H1].
    assert (0 <= (a - b) * draw_value r)%Q by (apply Qmult_le_0_compat; lra).
    assert (0 <= (a - b) * (1 - draw_value r))%Q by (apply Qmult_le_0_compat; lra).
    lra.
  - left. by apply uniform_bounds.
Qed.

(** X12. [type_keys] sends the text one character per [send_keys] call, in
    order; if a call raises the text sent so far is a prefix of the text,
    and when the loop returns the whole text has been sent. *)
Theorem type_keys_in_order (field : WebElement) (text : string) (c : Cleaner World) :
  let r := type_keys field text c in
  exists evs rest,
    trace r.2 = trace c ++ evs /\
    text = typed evs +:+ rest /\
    length (clicks evs) = String.length (typed evs) /\
    (forall u, r.1 = Returned u -> rest = "").
Proof.
  cbn zeta. revert c. induction text as [|char text IH]; intros c.
  - exists [], "". cbn. by rewrite app_nil_r.
  - cbn [type_keys]. rewrite bind_eq, call_eq.
    destruct (respond _ (SendKeys field (String char "")) (world c)) as [[[]|e] w];
      cbn [fst snd].
    + rewrite bind_eq, random_uniform_eq, bind_eq, time_sleep_eq.
      match goal with |- context [Qle_bool 0 ?d] =>
        set (pause := d); assert (Qle_bool 0 pause = true) as ->
      end.
      { apply Qle_bool_iff. by apply uniform_nonnegative. }
      match goal with |- context [type_keys field text ?c1] =>
        destruct (IH c1) as (evs & rest & E & Htext & Hlen & Hdone)
      end.
      exists (Called (SendKeys field (String char "")) :: Slept pause :: evs), rest.
      split; [|split; [|split]].
      * rewrite E. cbn. by rewrite <- !app_assoc.
      * rewrite Htext at 1. reflexivity.
      * change (S (length (clicks evs)) = S (String.length (typed evs))).
        by rewrite Hlen.
      * exact Hdone.
    + exists [Called (SendKeys field (String char ""))], text. by cbn.
Qed.

(** ** Scanning *)

(** What [find_posts_on_page] does to the statistics. *)
Lemma find_posts_on_page_stats (c : Cleaner World) :
  match find_posts_on_page c with
  | (Returned unique_posts, c') =>
      stats c' = add_posts_found (length unique_posts) (stats c)
  | (Raised _, c') => stats c' = stats c
  end.
Proof.
  pose proof (find_posts_on_page_commits c) as H.
  destruct (find_posts_on_page c) as [[unique_posts|e] c']; cbn in H.
  - destruct H as (c1 & [Hs _] & ->). cbn. by rewrite <- Hs.
  - by destruct H as [<- _].
Qed.

(** X13. When [find_posts_on_page] returns, [posts_found] has grown by
    exactly the number of posts returned and no other counter has changed;
    when it raises, the statistics are as before. *)
Theorem find_posts_on_page_counts (c : Cleaner World) :
  match find_posts_on_page c with
  | (Returned unique_posts, c') =>
      stats c' = add_posts_found (length unique_posts) (stats c)
  | (Raised _, c') => stats c' = stats c
  end.
Proof. exact (find_posts_on_page_stats c). Qed.

(** ** An item without an options menu *)

Lemma first_found_never_found post selectors (c : Cleaner World) :
  (forall selector w, selector ∈ selectors ->
     exists msg,
       (respond _ (FindElement (Some post) ByCssSelector selector) w).1
         = Raised (NoSuchElementException msg)) ->
  exists c',
    first_found (find_in post) is_NoSuchElementException selectors c
      = (Returned None, c') /\
    extends eq read_only c c'.
Proof.
  revert c. induction selectors as [|selector rest IH]; intros c Hnone.
  - exists c. split; [done|]. reflexivity.
  - cbn [first_found]. rewrite bind_eq. unfold except, catch. rewrite bind_eq.
    unfold find_in at 1. rewrite call_eq.
    destruct (Hnone selector (world c)) as [msg ->]; [by left|].
    cbn [fst snd is_NoSuchElementException]. unfold ret at 1.
    match goal with |- context [first_found _ _ rest ?c1] =>
      destruct (IH c1) as (c' & -> & H1)
    end.
    { intros s w Hs. apply Hnone. by right. }
    exists c'. split; [done|]. etrans; [|exact H1].
    split; [done|]. eexists [_]. split; [done|]. by repeat constructor.
Qed.

(** X14. In real mode, when the item can be scrolled to and none of the
    menu selectors ever matches inside it, the attempt logs "Menu not found",
    adds one to [posts_skipped] and to nothing else, returns [False], and
    has neither clicked nor typed. *)
Theorem attempt_without_menu_is_skipped (post : WebElement) (i : nat)
    (c : Cleaner World) (u : unit) :
  whatif (execution config) = false ->
  never_found post menu_selectors ->
  (respond _ (ExecuteScript scroll_script [post]) (world c)).1 = Returned u ->
  exists c' evs,
    attempt_post_deletion config post i c = (Returned false, c') /\
    stats c' = incr_posts_skipped (stats c) /\
    trace c' = trace c ++ evs /\
    Forall hands_off evs /\
    Logged WARNING (MenuNotFound (i + 1)) ∈ evs.
Proof.
  intros Hreal Hnone Hscroll. unfold attempt_post_deletion, attempt_body, catch.
  rewrite bind_eq, call_eq, Hscroll. cbn [fst snd].
  set (c1 := after_call _ _ c). rewrite bind_eq.
  destruct (run_reading (human_like_delay config (Some 1%Q) (Some 2%Q)) c1)
    as ([] & c2 & -> & H2).
  { apply human_like_delay_reading. }
  { by apply human_like_delay_total. }
  rewrite bind_eq.
  destruct (run_reading (extract_post_info post) c2) as (post_info & c3 & -> & H3).
  { apply extract_post_info_reading. }
  { apply extract_post_info_total. }
  rewrite bind_eq, log_eq, Hreal, bind_eq.
  set (c4 := after_effect _ c3).
  destruct (first_found_never_found post menu_selectors c4) as (c5 & -> & H5).
  { intros selector w Hin. by apply Hnone. }
  rewrite bind_eq, log_eq, bind_eq, update_stats_eq. unfold ret.
  assert (extends eq read_only c1 c5) as [Hs (evs & E & F)].
  { etrans; [exact H2|]. etrans; [exact H3|]. etrans; [|exact H5].
    apply extends_effect; [apply _|]. by split. }
  eexists. exists (Called (ExecuteScript scroll_script [post]) :: evs
                   ++ [Logged WARNING (MenuNotFound (i + 1));
                       StatsSet (stats c5) (incr_posts_skipped (stats c5))]).
  split; [reflexivity|]. cbn [after_update after_effect stats trace].
  split; [by rewrite <- Hs|]. split; [|split].
  - rewrite E. cbn. by rewrite <- !app_assoc.
  - constructor; [done|]. apply Forall_app. split.
    + eapply Forall_impl; [exact F|]. by intros ev [_ ?].
    + by repeat constructor.
  - apply elem_of_cons. right. apply elem_of_app. right. by left.
Qed.

(** ** The clicks of an attempt *)

Lemma clicks_app evs1 evs2 : clicks (evs1 ++ evs2) = clicks evs1 ++ clicks evs2.
Proof. unfold clicks. apply List.filter_app. Qed.

Lemma clicks_hands_off evs : Forall hands_off evs -> clicks evs = [].
Proof.
  induction 1 as [|ev evs Hev _ IH]; [done|]. unfold clicks in *. cbn.
  by rewrite Hev.
Qed.

(** ** The caps, for the whole run *)

Lemma quietly_spends {A} (m : M World A) (c : Cleaner World) :
  quietly m -> spends 0 (stats c) (stats (m c).2).
Proof. intros Hm. destruct (Hm c) as [<- _]. unfold spends. lia. Qed.

Lemma delete_posts_batch_spends max_posts (c : Cleaner World) :
  0 <= max_posts ->
  spends (Z.to_nat max_posts) (stats c) (stats (delete_posts_batch config max_posts c).2).
Proof.
  intros Hcap. unfold delete_posts_batch, spends. rewrite bind_eq, log_eq.
  set (c0 := after_effect _ c).
  change (attempted (stats c)) with (attempted (stats c0)). clearbody c0.
  rewrite bind_eq. pose proof (find_posts_on_page_stats c0) as Hfind.
  destruct (find_posts_on_page c0) as [[posts|e] c2]; cbn [snd];
    [|rewrite Hfind; lia].
  assert (attempted (stats c2) = attempted (stats c0)) as <- by (by rewrite Hfind).
  clear Hfind. destruct posts as [|post posts'].
  - rewrite bind_eq, log_eq. unfold ret. cbn. lia.
  - rewrite bind_eq, log_eq. set (c3 := after_effect _ c2).
    change (attempted (stats c2)) with (attempted (stats c3)). clearbody c3.
    rewrite bind_eq.
    match goal with |- context [batch_loop config ?items 0 c3] =>
      pose proof (batch_loop_within_budget items 0 c3) as [(_ & Ha & _) _];
      assert (length items <= Z.to_nat max_posts)%nat as Hlen;
      [unfold enumerate; rewrite length_enumerate_from, length_slice_to_nonneg by done;
       lia|];
      destruct (batch_loop config items 0 c3) as [[n|e] c4]
    end; cbn [snd] in *.
    + rewrite bind_eq, log_eq. unfold ret. cbn [snd after_effect stats]. lia.
    + lia.
Qed.

Lemma session_loop_spends sessions (c : Cleaner World) :
  0 <= posts_per_session (cleaning config) ->
  spends (length sessions * Z.to_nat (posts_per_session (cleaning config)))
    (stats c) (stats (session_loop config sessions c).2).
Proof.
  intros Hcap. revert c. induction sessions as [|session rest IH]; intros c.
  - unfold spends. cbn. nia.
  - cbn [session_loop length]. rewrite bind_eq, log_eq, bind_eq, log_eq.
    set (c2 := after_effect _ (after_effect _ c)).
    change (stats c) with (stats c2). clearbody c2. unfold spends in *.
    run_quiet H3; destruct H3 as [H3 _]; apply (f_equal attempted) in H3;
      [|cbn [snd]; nia].
    rewrite bind_eq.
    pose proof (delete_posts_batch_spends (posts_per_session (cleaning config)) c0 Hcap)
      as H4. unfold spends in H4.
    destruct (delete_posts_batch config _ c0) as [[session_deleted|e] c4];
      cbn [snd] in H4; [|cbn [snd]; nia].
    rewrite bind_eq, log_eq, bind_eq, update_stats_eq.
    set (c5 := after_update _ _).
    assert (attempted (stats c5) = attempted (stats c4)) as H5 by done.
    clearbody c5.
    run_quiet H6; destruct H6 as [H6 _]; apply (f_equal attempted) in H6;
      [|cbn [snd]; nia].
    destruct (session_deleted =? 0)%nat.
    + rewrite log_eq. cbn [snd after_effect stats]. nia.
    + specialize (IH c1). nia.
Qed.

Lemma batching_no_decrement {A} (m : M World A) :
  batching m -> respects (extends no_decrement (fun _ => True)) m.
Proof.
  apply respects_mono. intros c c'. apply extends_mono; [by intros s s' []|done].
Qed.

Hint Extern 3 (respects (extends no_decrement _) _) =>
  apply batching_no_decrement; solve [eauto using delete_posts_batch_batching with methods]
  : methods.
Hint Extern 0 (no_decrement _ _) => unfold no_decrement; simpl; lia : methods.

Lemma session_loop_no_decrement sessions :
  respects (extends no_decrement (fun _ => True)) (session_loop config sessions).
Proof. induction sessions as [|session rest IH]; simpl; methods_auto. Qed.

Lemma clean_profile_gradually_no_decrement :
  respects (extends no_decrement (fun _ => True)) (clean_profile_gradually config).
Proof.
  pose proof session_loop_no_decrement.
  unfold clean_profile_gradually. methods_auto.
Qed.

(** X16. With [posts_per_session >= 0], a run accounts for at most
    [max_sessions * posts_per_session] items: that bounds the attempts, and
    so the growth of [posts_deleted], whatever the page shows. *)
Theorem run_respects_caps (c : Cleaner World) :
  0 <= posts_per_session (cleaning config) ->
  let c' := (clean_profile_gradually config c).2 in
  (attempted (stats c')
     <= attempted (stats c)
        + Z.to_nat (max_sessions (cleaning config))
          * Z.to_nat (posts_per_session (cleaning config)))%nat /\
  (posts_deleted (stats c')
     <= posts_deleted (stats c)
        + Z.to_nat (max_sessions (cleaning config))
          * Z.to_nat (posts_per_session (cleaning config)))%nat.
Proof.
  intros Hcap c'.
  pose proof (clean_profile_gradually_no_decrement c) as [Hmono _]. fold c' in Hmono.
  cut (spends (Z.to_nat (max_sessions (cleaning config))
               * Z.to_nat (posts_per_session (cleaning config)))
         (stats c) (stats c')).
  { unfold spends, attempted, no_decrement in *. lia. }
  clear Hmono. subst c'. unfold clean_profile_gradually, spends.
  rewrite bind_eq, log_eq. set (c0 := after_effect _ c).
  change (stats c) with (stats c0). clearbody c0.
  rewrite bind_eq. pose proof (login_quietly c0) as [H1 _].
  apply (f_equal attempted) in H1.
  destruct (login config c0) as [[[]|e] c1]; cbn [snd negb] in *; [| |lia].
  2:{ pose proof (quietly_spends
                    (bind (log ERROR LoginFailedStopping) (fun _ => get_final_stats)) c1)
        as H.
      unfold spends in H. rewrite H1. etrans; [apply H; methods_auto|lia]. }
  rewrite bind_eq. pose proof (navigate_to_activity_log_quietly c1) as [H2 _].
  apply (f_equal attempted) in H2.
  destruct (navigate_to_activity_log config c1) as [[[]|e] c2]; cbn [snd negb] in *;
    [| |lia].
  2:{ pose proof (quietly_spends
                    (bind (log ERROR NavigationFailedStopping)
                       (fun _ => get_final_stats)) c2) as H.
      unfold spends in H. rewrite H1, H2. etrans; [apply H; methods_auto|lia]. }
  rewrite bind_eq.
  pose proof (session_loop_spends (range (max_sessions (cleaning config))) c2 Hcap) as H3.
  rewrite length_range in H3. unfold spends in H3.
  destruct (session_loop config _ c2) as [[[]|e] c3]; cbn [snd] in *; [|lia].
  pose proof (quietly_spends
                (bind (log INFO CleaningCompleted) (fun _ => get_final_stats)) c3) as H.
  unfold spends in H. etrans; [apply H; methods_auto|lia].
Qed.

(** ** Trying selectors in order *)

(** ** What [login] types *)

Lemma string_app_nil_r (s : string) : s +:+ "" = s.
Proof.
  induction s as [|a s IH]; [done|].
  change (String a (s +:+ "") = String a s). by rewrite IH.
Qed.

Lemma string_app_assoc (s1 s2 s3 : string) : (s1 +:+ s2) +:+ s3 = s1 +:+ (s2 +:+ s3).
Proof.
  induction s1 as [|a s1 IH]; [done|].
  change (String a ((s1 +:+ s2) +:+ s3) = String a (s1 +:+ (s2 +:+ s3))).
  by rewrite IH.
Qed.

Lemma typed_app evs1 evs2 : typed (evs1 ++ evs2) = typed evs1 +:+ typed evs2.
Proof.
  induction evs1 as [|ev evs1 IH]; [done|].
  change (typed ((ev :: evs1) ++ evs2)) with (keys_sent ev +:+ typed (evs1 ++ evs2)).
  change (typed (ev :: evs1)) with (keys_sent ev +:+ typed evs1).
  by rewrite IH, string_app_assoc.
Qed.

Lemma typed_no_keys evs : Forall no_keys evs -> typed evs = "".
Proof.
  induction 1 as [|ev evs Hev _ IH]; [done|].
  change (typed (ev :: evs)) with (keys_sent ev +:+ typed evs).
  by rewrite Hev, IH.
Qed.

Lemma types_bind {A B} t1 t2 (m : M World A) (k : A -> M World B) :
  types t1 m -> (forall x, types t2 (k x)) -> types (t1 +:+ t2) (bind m k).
Proof.
  intros Hm Hk c. rewrite bind_eq.
  destruct (Hm c) as (evs1 & rest1 & E1 & T1 & D1).
  destruct (m c) as [[x|e] c1]; cbn [fst snd] in *.
  - destruct (Hk x c1) as (evs2 & rest2 & E2 & T2 & D2).
    exists (evs1 ++ evs2), rest2. split; [|split; [|done]].
    + by rewrite E2, E1, <- app_assoc.
    + rewrite (D1 x eq_refl), string_app_nil_r in T1.
      by rewrite typed_app, string_app_assoc, <- T1, <- T2.
  - exists evs1, (rest1 +:+ t2). split; [done|]. split; [|done].
    by rewrite <- string_app_assoc, <- T1.
Qed.

Lemma types_nothing {A} (m : M World A) :
  respects (extends any_stats no_keys) m -> types "" m.
Proof.
  intros Hm c. destruct (Hm c) as [_ (evs & E & Hevs)].
  exists evs, "". by rewrite (typed_no_keys _ Hevs).
Qed.

Lemma types_after {A B} t (m : M World A) (k : A -> M World B) :
  respects (extends any_stats no_keys) m -> (forall x, types t (k x)) ->
  types t (bind m k).
Proof. intros Hm Hk. apply (types_bind "" t); [by apply types_nothing|done]. Qed.

Lemma types_before {A B} t (m : M World A) (k : A -> M World B) :
  types t m -> (forall x, respects (extends any_stats no_keys) (k x)) ->
  types t (bind m k).
Proof.
  intros Hm Hk. rewrite <- (string_app_nil_r t).
  apply types_bind; [done|]. intros x. by apply types_nothing.
Qed.

Lemma type_keys_types field text : types text (type_keys field text).
Proof.
  induction text as [|char text IH]; intros c.
  - exists [], "". cbn. by rewrite app_nil_r.
  - cbn [type_keys]. rewrite bind_eq, call_eq.
    destruct (respond _ (SendKeys field (String char "")) (world c)) as [[[]|e] w];
      cbn [fst snd].
    + rewrite bind_eq, random_uniform_eq, bind_eq, time_sleep_eq.
      match goal with |- context [Qle_bool 0 ?d] =>
        set (pause := d); destruct (Qle_bool 0 pause)
      end; cbn [fst snd].
      * match goal with |- context [type_keys field text ?c1] =>
          destruct (IH c1) as (evs & rest & E & Htext & Hdone)
        end.
        exists (Called (SendKeys field (String char "")) :: Slept pause :: evs), rest.
        split; [|split; [|done]].
        -- rewrite E. cbn. by rewrite <- !app_assoc.
        -- rewrite Htext at 1. reflexivity.
      * eexists [Called (SendKeys field (String char "")); _], text.
        cbn. rewrite <- app_assoc. by split.
    + exists [Called (SendKeys field (String char ""))], text. by cbn.
Qed.

Hint Extern 0 (no_keys _) => reflexivity : methods.

Lemma cookie_loop_no_keys selectors :
  respects (extends any_stats no_keys) (cookie_loop config selectors).
Proof.
  induction selectors as [|selector rest IH]; simpl; unfold human_like_delay;
    methods_auto.
Qed.

Lemma login_body_types (c : Cleaner World) :
  whatif (execution config) = false ->
  exists evs rest,
    trace (login config c).2 = trace c ++ evs /\
    email (credentials config) +:+ password (credentials config)
      = typed evs +:+ rest /\
    ((login config c).1 = Returned true -> rest = "").
Proof.
  intros real. pose proof cookie_loop_no_keys as Hcookies.
  unfold login. rewrite !real.
  rewrite bind_eq, log_eq. cbn [fst snd]. unfold catch.
  match goal with |- context [(let (r, c') := ?body ?c1 in _)] =>
    assert (types (email (credentials config) +:+ password (credentials config)) body)
      as Hbody
  end.
  { apply types_after; [methods_auto|intros _].
    apply types_after; [unfold wait_for_page_load; methods_auto|intros _].
    apply types_after; [unfold handle_cookie_banner; methods_auto|intros _].
    apply types_after; [methods_auto|intros email_field].
    apply types_bind.
    { apply types_after; [methods_auto|intros _]. apply type_keys_types. }
    intros _.
    apply types_after; [unfold human_like_delay; methods_auto|intros _].
    apply types_after; [methods_auto|intros password_field].
    apply types_before.
    { apply types_after; [methods_auto|intros _]. apply type_keys_types. }
    intros _. unfold human_like_delay. methods_auto. }
  match goal with |- context [(let (r, c') := ?body ?c1 in _)] =>
    destruct (Hbody c1) as (evs & rest & E & T & D);
    destruct (body c1) as [[b|e] c2]
  end; cbn [fst snd] in *.
  - exists (Logged INFO LoginStarting :: evs), rest. split; [|split; [done|]].
    + rewrite E. cbn. by rewrite <- app_assoc.
    + intros _. by apply (D b).
  - rewrite bind_eq, log_eq. cbn.
    exists (Logged INFO LoginStarting :: evs ++ [Logged ERROR (LoginException e)]), rest.
    split; [|split; [|done]].
    + rewrite E. cbn. by rewrite <- !app_assoc.
    + change (typed (Logged INFO LoginStarting :: evs ++ [Logged ERROR (LoginException e)]))
        with (typed (evs ++ [Logged ERROR (LoginException e)])).
      by rewrite typed_app, string_app_nil_r.
Qed.

Lemma hands_off_no_keys ev : hands_off ev -> no_keys ev.
Proof. destruct ev as [? a| | | |]; try done. by destruct a. Qed.

(** X25. [login] sends no keys but the credentials: in simulation mode it
    types nothing; in real mode what it types, one character per
    [send_keys] call, is a prefix of the email followed by the password,
    and when it returns [True] it has typed both in full, the email
    first. *)
Theorem login_types_the_credentials (c : Cleaner World) :
  let text :=
    if whatif (execution config) then ""
    else email (credentials config) +:+ password (credentials config) in
  exists evs rest,
    trace (login config c).2 = trace c ++ evs /\
    text = typed evs +:+ rest /\
    ((login config c).1 = Returned true -> rest = "").
Proof.
  destruct (whatif (execution config)) eqn:mode; cbn zeta.
  - destruct (login_hands_off mode c) as [_ (evs & E & Hevs)].
    exists evs, "". split; [done|]. split; [|done].
    rewrite typed_no_keys; [done|].
    eapply Forall_impl; [exact Hevs|]. apply hands_off_no_keys.
  - by apply login_body_types.
Qed.

(** ** The answers of the browser *)

Section Answers.
Context {Rec : Recorded World}.

Lemma ran_refl (c : Cleaner World) : ran [] [] c c.
Proof. split; by rewrite app_nil_r. Qed.

Lemma ran_trans evs1 asked1 evs2 asked2 (c c1 c2 : Cleaner World) :
  ran evs1 asked1 c c1 -> ran evs2 asked2 c1 c2 ->
  ran (evs1 ++ evs2) (asked1 ++ asked2) c c2.
Proof. intros [E1 A1] [E2 A2]. split; [by rewrite E2, E1, app_assoc|by rewrite A2, A1, app_assoc]. Qed.

Lemma ran_call {R} (a : Action R) (c : Cleaner World) :
  ran [Called a] [Answered a (call a c).1] c (call a c).2 /\
  stats (call a c).2 = stats c.
Proof.
  rewrite call_eq. cbn [fst snd]. split; [|done]. split; [done|].
  apply answers_respond.
Qed.

Lemma ran_effect ev (c : Cleaner World) : ran [ev] [] c (after_effect ev c).
Proof. split; [done|]. by rewrite app_nil_r. Qed.

Lemma ran_update f (c : Cleaner World) :
  ran [StatsSet (stats c) (f (stats c))] [] c (after_update f c).
Proof. split; [done|]. by rewrite app_nil_r. Qed.

Lemma timeout_is_timeout_reply {A} (e : Exn) :
  is_TimeoutException e = true -> timeout_reply (A:=A) (Raised e).
Proof. destruct e as [msg|msg|msg|msg]; try done. by exists msg. Qed.

(** X23. A lookup loop over [self.wait] asks for the selectors in the order
    of its table, one answer from the browser for each, and stops at the
    first answer that is not a timeout: every answer but the last was a
    timeout, and the last is the element returned or the exception raised.
    It reports "not found" only after every selector of the table has timed
    out, and no [TimeoutException] leaves it. *)
Theorem wait_lookup_tries_in_order (selectors : list string) (c : Cleaner World) :
  exists r c' replies,
    first_found wait_clickable is_TimeoutException selectors c = (r, c') /\
    stats c' = stats c /\
    (length replies <= length selectors)%nat /\
    ran (lookups (take (length replies) selectors))
        (zip_with waits_for selectors replies) c c' /\
    match r with
    | Returned None =>
        length replies = length selectors /\ Forall timeout_reply replies
    | Returned (Some x) =>
        exists before, replies = before ++ [Returned x] /\ Forall timeout_reply before
    | Raised e =>
        exists before,
          replies = before ++ [Raised e] /\ Forall timeout_reply before /\
          is_TimeoutException e = false
    end.
Proof.
  revert c. induction selectors as [|selector rest IH]; intros c.
  - exists (Returned None), c, []. split; [done|]. split; [done|]. split; [done|].
    split; [apply ran_refl|done].
  - cbn [first_found]. rewrite bind_eq. unfold except, catch. rewrite bind_eq.
    unfold wait_clickable at 1.
    destruct (ran_call (WaitClickable None ByCssSelector selector) c) as [Hcall Hstats].
    destruct (call (WaitClickable None ByCssSelector selector) c) as [[x|e] c1];
      cbn [fst snd] in *.
    + exists (Returned (Some x)), c1, [Returned x]. unfold ret.
      split; [done|]. split; [done|]. split; [cbn; lia|]. split; [cbn; rewrite zip_with_nil_r; exact Hcall|].
      by exists [].
    + destruct (is_TimeoutException e) eqn:He.
      * unfold ret at 1.
        destruct (IH c1) as (r & c' & replies & -> & Hs & Hlen & Hran & Hres).
        exists r, c', (Raised e :: replies).
        split; [done|]. split; [congruence|]. split; [cbn; lia|].
        split; [exact (ran_trans _ _ _ _ _ _ _ Hcall Hran)|].
        pose proof (timeout_is_timeout_reply (A:=WebElement) e He) as Hte.
        destruct r as [[x|]|e'].
        -- destruct Hres as (before & -> & Hb). exists (Raised e :: before).
           split; [done|]. by constructor.
        -- destruct Hres as [Hl Hall]. split; [cbn; by rewrite Hl|by constructor].
        -- destruct Hres as (before & -> & Hb & Hne). exists (Raised e :: before).
           split; [done|]. split; [by constructor|done].
      * exists (Raised e), c1, [Raised e].
        split; [done|]. split; [done|]. split; [cbn; lia|]. split; [cbn; rewrite zip_with_nil_r; exact Hcall|].
        by exists [].
Qed.

(** X24. The scan for posts never raises.  It asks for the post selectors
    in the order of the table, one answer from the browser for each, takes
    an exception for an empty answer, and stops at the first answer that is
    not empty: every answer but the last was empty or an exception, and the
    last is the list returned.  It comes back empty-handed only after
    every selector of the table. *)
Theorem collect_posts_tries_in_order (selectors : list string) (c : Cleaner World) :
  exists all_posts c' replies,
    collect_posts selectors c = (Returned all_posts, c') /\
    stats c' = stats c /\
    (length replies <= length selectors)%nat /\
    ran (scans (take (length replies) selectors))
        (zip_with scan_for selectors replies) c c' /\
    match all_posts with
    | [] => length replies = length selectors /\ Forall fruitless_reply replies
    | _ :: _ =>
        exists before,
          replies = before ++ [Returned all_posts] /\ Forall fruitless_reply before
    end.
Proof.
  revert c. induction selectors as [|selector rest IH]; intros c.
  - exists [], c, []. split; [done|]. split; [done|]. split; [done|].
    split; [apply ran_refl|done].
  - cbn [collect_posts]. rewrite bind_eq. unfold catch.
    destruct (ran_call (FindElements ByCssSelector selector) c) as [Hcall Hstats].
    destruct (call (FindElements ByCssSelector selector) c) as [[[|post posts]|e] c1];
      cbn [fst snd] in *; unfold ret; cbn [fst snd].
    + destruct (IH c1) as (all_posts & c' & replies & -> & Hs & Hlen & Hran & Hres).
      exists all_posts, c', (Returned [] :: replies).
      split; [done|]. split; [congruence|]. split; [cbn; lia|].
      split; [exact (ran_trans _ _ _ _ _ _ _ Hcall Hran)|].
      assert (fruitless_reply (Returned [])) by (by left).
      destruct all_posts as [|p ps].
      * destruct Hres as [Hl Hall]. split; [cbn; by rewrite Hl|by constructor].
      * destruct Hres as (before & -> & Hb). exists (Returned [] :: before).
        split; [done|]. by constructor.
    + exists (post :: posts), c1, [Returned (post :: posts)].
      split; [done|]. split; [done|]. split; [cbn; lia|]. split; [cbn; rewrite zip_with_nil_r; exact Hcall|].
      by exists [].
    + destruct (IH c1) as (all_posts & c' & replies & -> & Hs & Hlen & Hran & Hres).
      exists all_posts, c', (Raised e :: replies).
      split; [done|]. split; [congruence|]. split; [cbn; lia|].
      split; [exact (ran_trans _ _ _ _ _ _ _ Hcall Hran)|].
      assert (fruitless_reply (Raised e)) by (right; by exists e).
      destruct all_posts as [|p ps].
      * destruct Hres as [Hl Hall]. split; [cbn; by rewrite Hl|by constructor].
      * destruct Hres as (before & -> & Hb). exists (Raised e :: before).
        split; [done|]. by constructor.
Qed.

(** *** Which exceptions reach the handler of an attempt *)

Lemma surfaces_returning (K : Answer -> Prop) {A} (m : M World A) :
  (forall c, exists x evs, (m c).1 = Returned x /\ ran evs [] c (m c).2) ->
  surfaces K m.
Proof.
  intros Hm c. destruct (Hm c) as (x & evs & -> & Hran). by exists evs, [].
Qed.

Lemma surfaces_ret (K : Answer -> Prop) {A} (x : A) : surfaces K (ret x).
Proof. apply surfaces_returning. intros c. exists x, []. split; [done|apply ran_refl]. Qed.

Lemma surfaces_log (K : Answer -> Prop) level msg : surfaces K (log level msg).
Proof.
  apply surfaces_returning. intros c. exists tt, [Logged level msg].
  split; [done|apply ran_effect].
Qed.

Lemma surfaces_update_stats (K : Answer -> Prop) f : surfaces K (update_stats f).
Proof.
  apply surfaces_returning. intros c. exists tt, [StatsSet (stats c) (f (stats c))].
  split; [done|apply ran_update].
Qed.

Lemma surfaces_human_like_delay (K : Answer -> Prop) (a b : Q) :
  (0 <= a)%Q -> (0 <= b)%Q ->
  surfaces K (human_like_delay config (Some a) (Some b)).
Proof.
  intros Ha Hb. apply surfaces_returning. intros c.
  unfold human_like_delay. cbn [default]. rewrite bind_eq, random_uniform_eq, time_sleep_eq.
  pose proof (uniform_nonnegative a b (random_random (world c)).1 Ha Hb) as H%Qle_bool_iff.
  unfold id. rewrite H. eexists tt, [_]. split; [done|]. split; [done|].
  cbn [snd after_effect world]. by rewrite answers_random, app_nil_r.
Qed.

Lemma surfaces_bind (K : Answer -> Prop) {A B} (m : M World A) (k : A -> M World B) :
  surfaces K m -> (forall x, surfaces K (k x)) -> surfaces K (bind m k).
Proof.
  intros Hm Hk c. rewrite bind_eq.
  destruct (Hm c) as (evs1 & asked1 & R1 & H1).
  destruct (m c) as [[x|e] c1]; cbn [fst snd] in *.
  - destruct (Hk x c1) as (evs2 & asked2 & R2 & H2).
    exists (evs1 ++ evs2), (asked1 ++ asked2).
    split; [by eapply ran_trans|].
    destruct ((k x c1).1) as [y|e].
    + by apply Forall_app.
    + destruct H2 as (evs' & before & ans & -> & -> & Hb & Hr & Hans).
      exists (evs1 ++ evs'), (asked1 ++ before), ans. rewrite !app_assoc.
      split; [done|]. split; [done|]. split; [by apply Forall_app|done].
  - by exists evs1, asked1.
Qed.

Lemma surfaces_call (K : Answer -> Prop) {R} (a : Action R) :
  (forall e, K (Answered a (Raised e))) -> surfaces K (call a).
Proof.
  intros HK c. destruct (ran_call a c) as [Hran _].
  exists [Called a], [Answered a (call a c).1]. split; [done|].
  destruct ((call a c).1) as [x|e].
  - by repeat constructor.
  - exists [], [], (Answered a (Raised e)). split; [done|]. split; [done|].
    split; [done|]. split; [done|apply HK].
Qed.

Lemma surfaces_except (K0 K : Answer -> Prop) {A} (is_class : Exn -> bool)
    (m : M World A) (h : Exn -> M World A) :
  surfaces K0 m ->
  (forall ans e, K0 ans -> raised_by ans = Some e ->
     if is_class e then handled ans else K ans) ->
  (forall e, surfaces K (h e)) ->
  surfaces K (except is_class m h).
Proof.
  intros Hm Hc Hh c. unfold except, catch.
  destruct (Hm c) as (evs1 & asked1 & R1 & H1).
  destruct (m c) as [[x|e] c1]; cbn [fst snd] in *.
  - by exists evs1, asked1.
  - destruct H1 as (evs' & before & ans & -> & -> & Hb & Hr & HK0).
    specialize (Hc ans e HK0 Hr). destruct (is_class e).
    + destruct (Hh e c1) as (evs2 & asked2 & R2 & H2).
      exists ((evs' ++ [asked_of ans]) ++ evs2), ((before ++ [ans]) ++ asked2).
      split; [by eapply ran_trans|].
      assert (Forall handled (before ++ [ans])) as Hall.
      { apply Forall_app. split; [done|by constructor]. }
      destruct ((h e c1).1) as [y|e2].
      * by apply Forall_app.
      * destruct H2 as (evs'' & before2 & ans2 & -> & -> & Hb2 & Hr2 & Hans2).
        exists ((evs' ++ [asked_of ans]) ++ evs''), ((before ++ [ans]) ++ before2), ans2.
        rewrite !app_assoc.
        split; [done|]. split; [done|]. split; [|done].
        rewrite <- !app_assoc. rewrite app_assoc. by apply Forall_app.
    + exists (evs' ++ [asked_of ans]), (before ++ [ans]). split; [done|].
      by exists evs', before, ans.
Qed.

Lemma surfaces_catch (K0 K : Answer -> Prop) {A} (m : M World A) (h : Exn -> M World A) :
  surfaces K0 m -> (forall ans, K0 ans -> handled ans) ->
  (forall e, surfaces K (h e)) ->
  surfaces K (catch m h).
Proof.
  intros Hm Hc Hh. change (catch m h) with (except (fun _ => true) m h).
  apply (surfaces_except K0); [done| |done]. intros ans e Hans _. by apply Hc.
Qed.

Lemma listed_elem (selector : string) (table : list string) :
  listed selector table = true <-> selector ∈ table.
Proof.
  unfold listed. induction table as [|s table IH]; cbn.
  - split; [done|]. by intros ?%elem_of_nil.
  - rewrite orb_true_iff, IH, elem_of_cons, String.eqb_eq. done.
Qed.

Lemma timestamp_not_menu (selector : string) :
  listed selector timestamp_selectors = true -> listed selector menu_selectors = false.
Proof.
  intros H%listed_elem. unfold timestamp_selectors in H.
  repeat (apply elem_of_cons in H as [->|H]; [reflexivity|]).
  by apply elem_of_nil in H.
Qed.

Lemma timestamp_loop_surfaces post selectors :
  Forall (fun selector => listed selector timestamp_selectors = true) selectors ->
  surfaces handled (timestamp_loop post selectors).
Proof.
  induction 1 as [|selector rest Hsel _ IH]; cbn [timestamp_loop].
  - apply surfaces_ret.
  - apply surfaces_bind; [|intros [t|]; [apply surfaces_ret|apply IH]].
    apply (surfaces_except handled).
    + apply surfaces_bind.
      { apply surfaces_call. intros e. unfold handled. cbn [handled_in_attempt].
        by rewrite (timestamp_not_menu _ Hsel). }
      intros time_element. apply surfaces_bind; [by apply surfaces_call|].
      intros title. destruct (attr_truthy title); [apply surfaces_ret|].
      apply surfaces_bind; [by apply surfaces_call|]. intros t. apply surfaces_ret.
    + intros ans e Hans _. by destruct (is_NoSuchElementException e).
    + intros e. apply surfaces_ret.
Qed.

Lemma extract_post_info_surfaces (K : Answer -> Prop) post :
  surfaces K (extract_post_info post).
Proof.
  unfold extract_post_info. apply (surfaces_catch handled); [|done|].
  - apply surfaces_bind; [by apply surfaces_call|]. intros text. cbv zeta.
    apply surfaces_bind.
    { apply timestamp_loop_surfaces. by repeat constructor. }
    intros timestamp. apply surfaces_bind; [by apply surfaces_call|].
    intros text'. apply surfaces_ret.
  - intros e. apply surfaces_ret.
Qed.

Lemma menu_lookup_surfaces post selectors :
  Forall (fun selector => listed selector menu_selectors = true) selectors ->
  surfaces unhandled
    (first_found (find_in post) is_NoSuchElementException selectors).
Proof.
  induction 1 as [|selector rest Hsel _ IH]; cbn [first_found].
  - apply surfaces_ret.
  - apply surfaces_bind; [|intros [x|]; [apply surfaces_ret|apply IH]].
    apply (surfaces_except
             (fun ans => exists e,
                ans = Answered (FindElement (Some post) ByCssSelector selector) (Raised e))).
    + apply surfaces_bind; [|intros x; apply surfaces_ret].
      unfold find_in. apply surfaces_call. intros e. by exists e.
    + intros ans e [e' ->] [= ->]. unfold handled, unhandled.
      cbn [handled_in_attempt]. rewrite Hsel. by destruct e.
    + intros e. apply surfaces_ret.
Qed.

Lemma clickable_lookup_surfaces selectors :
  Forall (fun selector =>
            listed selector delete_selectors || listed selector confirm_selectors = true)
         selectors ->
  surfaces unhandled (first_found wait_clickable is_TimeoutException selectors).
Proof.
  induction 1 as [|selector rest Hsel _ IH]; cbn [first_found].
  - apply surfaces_ret.
  - apply surfaces_bind; [|intros [x|]; [apply surfaces_ret|apply IH]].
    apply (surfaces_except
             (fun ans => exists e,
                ans = Answered (WaitClickable None ByCssSelector selector) (Raised e))).
    + apply surfaces_bind; [|intros x; apply surfaces_ret].
      unfold wait_clickable. apply surfaces_call. intros e. by exists e.
    + intros ans e [e' ->] [= ->]. unfold handled, unhandled.
      cbn [handled_in_attempt]. rewrite Hsel. by destruct e.
    + intros e. apply surfaces_ret.
Qed.

Ltac surfaces_step :=
  lazymatch goal with
  | |- surfaces _ (ret _) => apply surfaces_ret
  | |- surfaces _ (bind _ _) => apply surfaces_bind; [|intros ?]
  | |- surfaces _ (log _ _) => apply surfaces_log
  | |- surfaces _ (update_stats _) => apply surfaces_update_stats
  | |- surfaces _ (human_like_delay _ (Some _) (Some _)) =>
      apply surfaces_human_like_delay; by compute
  | |- surfaces _ (extract_post_info _) => apply extract_post_info_surfaces
  | |- surfaces _ (first_found (find_in _) _ _) =>
      apply menu_lookup_surfaces; by repeat constructor
  | |- surfaces _ (first_found wait_clickable _ _) =>
      apply clickable_lookup_surfaces; by repeat constructor
  | |- surfaces _ (call _) => apply surfaces_call; intros ?; reflexivity
  | |- surfaces _ (confirm_deletion _ _) => unfold confirm_deletion
  | |- surfaces _ (if ?b then _ else _) => destruct b
  | |- surfaces _ (match ?x with _ => _ end) => destruct x
  end.

(** Whatever leaves the [try] block of an attempt is an exception of the
    browser that the attempt does not handle where it arises. *)
Lemma attempt_body_surfaces post i :
  surfaces unhandled (attempt_body config post i).
Proof. unfold attempt_body. repeat surfaces_step. Qed.

(** C6, as the code has it. An attempt always returns.  Of the exceptions
    the browser raises during it, those the attempt handles where they
    arise ([NoSuchElementException] at a menu lookup, [TimeoutException] at
    a lookup of the delete option or of the confirm button, anything
    inside [extract_post_info]) do not count as errors.  Any other one, at
    whatever call, ends the attempt there: the failing call is the last one
    made for the item, the exception is logged, [errors_encountered] grows
    by one and nothing else changes, the attempt returns [False], and the
    batch loop goes on with the next item. *)
Theorem exception_in_attempt_is_counted (post : WebElement) (i : nat)
    (rest : list (nat * WebElement)) (deleted_count : nat) (c : Cleaner World) :
  exists deleted c' evs asked,
    attempt_post_deletion config post i c = (Returned deleted, c') /\
    ran evs asked c c' /\
    (forall ans, ans ∈ asked -> unhandled ans ->
       exists e evs',
         raised_by ans = Some e /\
         last asked = Some ans /\
         evs = evs' ++ [asked_of ans; Logged ERROR (ErrorDeletingPost (i + 1) e);
                        StatsSet (stats c) (incr_errors_encountered (stats c))] /\
         deleted = false /\
         stats c' = incr_errors_encountered (stats c) /\
         batch_loop config ((i, post) :: rest) deleted_count c
           = batch_loop config rest deleted_count c') /\
    (Forall handled asked ->
       errors_encountered (stats c') = errors_encountered (stats c)).
Proof.
  destruct (attempt_body_surfaces post i c) as (evs & asked & Hran & Hres).
  pose proof (attempt_body_commits post i c) as Hstats.
  destruct (attempt_body config post i c) as [[deleted|e] c1] eqn:Hbody;
    cbn [fst snd] in *.
  - exists deleted, c1, evs, asked.
    split; [unfold attempt_post_deletion, catch; by rewrite Hbody|].
    split; [done|]. split.
    + intros ans Hin Hun. exfalso.
      rewrite Forall_forall in Hres. specialize (Hres ans Hin).
      unfold handled, unhandled in *. congruence.
    + intros _. destruct Hstats as (c2 & [Hs _] & ->).
      cbn [after_update stats]. rewrite <- Hs. by destruct deleted.
  - destruct (raised_attempt_is_counted post i rest deleted_count c c1 e Hbody)
      as (Hattempt & Hs' & Hloop).
    destruct Hres as (evs' & before & ans0 & -> & -> & Hb & Hr & Hun0).
    destruct Hstats as [Hs _].
    pose proof (ran_trans _ _ _ _ _ _ _ Hran
                  (ran_trans _ _ _ _ _ _ _
                     (ran_effect (Logged ERROR (ErrorDeletingPost (i + 1) e)) c1)
                     (ran_update incr_errors_encountered
                        (after_effect (Logged ERROR (ErrorDeletingPost (i + 1) e)) c1))))
      as Hran'.
    cbn [app] in Hran'. rewrite app_nil_r in Hran'.
    eexists false, _, _, (before ++ [ans0]). split; [exact Hattempt|].
    split; [exact Hran'|]. split.
    + intros ans Hin Hun.
      apply elem_of_app in Hin as [Hin|Hin%list_elem_of_singleton].
      { exfalso. rewrite Forall_forall in Hb. specialize (Hb ans Hin).
        unfold handled, unhandled in *. congruence. }
      subst ans. exists e, evs'. split; [done|]. split; [apply last_snoc|].
      split.
      { cbn [after_effect stats]. by rewrite <- Hs, <- app_assoc. }
      split; [done|]. split; [exact Hs'|exact Hloop].
    + intros Hall. exfalso. apply Forall_app in Hall as [_ Hall].
      rewrite Forall_singleton in Hall. unfold handled in Hall. unfold unhandled in Hun0.
      by rewrite Hun0 in Hall.
Qed.

(** *** The clicks of an attempt, and what they click *)

Lemma progress_refl post (c : Cleaner World) : progress post [] [] [] [] c c.
Proof. exists [], []. split; [apply ran_refl|done]. Qed.

Lemma progress_trans post made1 ms1 ds1 ks1 made2 ms2 ds2 ks2 (c c1 c2 : Cleaner World) :
  progress post made1 ms1 ds1 ks1 c c1 -> progress post made2 ms2 ds2 ks2 c1 c2 ->
  progress post (made1 ++ made2) (ms1 ++ ms2) (ds1 ++ ds2) (ks1 ++ ks2) c c2.
Proof.
  intros (evs1 & asked1 & R1 & <- & <- & <- & <-)
         (evs2 & asked2 & R2 & <- & <- & <- & <-).
  exists (evs1 ++ evs2), (asked1 ++ asked2). split; [by eapply ran_trans|].
  by rewrite clicks_app, !omap_app.
Qed.

#[export] Instance idle_preorder post : PreOrder (idle (World:=World) post).
Proof.
  split.
  - intros c. apply progress_refl.
  - intros c1 c2 c3 H1 H2. exact (progress_trans _ _ _ _ _ _ _ _ _ _ _ _ H1 H2).
Qed.

Lemma menu_found_raised post {R} (a : Action R) e :
  menu_found post (Answered a (Raised e)) = None.
Proof. destruct a as [| | | |[scope|] [] ?| | | | | |? ? ?| | | | | |]; done. Qed.

Lemma clickable_found_raised table {R} (a : Action R) e :
  clickable_found table (Answered a (Raised e)) = None.
Proof. destruct a as [| | | | | | | | | |[t|] [] ?| | | | | |]; done. Qed.

Lemma progress_call post {R} (a : Action R) (c : Cleaner World) :
  (forall reply, menu_found post (Answered a reply) = None) ->
  (forall table reply, clickable_found table (Answered a reply) = None) ->
  progress post (clicks [Called a]) [] [] [] c (call a c).2.
Proof.
  intros Hm Hc. destruct (ran_call a c) as [Hran _].
  exists [Called a], [Answered a (call a c).1]. split; [done|].
  cbn [omap list_omap]. by rewrite Hm, !Hc.
Qed.

Lemma progress_raised post {R} (a : Action R) e (c c1 : Cleaner World) :
  ran [Called a] [Answered a (Raised e)] c c1 ->
  progress post (clicks [Called a]) [] [] [] c c1.
Proof.
  intros Hran. exists [Called a], [Answered a (Raised e)]. split; [done|].
  cbn [omap list_omap]. by rewrite menu_found_raised, !clickable_found_raised.
Qed.

Lemma idle_effect post ev (c : Cleaner World) :
  is_click_or_type ev = false -> idle post c (after_effect ev c).
Proof.
  intros Hev. exists [ev], []. split; [apply ran_effect|].
  unfold clicks. cbn [List.filter]. by rewrite Hev.
Qed.

Lemma idle_log post level msg : respects (idle post) (log level msg).
Proof. intros c. by apply idle_effect. Qed.

Lemma idle_time_sleep post d : respects (idle post) (time_sleep (World:=World) d).
Proof. intros c. rewrite time_sleep_eq. cbn [snd]. by apply idle_effect. Qed.

Lemma idle_update_stats post f : respects (idle post) (update_stats (World:=World) f).
Proof.
  intros c. rewrite update_stats_eq. cbn [snd].
  exists [StatsSet (stats c) (f (stats c))], []. split; [apply ran_update|done].
Qed.

Lemma idle_random_uniform post a b : respects (idle post) (random_uniform a b).
Proof.
  intros c. rewrite random_uniform_eq. cbn [snd]. exists [], []. split; [|done].
  split; cbn [trace world]; [by rewrite app_nil_r|by rewrite answers_random, app_nil_r].
Qed.

Lemma idle_call post {R} (a : Action R) :
  is_click_or_type (Called a) = false ->
  (forall reply, menu_found post (Answered a reply) = None) ->
  (forall table reply, clickable_found table (Answered a reply) = None) ->
  respects (idle post) (call a).
Proof.
  intros Ha Hm Hc c. pose proof (progress_call post a c Hm Hc) as H.
  unfold clicks in H. cbn [List.filter] in H. by rewrite Ha in H.
Qed.

Hint Resolve idle_log idle_time_sleep idle_update_stats idle_random_uniform : methods.
Hint Extern 1 (respects (idle _) (call _)) =>
  apply idle_call; [reflexivity|intros ?; reflexivity|intros ? ?; reflexivity] : methods.

Lemma human_like_delay_idle post a b : respects (idle post) (human_like_delay config a b).
Proof. unfold human_like_delay. methods_auto. Qed.

Lemma timestamp_loop_idle post post' selectors :
  Forall (fun selector => listed selector timestamp_selectors = true) selectors ->
  respects (idle post) (timestamp_loop post' selectors).
Proof.
  induction 1 as [|selector rest Hsel _ IH]; cbn [timestamp_loop]; [methods_auto|].
  assert (respects (idle post)
            (call (FindElement (Some post') ByCssSelector selector))).
  { apply idle_call; [done| |done]. intros [x|e]; [|done].
    cbn [menu_found]. rewrite (timestamp_not_menu _ Hsel).
    by rewrite andb_false_r. }
  methods_auto.
Qed.

Lemma extract_post_info_idle post post' : respects (idle post) (extract_post_info post').
Proof.
  assert (respects (idle post) (timestamp_loop post' timestamp_selectors)).
  { apply timestamp_loop_idle. by repeat constructor. }
  unfold extract_post_info. methods_auto.
Qed.

Hint Resolve human_like_delay_idle extract_post_info_idle : methods.

Lemma same_element_refl post : same_element post post = true.
Proof. destruct post as [n]. apply Nat.eqb_refl. Qed.

(** The menu loop gives at most one menu button: the one it returns. *)
Lemma menu_lookup_progress post selectors (c : Cleaner World) :
  Forall (fun selector => listed selector menu_selectors = true) selectors ->
  exists r c',
    first_found (find_in post) is_NoSuchElementException selectors c = (r, c') /\
    progress post []
      (match r with Returned (Some menu_button) => [menu_button] | _ => [] end)
      [] [] c c'.
Proof.
  intros Hall. revert c. induction Hall as [|selector rest Hsel _ IH]; intros c.
  - exists (Returned None), c. split; [done|apply progress_refl].
  - cbn [first_found]. rewrite bind_eq. unfold except, catch.
    rewrite bind_eq. unfold find_in at 1.
    destruct (ran_call (FindElement (Some post) ByCssSelector selector) c) as [Hcall _].
    destruct (call (FindElement (Some post) ByCssSelector selector) c) as [[x|e] c1];
      cbn [fst snd] in *.
    + unfold ret. cbn [fst snd]. exists (Returned (Some x)), c1. split; [done|].
      eexists [_], [_]. split; [exact Hcall|].
      cbn [omap list_omap menu_found clickable_found].
      by rewrite same_element_refl, Hsel.
    + apply progress_raised with (post:=post) in Hcall.
      destruct (is_NoSuchElementException e).
      * unfold ret at 1. destruct (IH c1) as (r & c' & -> & Hrest).
        exists r, c'. split; [done|].
        exact (progress_trans _ _ _ _ _ _ _ _ _ _ _ _ Hcall Hrest).
      * by exists (Raised e), c1.
Qed.

(** A loop over [self.wait] gives at most one element, the one it returns;
    it counts for the table its selectors are in. *)
Lemma clickable_lookup_found post selectors (c : Cleaner World) :
  exists r c' evs asked,
    first_found wait_clickable is_TimeoutException selectors c = (r, c') /\
    ran evs asked c c' /\
    clicks evs = [] /\
    omap (menu_found post) asked = [] /\
    forall table,
      (Forall (fun selector => listed selector table = true) selectors ->
       omap (clickable_found table) asked
         = match r with Returned (Some button) => [button] | _ => [] end) /\
      (Forall (fun selector => listed selector table = false) selectors ->
       omap (clickable_found table) asked = []).
Proof.
  revert c. induction selectors as [|selector rest IH]; intros c.
  - exists (Returned None), c, [], []. split; [done|]. split; [apply ran_refl|].
    by repeat split.
  - cbn [first_found]. rewrite bind_eq. unfold except, catch.
    rewrite bind_eq. unfold wait_clickable at 1.
    destruct (ran_call (WaitClickable None ByCssSelector selector) c) as [Hcall _].
    destruct (call (WaitClickable None ByCssSelector selector) c) as [[x|e] c1];
      cbn [fst snd] in *.
    + unfold ret. cbn [fst snd]. eexists (Returned (Some x)), c1, [_], [_].
      split; [done|]. split; [exact Hcall|].
      split; [done|]. split; [done|]. intros table.
      cbn [omap list_omap clickable_found].
      split; intros Hall; apply Forall_cons in Hall as [-> _]; done.
    + destruct (is_TimeoutException e).
      * unfold ret at 1.
        destruct (IH c1) as (r & c' & evs & asked & -> & Hran & Hclicks & Hmenu & Htables).
        eexists r, c', (_ :: evs), (_ :: asked). split; [done|].
        split; [exact (ran_trans _ _ _ _ _ _ _ Hcall Hran)|].
        split; [exact Hclicks|]. split; [exact Hmenu|]. intros table.
        cbn [omap list_omap clickable_found].
        destruct (Htables table) as [Hin Hout].
        split; intros Hall; apply Forall_cons in Hall as [_ Hall]; auto.
      * eexists (Raised e), c1, [_], [_]. split; [done|]. split; [exact Hcall|].
        split; [done|]. split; [done|]. intros table. by split.
Qed.

Lemma delete_lookup_progress post (c : Cleaner World) :
  exists r c',
    first_found wait_clickable is_TimeoutException delete_selectors c = (r, c') /\
    progress post [] []
      (match r with Returned (Some button) => [button] | _ => [] end) [] c c'.
Proof.
  destruct (clickable_lookup_found post delete_selectors c)
    as (r & c' & evs & asked & -> & Hran & Hclicks & Hmenu & Htables).
  exists r, c'. split; [done|].
  exists evs, asked. split; [done|]. split; [done|]. split; [done|]. split.
  - apply Htables. by repeat constructor.
  - apply Htables. by repeat constructor.
Qed.

Lemma confirm_lookup_progress post (c : Cleaner World) :
  exists r c',
    first_found wait_clickable is_TimeoutException confirm_selectors c = (r, c') /\
    progress post [] [] []
      (match r with Returned (Some button) => [button] | _ => [] end) c c'.
Proof.
  destruct (clickable_lookup_found post confirm_selectors c)
    as (r & c' & evs & asked & -> & Hran & Hclicks & Hmenu & Htables).
  exists r, c'. split; [done|].
  exists evs, asked. split; [done|]. split; [done|]. split; [done|]. split.
  - apply Htables. by repeat constructor.
  - apply Htables. by repeat constructor.
Qed.

Lemma progress_idle post made ms ds ks (c c1 c2 : Cleaner World) :
  progress post made ms ds ks c c1 -> idle post c1 c2 ->
  progress post made ms ds ks c c2.
Proof.
  intros H1 H2. pose proof (progress_trans _ _ _ _ _ _ _ _ _ _ _ _ H1 H2) as H.
  by rewrite !app_nil_r in H.
Qed.

Ltac attempt_ends K :=
  eexists _, _, _, _; split; [exact K|];
  split; [reflexivity|]; split; [cbn; lia|]; split; [cbn; lia|]; done.

Ltac idle_step K x :=
  lazymatch type of K with
  | progress ?post _ _ _ _ _ _ =>
      lazymatch goal with
      | |- context [bind ?m ?k ?c] =>
          rewrite (bind_eq m k c);
          let H := fresh "H" in
          assert (H : respects (idle post) m) by methods_auto;
          specialize (H c);
          apply (progress_idle _ _ _ _ _ _ _ _ K) in H; clear K; rename H into K;
          destruct (m c) as [[x|?] ?]; cbn [fst snd] in K |- *; [|attempt_ends K]
      end
  end.

Ltac click_step K :=
  lazymatch type of K with
  | progress ?post _ _ _ _ _ _ =>
      lazymatch goal with
      | |- context [bind (call ?a) ?k ?c] =>
          rewrite (bind_eq (call a) k c);
          let H := fresh "H" in
          pose proof (progress_call post a c (fun _ => eq_refl) (fun _ _ => eq_refl)) as H;
          apply (progress_trans _ _ _ _ _ _ _ _ _ _ _ _ K) in H; clear K; rename H into K;
          cbn [app clicks List.filter is_click_or_type] in K;
          destruct (call a c) as [[[]|?] ?]; cbn [fst snd] in K |- *; [|attempt_ends K]
      end
  end.

Ltac lookup_step K lemma found :=
  lazymatch goal with
  | |- context [bind ?m ?k ?c] =>
      rewrite (bind_eq m k c);
      let H := fresh "H" in
      let E := fresh "E" in
      destruct (lemma c) as (? & ? & E & H); rewrite E; clear E;
      apply (progress_trans _ _ _ _ _ _ _ _ _ _ _ _ K) in H; clear K; rename H into K;
      lazymatch goal with
      | |- context [match ?r with Returned _ => _ | Raised _ => _ end] =>
          destruct r as [[found|]|?]; cbn [fst snd app] in K |- *;
          [| |attempt_ends K]
      end
  end.

Ltac skip_step K :=
  rewrite bind_eq, log_eq, bind_eq, update_stats_eq; unfold ret; cbn [fst snd];
  lazymatch type of K with
  | progress ?post _ _ _ _ _ _ =>
      lazymatch goal with
      | |- context [after_update ?f (after_effect ?ev ?c1)] =>
          let H := fresh "H" in
          assert (H : idle post c1 (after_update f (after_effect ev c1)));
          [transitivity (after_effect ev c1);
           [by apply idle_effect|apply (idle_update_stats post f)]|];
          apply (progress_idle _ _ _ _ _ _ _ _ K) in H; attempt_ends H
      end
  end.

Lemma attempt_body_progress post i (c : Cleaner World) :
  whatif (execution config) = false ->
  exists made ms ds ks,
    progress post made ms ds ks c (attempt_body config post i c).2 /\
    clicks_match made ms ds ks (attempt_body config post i c).1.
Proof.
  intros Hreal. unfold attempt_body, clicks_match.
  pose proof (progress_refl post c) as K.
  click_step K.
  idle_step K u1.
  idle_step K post_info.
  idle_step K u2. rewrite Hreal.
  lookup_step K (fun c => menu_lookup_progress post menu_selectors c
                            ltac:(by repeat constructor)) menu_button;
    [|skip_step K].
  click_step K.
  idle_step K u3.
  lookup_step K (delete_lookup_progress post) delete_option; [|skip_step K].
  click_step K.
  idle_step K u4.
  unfold confirm_deletion.
  lookup_step K (confirm_lookup_progress post) confirm_button; [|skip_step K].
  click_step K.
  idle_step K u5.
  skip_step K.
Qed.

(** X15. In real mode an attempt clicks nothing but what its lookups gave
    it, and types nothing: its clicks and keystrokes are, in this order,
    the click through the action chain on the element the menu lookup
    inside the post returned, the click on the element the wait for a
    delete selector returned, and the click on the element the wait for a
    confirm selector returned.  There is at most one of each, none without
    the one before, and the attempt returns [True] only after all three. *)
Theorem attempt_clicks_in_order (post : WebElement) (i : nat) (c : Cleaner World) :
  whatif (execution config) = false ->
  exists r c' evs asked,
    attempt_post_deletion config post i c = (r, c') /\
    ran evs asked c c' /\
    let menus := omap (menu_found post) asked in
    let deletes := omap (clickable_found delete_selectors) asked in
    let confirms := omap (clickable_found confirm_selectors) asked in
    clicks evs = chain_clicks menus ++ plain_clicks deletes ++ plain_clicks confirms /\
    (length confirms <= length deletes <= length menus)%nat /\
    (length menus <= 1)%nat /\
    (r = Returned true -> length confirms = 1%nat).
Proof.
  intros Hreal.
  destruct (attempt_body_progress post i c Hreal)
    as (made & ms & ds & ks & K & Hmade & Hlen & Hone & Htrue).
  unfold attempt_post_deletion, catch.
  destruct (attempt_body config post i c) as [[deleted|e] c1]; cbn [fst snd] in *.
  - destruct K as (evs & asked & Hran & <- & <- & <- & <-).
    by exists (Returned deleted), c1, evs, asked.
  - rewrite bind_eq, log_eq, bind_eq, update_stats_eq. unfold ret. cbn [fst snd].
    assert (idle post c1
              (after_update incr_errors_encountered
                 (after_effect (Logged ERROR (ErrorDeletingPost (i + 1) e)) c1)))
      as Hidle.
    { transitivity (after_effect (Logged ERROR (ErrorDeletingPost (i + 1) e)) c1);
        [by apply idle_effect|apply (idle_update_stats _ incr_errors_encountered)]. }
    apply (progress_idle _ _ _ _ _ _ _ _ K) in Hidle.
    destruct Hidle as (evs & asked & Hran & <- & <- & <- & <-).
    eexists (Returned false), _, evs, asked. split; [done|]. split; [done|].
    cbn zeta. split; [done|]. split; [done|]. split; [done|]. by intros [=].
Qed.

End Answers.

End Cleaning.

(** ** Deduplication *)

Section Deduplication.
Context `{Env : Environment World}.

Section Fresh.
Variable ident : WebElement -> string.

Lemma fresh_posts_sublist all_posts seen :
  sublist (fresh_posts ident all_posts seen) all_posts.
Proof.
  revert seen. induction all_posts as [|post rest IH]; intros seen; simpl; [done|].
  case_decide; [by apply sublist_cons|by apply sublist_skip].
Qed.

Lemma fresh_posts_not_seen all_posts seen post :
  post ∈ fresh_posts ident all_posts seen -> ident post ∉ seen.
Proof.
  revert seen. induction all_posts as [|first rest IH]; intros seen; simpl.
  - by intros ?%elem_of_nil.
  - case_decide as Hseen; [apply IH|].
    intros [->|Hin]%elem_of_cons; [done|]. apply IH in Hin. set_solver.
Qed.

Lemma fresh_posts_NoDup all_posts seen :
  NoDup (ident <$> fresh_posts ident all_posts seen).
Proof.
  revert seen. induction all_posts as [|first rest IH]; intros seen; simpl.
  - constructor.
  - case_decide as Hseen; [apply IH|]. rewrite fmap_cons. constructor; [|apply IH].
    intros (post & Heq & Hin)%list_elem_of_fmap.
    apply fresh_posts_not_seen in Hin. set_solver.
Qed.

Lemma fresh_posts_complete all_posts seen post :
  post ∈ all_posts ->
  ident post ∈ seen \/ ident post ∈ ident <$> fresh_posts ident all_posts seen.
Proof.
  revert seen. induction all_posts as [|first rest IH]; intros seen; simpl.
  - by intros ?%elem_of_nil.
  - intros [->|Hin]%elem_of_cons.
    + case_decide as Hseen; [by left|]. right. rewrite fmap_cons. set_solver.
    + case_decide as Hseen; [by apply IH|].
      rewrite fmap_cons.
      destruct (IH (seen ∪ {[ident first]}) Hin) as [Hs|Hf].
      * apply elem_of_union in Hs as [Hs|Hs%elem_of_singleton]; [by left|].
        right. rewrite Hs. by apply elem_of_cons; left.
      * right. by apply elem_of_cons; right.
Qed.

Lemma fresh_posts_first all_posts seen post :
  post ∈ fresh_posts ident all_posts seen ->
  exists before after,
    all_posts = before ++ post :: after /\ ident post ∉ ident <$> before.
Proof.
  revert seen. induction all_posts as [|first rest IH]; intros seen; simpl.
  - by intros ?%elem_of_nil.
  - case_decide as Hseen.
    + intros Hin. pose proof (fresh_posts_not_seen _ _ _ Hin) as Hnew.
      destruct (IH _ Hin) as (before & after & -> & Hfirst).
      exists (first :: before), after. split; [done|].
      rewrite fmap_cons. intros [Heq|?]%elem_of_cons; [|done]. congruence.
    + intros [->|Hin]%elem_of_cons.
      * exists [], rest. split; [done|]. by intros ?%elem_of_nil.
      * pose proof (fresh_posts_not_seen _ _ _ Hin) as Hnew.
        destruct (IH _ Hin) as (before & after & -> & Hfirst).
        exists (first :: before), after. split; [done|].
        rewrite fmap_cons. intros [Heq|?]%elem_of_cons; [|done]. set_solver.
Qed.

Lemma fresh_posts_idempotent all_posts seen :
  fresh_posts ident (fresh_posts ident all_posts seen) seen
    = fresh_posts ident all_posts seen.
Proof.
  revert seen. induction all_posts as [|first rest IH]; intros seen; simpl; [done|].
  case_decide as Hseen; [apply IH|]. simpl. rewrite decide_False by done.
  by rewrite IH.
Qed.

End Fresh.

Variable page : StableReads World.

Lemma element_id_stable post (c : Cleaner World) :
  exists c', element_id post c = (Returned (identity page post), c').
Proof.
  unfold element_id, identity.
  rewrite bind_eq, call_eq, (read_testid page).
  destruct (attr_truthy (testid_of page post)); [by eexists|].
  rewrite bind_eq, call_eq, (read_id page).
  destruct (attr_truthy (id_of page post)); [by eexists|].
  rewrite bind_eq, call_eq, (read_text page). by eexists.
Qed.

Lemma unique_loop_stable all_posts unique_posts seen (c : Cleaner World) :
  exists c',
    unique_loop all_posts unique_posts seen c =
      (Returned (unique_posts ++ fresh_posts (identity page) all_posts seen), c').
Proof.
  revert unique_posts seen c.
  induction all_posts as [|post rest IH]; intros unique_posts seen c; simpl.
  - exists c. by rewrite app_nil_r.
  - rewrite bind_eq. destruct (element_id_stable post c) as (c1 & ->).
    case_decide as Hseen; [apply IH|].
    destruct (IH (unique_posts ++ [post]) (seen ∪ {[identity page post]}) c1)
      as (c2 & ->).
    exists c2. by rewrite <- app_assoc.
Qed.

(** C7. On a page whose attribute reads are stable, the loop of
    [find_posts_on_page] returns a sublist of the candidates, in their
    order, in which no identity (test identifier, else DOM identifier, else
    hash of the first 50 characters of text) occurs twice, every identity of
    a candidate occurs, and each element kept is the first candidate with
    its identity; run on its own result, the loop returns that result. *)
Theorem deduplication_keeps_first_occurrences (all_posts : list WebElement)
    (c : Cleaner World) :
  exists unique_posts,
    (unique_loop all_posts [] ∅ c).1 = Returned unique_posts /\
    sublist unique_posts all_posts /\
    NoDup (identity page <$> unique_posts) /\
    (forall post, post ∈ all_posts ->
       identity page post ∈ identity page <$> unique_posts) /\
    (forall post, post ∈ unique_posts ->
       exists before after,
         all_posts = before ++ post :: after /\
         identity page post ∉ identity page <$> before) /\
    (forall c', (unique_loop unique_posts [] ∅ c').1 = Returned unique_posts).
Proof.
  exists (fresh_posts (identity page) all_posts ∅).
  split; [by destruct (unique_loop_stable all_posts [] ∅ c) as (c' & ->)|].
  split; [apply fresh_posts_sublist|]. split; [apply fresh_posts_NoDup|].
  split; [|split].
  - intros post Hin.
    destruct (fresh_posts_complete (identity page) all_posts ∅ post Hin); set_solver.
  - apply fresh_posts_first.
  - intros c'.
    destruct (unique_loop_stable (fresh_posts (identity page) all_posts ∅) [] ∅ c')
      as (c'' & ->).
    cbn [fst app]. by rewrite fresh_posts_idempotent.
Qed.

Lemma fresh_posts_all_seen (ident : WebElement -> string) all_posts seen :
  (forall post, post ∈ all_posts -> ident post ∈ seen) ->
  fresh_posts ident all_posts seen = [].
Proof.
  induction all_posts as [|post rest IH]; intros Hseen; simpl; [done|].
  rewrite decide_True by (apply Hseen; by left).
  apply IH. intros p Hp. apply Hseen. by right.
Qed.

(** X17. On a stable page, candidates that all derive the same identity
    collapse to the first of them.  In particular the elements matched by
    the first post selector, [[data-testid='activity-log-item']], all carry
    that test identifier, so that one post is kept of them, however many
    there are. *)
Theorem shared_identity_keeps_one_post (first : WebElement)
    (rest : list WebElement) (id : string) (c : Cleaner World) :
  (forall post, post ∈ first :: rest -> identity page post = id) ->
  (unique_loop (first :: rest) [] ∅ c).1 = Returned [first].
Proof.
  intros Hshared.
  destruct (unique_loop_stable (first :: rest) [] ∅ c) as (c' & ->).
  cbn [fst app fresh_posts]. rewrite decide_False by set_solver.
  rewrite fresh_posts_all_seen; [done|].
  intros post Hpost. rewrite (Hshared first), (Hshared post); [set_solver|by right|by left].
Qed.

End Deduplication.

(** * The theorems at work in the simulated browser *)

(** ** Configuration validation *)

(** C5. A configuration that is valid in every other respect and has
    [min_delete_delay = 7 > 3 = max_delete_delay] is accepted:
    [validate_config] compares the action delays only. *)
Theorem validate_config_accepts_inverted_delete_delays :
  let config := with_delete_delays 7 3 real_config in
  Qgtb (min_delete_delay (timing config)) (max_delete_delay (timing config)) = true /\
  validate_config config = (true, "Configuration valid").
Proof. split; reflexivity. Qed.

(** The sibling check, on the action delays, is made. *)
Lemma validate_config_rejects_inverted_action_delays (config : Config) :
  Qgtb (min_action_delay (timing config)) (max_action_delay (timing config)) = true ->
  (validate_config config).1 = false.
Proof.
  intros H. unfold validate_config. rewrite H.
  repeat (case_match; [done|]). done.
Qed.

(** The delete delays play no part in the verdict. *)
Lemma validate_config_ignores_delete_delays (config : Config) (lo hi : Q) :
  validate_config (with_delete_delays lo hi config) = validate_config config.
Proof. done. Qed.

(** ** Witnesses *)

Lemma whatif_attempt_witness :
  let r := attempt_post_deletion whatif_config (Element 7) 0
             (cleaner_in (sim_page [7%nat]) 0) in
  r.1 = Returned true /\ stats r.2 = incr_posts_deleted (initial_stats 0).
Proof.
  exact (proj2 (whatif_attempt whatif_config (Element 7) 0
                  (cleaner_in (sim_page [7%nat]) 0) eq_refl)).
Defined.

Lemma unconfirmed_deletion_is_skipped_witness :
  let r := confirm_deletion real_config 0 (cleaner_in (sim_page [7%nat]) 0) in
  r.1 = Returned false /\ stats r.2 = incr_posts_skipped (initial_stats 0).
Proof.
  assert (all_time_out confirm_selectors (sim_page [7%nat])) as Hall.
  { repeat (eexists; eexists; split; [reflexivity|]). exact I. }
  destruct (unconfirmed_deletion_is_skipped real_config 0
              (cleaner_in (sim_page [7%nat]) 0) Hall) as (H1 & H2 & _).
  split; [exact H1|exact H2].
Defined.

Lemma recording_recorded `(Env : Environment World) :
  Recorded (World * list Answer) (Env := recording Env).
Proof.
  refine {| answers := snd |}.
  - intros R a [w l]. cbn. by destruct (respond R a w).
  - intros [w l]. cbn. by destruct (random_random w).
  - intros [w l]. cbn. by destruct (datetime_now w).
Defined.

Lemma exception_in_attempt_is_counted_witness :
  let browser := recording (faulty sim_environment stale_menus) in
  let c := cleaner_in (sim_page [7%nat; 8%nat], []) 0 in
  let stale :=
    Answered (FindElement (Some (Element 7)) ByCssSelector "[aria-label*='More options']")
      (Raised (WebDriverException "stale element reference")) in
  unhandled stale /\
  exists c',
    attempt_post_deletion (Env:=browser) real_config (Element 7) 0 c
      = (Returned false, c') /\
    last (world c').2 = Some stale /\
    stats c' = incr_errors_encountered (initial_stats 0) /\
    batch_loop (Env:=browser) real_config [(0%nat, Element 7); (1%nat, Element 8)] 0 c =
      batch_loop (Env:=browser) real_config [(1%nat, Element 8)] 0 c'.
Proof.
  intros browser c stale. split; [reflexivity|].
  destruct (exception_in_attempt_is_counted (Env:=browser)
              (Rec:=recording_recorded _) real_config (Element 7) 0
              [(1%nat, Element 8)] 0 c)
    as (deleted & c' & evs & asked & Hrun & [_ Hasked] & Herr & _).
  change (answers (world c)) with (@nil Answer) in Hasked.
  change (answers (world c')) with (world c').2 in Hasked.
  cbn [app] in Hasked.
  assert (stale ∈ asked) as Hin.
  { rewrite <- Hasked.
    assert (c' = (attempt_post_deletion (Env:=browser) real_config (Element 7) 0 c).2)
      as -> by (by rewrite Hrun).
    vm_compute. repeat (apply elem_of_cons; first [by left | right]). }
  destruct (Herr stale Hin eq_refl) as (e & evs' & _ & Hlast & _ & -> & Hs & Hloop).
  exists c'. split; [exact Hrun|]. split; [by rewrite Hasked|]. split; [exact Hs|exact Hloop].
Defined.

Lemma failed_precondition_stops_the_run_witness :
  let c := cleaner_in (sim_offline (sim_page [7%nat])) 0 in
  exists fs c',
    clean_profile_gradually real_config c = (Returned fs, c') /\
    final_counters fs = initial_stats 0.
Proof.
  intros c.
  assert (exists c_failed, precondition_failure real_config c LoginFailedStopping c_failed)
    as [c_failed Hfail].
  { eexists. apply login_failure. vm_compute. reflexivity. }
  destruct (failed_precondition_stops_the_run real_config c c_failed _ Hfail)
    as (fs & c' & H1 & H2 & _).
  exists fs, c'. split; [exact H1|exact H2].
Defined.

Lemma human_like_delay_within_bounds_witness :
  exists d : Q,
    trace (human_like_delay real_config (Some 1%Q) (Some 2%Q)
             (cleaner_in (sim_page []) 0)).2 = [Slept d] /\
    (1 <= d <= 2)%Q.
Proof.
  assert (1 <= 2)%Q as Hle by (by vm_compute).
  destruct (human_like_delay_within_bounds real_config (Some 1%Q) (Some 2%Q)
              (cleaner_in (sim_page []) 0) Hle) as (d & Htrace & Hd & _).
  exists d. split; [exact Htrace|exact Hd].
Defined.

(** C10 as stated asks for the quotient whenever the duration is not zero.
    A clock set back by 30 seconds after three deletions gives a duration of
    -30 seconds: the rate reported is 0, where the quotient is -6. *)
Lemma posts_per_minute_counterexample :
  exists fs c',
    get_final_stats clock_set_back = (Returned fs, c') /\
    posts_deleted (stats clock_set_back) = 3%nat /\
    (duration_seconds fs == -30)%Q /\
    ~ (duration_seconds fs == 0)%Q /\
    (posts_per_minute fs == 0)%Q /\
    (inject_Z (Z.of_nat (posts_deleted (stats clock_set_back)))
       / (duration_seconds fs / 60) == -6)%Q /\
    ~ (posts_per_minute fs ==
         inject_Z (Z.of_nat (posts_deleted (stats clock_set_back)))
           / (duration_seconds fs / 60))%Q.
Proof.
  eexists. eexists. split; [reflexivity|]. by vm_compute.
Qed.

Lemma sim_stable_reads : StableReads Sim.
Proof.
  refine {| testid_of := fun _ => None;
            id_of := fun post => let 'Element n := post in Some ("item-" +:+ pretty n);
            text_of := fun post => let 'Element n := post in "Item number " +:+ pretty n |};
    by intros [n] w.
Defined.

Lemma deduplication_keeps_first_occurrences_witness :
  exists unique_posts,
    (unique_loop [Element 7; Element 8; Element 7] [] ∅ (cleaner_in (sim_page []) 0)).1
      = Returned unique_posts /\
    NoDup (identity sim_stable_reads <$> unique_posts).
Proof.
  destruct (deduplication_keeps_first_occurrences sim_stable_reads
              [Element 7; Element 8; Element 7] (cleaner_in (sim_page []) 0))
    as (unique_posts & H1 & _ & H3 & _).
  exists unique_posts. split; [exact H1|exact H3].
Defined.

Lemma zero_deletion_session_is_last_witness :
  let r := clean_profile_gradually (with_max_sessions 3 real_config)
             (cleaner_in (sim_page [7%nat; 8%nat]) 0) in
  session_history (trace r.2) = [2%nat; 0%nat] /\
  sessions_completed (stats r.2) = 2%nat.
Proof.
  intros r.
  destruct (zero_deletion_session_is_last (with_max_sessions 3 real_config)
              (cleaner_in (sim_page [7%nat; 8%nat]) 0))
    as (evs & E & _ & _ & _ & _ & H).
  change (trace r.2 = evs) in E.
  assert (session_history evs = [2%nat; 0%nat]) as Hhistory.
  { rewrite <- E. vm_compute. reflexivity. }
  split; [by rewrite E|]. apply H. by rewrite Hhistory.
Defined.

(** ** Where the claims as stated fail *)

(** C2 as stated fails: in simulation mode, on an item whose scrolling
    raises, the attempt has called the page, returns [False] and counts an
    error, not a deletion. *)
Lemma whatif_attempt_counterexample :
  let c := cleaner_in (sim_unscrollable (sim_page [7%nat])) 0 in
  let r := attempt_post_deletion whatif_config (Element 7) 0 c in
  whatif (execution whatif_config) = true /\
  r.1 = Returned false /\
  posts_deleted (stats r.2) = posts_deleted (stats c) /\
  errors_encountered (stats r.2) = 1%nat /\
  exists evs, trace r.2 = Called (ExecuteScript scroll_script [Element 7]) :: evs.
Proof.
  repeat split; try reflexivity. eexists. vm_compute. reflexivity.
Qed.

(** C3 as stated fails: in real mode, on a page that deletes without asking
    for confirmation, the delete entry is clicked and the item is gone from
    the listing afterwards, yet the attempt is counted as skipped, not as
    deleted. *)
Lemma unconfirmed_deletion_counterexample :
  let c := cleaner_in (sim_without_confirmation (sim_page [7%nat])) 0 in
  let r := attempt_post_deletion real_config (Element 7) 0 c in
  whatif (execution real_config) = false /\
  sim_listing (world c) = [7%nat] /\
  List.filter is_click_or_type (trace r.2)
    = [Called (MoveAndClick (menu_of 7)); Called (Click (delete_entry_of 7))] /\
  sim_listing (world r.2) = [] /\
  r.1 = Returned false /\
  posts_deleted (stats r.2) = 0%nat /\
  posts_skipped (stats r.2) = 1%nat.
Proof. repeat split; vm_compute; reflexivity. Qed.

(** C6 as stated fails: on an item without an options menu Selenium raises
    [NoSuchElementException] at each menu lookup of the attempt; the
    attempt is counted as skipped and [errors_encountered] stays. *)
Lemma exception_in_attempt_counterexample :
  let c := cleaner_in (sim_without_menus (sim_page [7%nat])) 0 in
  let r := attempt_post_deletion real_config (Element 7) 0 c in
  Forall (fun selector =>
            exists msg,
              (respond _ (FindElement (Some (Element 7)) ByCssSelector selector)
                 (world c)).1 = Raised (NoSuchElementException msg))
         menu_selectors /\
  lookups_in (Element 7) menu_selectors `sublist_of` trace r.2 /\
  r.1 = Returned false /\
  errors_encountered (stats r.2) = 0%nat /\
  posts_skipped (stats r.2) = 1%nat.
Proof.
  split; [|split; [|by vm_compute]].
  - repeat constructor; eexists; vm_compute; reflexivity.
  - vm_compute. repeat first [apply sublist_nil | apply sublist_skip | apply sublist_cons].
Qed.

(** * Further properties: configuration and start-up *)

Lemma truthy_nonempty (s : string) : truthy s = true <-> s <> "".
Proof. destruct s; cbn; split; congruence. Qed.

(** X18. [validate_config] accepts a configuration exactly when the email
    is not empty, the password is not empty or simulation mode is on, both
    [max_sessions] and [posts_per_session] are positive, [session_delay] is
    not negative, and [min_action_delay <= max_action_delay]; nothing else
    is looked at. *)
Theorem validate_config_accepts_iff (config : Config) :
  (validate_config config).1 = true <->
  email (credentials config) <> "" /\
  (password (credentials config) <> "" \/ whatif (execution config) = true) /\
  0 < max_sessions (cleaning config) /\
  0 < posts_per_session (cleaning config) /\
  0 <= session_delay (timing config) /\
  (min_action_delay (timing config) <= max_action_delay (timing config))%Q.
Proof.
  unfold validate_config, Qgtb.
  rewrite <- !truthy_nonempty, <- Qle_bool_iff.
  destruct (truthy (email (credentials config))); cbn [negb fst];
    [|split; [done|by intros [? _]]].
  destruct (truthy (password (credentials config))),
    (whatif (execution config)); cbn [negb andb fst];
    try (split; [done|intros (_ & [?|?] & _); done]).
  all: destruct (Z.leb_spec (max_sessions (cleaning config)) 0);
    cbn [fst]; [split; [done|intros (_ & _ & ? & _); lia]|].
  all: destruct (Z.leb_spec (posts_per_session (cleaning config)) 0);
    cbn [fst]; [split; [done|intros (_ & _ & _ & ? & _); lia]|].
  all: destruct (Z.ltb_spec (session_delay (timing config)) 0);
    cbn [fst]; [split; [done|intros (_ & _ & _ & _ & ? & _); lia]|].
  all: destruct (Qle_bool (min_action_delay (timing config))
                   (max_action_delay (timing config)));
    cbn [negb fst]; [|split; [done|by intros (_ & _ & _ & _ & _ & ?)]].
  all: split; [intros _|done]; repeat split; auto; lia.
Qed.

(** X19. [main] gets to start the operations only with a configuration
    that [validate_config] accepts, and in real mode only after the operator
    has typed exactly [DELETE]; and whether the run is real or simulated is
    decided by the command line alone, whatever the configuration file
    says. *)
Theorem main_starts_only_when_safe (args : Args) (load : string -> option Config)
    (answer : string) (config : Config) :
  main_preflight args load answer = Start config ->
  (validate_config config).1 = true /\
  (whatif (execution config) = false -> answer = "DELETE") /\
  whatif (execution config) = args_whatif args.
Proof.
  unfold main_preflight.
  destruct (attr_truthy (args_save_config args)); [done|].
  destruct (match attr_truthy (args_config args) with
            | Some path => load path
            | None => Some create_default_config
            end) as [base|]; [|done].
  destruct (validate_config (merge_config_with_args base args)) as [is_valid msg] eqn:Hv.
  destruct is_valid; cbn [negb]; [|done].
  destruct (negb (whatif (execution (merge_config_with_args base args)))
            && negb (String.eqb answer "DELETE")) eqn:Hgate; [done|].
  intros [= <-]. rewrite Hv. split; [done|]. split; [|done].
  intros Hreal. rewrite Hreal in Hgate. cbn in Hgate.
  apply negb_false_iff in Hgate. by apply String.eqb_eq.
Qed.

(** X20. When [main] leaves with a return code before starting (the
    saving of a template apart), the code is 1 and the configuration file
    could not be loaded or the merged configuration was rejected, or the
    code is 0 and, in real mode with a valid configuration, the operator
    typed something other than [DELETE]. *)
Theorem main_exit_codes (args : Args) (load : string -> option Config)
    (answer : string) (code : Z) :
  main_preflight args load answer = Exit code ->
  let loaded :=
    match attr_truthy (args_config args) with
    | Some path => load path
    | None => Some create_default_config
    end in
  (code = 1 /\
   (loaded = None \/
    exists base, loaded = Some base /\
      (validate_config (merge_config_with_args base args)).1 = false)) \/
  (code = 0 /\
   exists base, loaded = Some base /\
     (validate_config (merge_config_with_args base args)).1 = true /\
     args_whatif args = false /\ answer <> "DELETE").
Proof.
  unfold main_preflight.
  destruct (attr_truthy (args_save_config args)); [done|].
  destruct (match attr_truthy (args_config args) with
            | Some path => load path
            | None => Some create_default_config
            end) as [base|]; cbn zeta; [|intros [= <-]; left; auto].
  destruct (validate_config (merge_config_with_args base args)) as [is_valid msg] eqn:Hv.
  destruct is_valid; cbn [negb].
  - destruct (args_whatif args) eqn:Hw; cbn [merge_config_with_args execution whatif];
      rewrite ?Hw; cbn [negb andb]; [done|].
    destruct (String.eqb_spec answer "DELETE"); cbn [negb]; [done|].
    intros [= <-]. right. split; [done|]. exists base. by rewrite Hv.
  - intros [= <-]. left. split; [done|]. right. exists base. by rewrite Hv.
Qed.

(** X21. Merging the command line into a configuration twice is the same
    as merging it once, and the delete delays of the configuration are never
    touched by the command line. *)
Theorem merge_config_with_args_idempotent (base_config : Config) (args : Args) :
  merge_config_with_args (merge_config_with_args base_config args) args
    = merge_config_with_args base_config args /\
  min_delete_delay (timing (merge_config_with_args base_config args))
    = min_delete_delay (timing base_config) /\
  max_delete_delay (timing (merge_config_with_args base_config args))
    = max_delete_delay (timing base_config).
Proof.
  split; [|done]. unfold merge_config_with_args. cbn.
  destruct (attr_truthy (args_email args)), (attr_truthy (args_password args)),
    (attr_truthy (args_user_agent args)), (args_headless args); done.
Qed.

(** X22. The success rate of the final report is computed only when at
    least one post was deleted, so its division never has a zero divisor,
    and it is then a percentage: above 0 and at most 100. *)
Theorem success_rate_is_a_percentage (stats : Stats) :
  match success_rate stats with
  | Some rate => (0 < posts_deleted stats)%nat /\ (0 < rate <= 100)%Q
  | None => posts_deleted stats = 0%nat
  end.
Proof.
  unfold success_rate.
  destruct (Nat.ltb_spec 0 (posts_deleted stats)) as [Hpos|Hzero]; [|lia].
  split; [done|].
  set (d := inject_Z (Z.of_nat (posts_deleted stats))).
  set (t := inject_Z (Z.of_nat (posts_deleted stats + posts_skipped stats))).
  assert (0 < d)%Q as Hd.
  { unfold d. rewrite <- (Zlt_Qlt 0). lia. }
  assert (d <= t)%Q as Hdt.
  { unfold d, t. rewrite <- Zle_Qle. lia. }
  assert (0 < t)%Q as Ht by lra.
  assert (0 < d / t)%Q as Hlow by (apply Qlt_shift_div_l; lra).
  assert (d / t <= 1)%Q as Hhigh by (apply Qle_shift_div_r; lra).
  lra.
Qed.

(** ** Witnesses of the further properties *)

Lemma whatif_run_never_clicks_witness :
  exists evs,
    trace (clean_profile_gradually whatif_config (cleaner_in (sim_page [7%nat]) 0)).2
      = evs /\
    Forall hands_off evs.
Proof.
  exact (whatif_run_never_clicks whatif_config eq_refl (cleaner_in (sim_page [7%nat]) 0)).
Defined.

Lemma delete_posts_batch_respects_cap_witness :
  exists evs,
    trace (delete_posts_batch real_config 1 (cleaner_in (sim_page [7%nat; 8%nat]) 0)).2
      = evs /\
    (length (scrolled evs) <= 1)%nat.
Proof.
  assert (0 <= 1) as Hcap by done.
  destruct (delete_posts_batch_respects_cap real_config 1
              (cleaner_in (sim_page [7%nat; 8%nat]) 0) Hcap) as (evs & E & Hlen & _).
  exists evs. split; [exact E|exact Hlen].
Defined.

Lemma batch_loop_completes_witness :
  exists n c' evs,
    batch_loop real_config [(0%nat, Element 7); (1%nat, Element 8)] 0
      (cleaner_in (sim_page [7%nat; 8%nat]) 0) = (Returned n, c') /\
    trace c' = evs /\
    scrolled evs = [Element 7; Element 8].
Proof.
  assert (0 <= 3)%Q as Hmin by done.
  assert (0 <= 7)%Q as Hmax by done.
  destruct (batch_loop_completes real_config [(0%nat, Element 7); (1%nat, Element 8)] 0
              (cleaner_in (sim_page [7%nat; 8%nat]) 0) Hmin Hmax)
    as (n & c' & evs & H1 & H2 & H3 & _).
  exists n, c', evs. split; [exact H1|]. split; [exact H2|exact H3].
Defined.

Lemma negative_delete_delay_aborts_batch_witness :
  exists msg,
    (batch_loop (with_delete_delays (-2) (-1) whatif_config)
       [(0%nat, Element 7); (1%nat, Element 8)] 0
       (cleaner_in (sim_page [7%nat; 8%nat]) 0)).1 = Raised (ValueError msg).
Proof.
  assert (-2 < 0)%Q as Hmin by done.
  assert (-1 < 0)%Q as Hmax by done.
  pose (c' := (attempt_post_deletion (with_delete_delays (-2) (-1) whatif_config)
                 (Element 7) 0 (cleaner_in (sim_page [7%nat; 8%nat]) 0)).2).
  assert (attempt_post_deletion (with_delete_delays (-2) (-1) whatif_config)
            (Element 7) 0 (cleaner_in (sim_page [7%nat; 8%nat]) 0)
          = (Returned true, c')) as Hattempt by (vm_compute; reflexivity).
  destruct (negative_delete_delay_aborts_batch
              (with_delete_delays (-2) (-1) whatif_config) (Element 7) 0
              [(1%nat, Element 8)] 0 (cleaner_in (sim_page [7%nat; 8%nat]) 0)
              c' Hmin Hmax Hattempt) as (msg & delay & _ & H & _).
  exists msg. exact H.
Defined.

Lemma attempt_without_menu_is_skipped_witness :
  exists c',
    attempt_post_deletion (Env:=bare_environment) real_config (Element 7) 0
      (cleaner_in tt 0) = (Returned false, c') /\
    stats c' = incr_posts_skipped (initial_stats 0).
Proof.
  assert (never_found (Env:=bare_environment) (Element 7) menu_selectors) as Hnone.
  { intros selector w _. eexists. reflexivity. }
  destruct (attempt_without_menu_is_skipped (Env:=bare_environment) real_config
              (Element 7) 0 (cleaner_in tt 0) tt eq_refl Hnone eq_refl)
    as (c' & evs & H1 & H2 & _).
  exists c'. split; [exact H1|exact H2].
Defined.

Lemma attempt_clicks_in_order_witness :
  let browser := recording sim_environment in
  let c := cleaner_in (sim_page [7%nat], []) 0 in
  exists c' evs,
    attempt_post_deletion (Env:=browser) real_config (Element 7) 0 c
      = (Returned true, c') /\
    trace c' = trace c ++ evs /\
    clicks evs = deletion_clicks (menu_of 7) (delete_entry_of 7) (confirm_button_of 7).
Proof.
  intros browser c.
  destruct (attempt_clicks_in_order (Env:=browser) (Rec:=recording_recorded _)
              real_config (Element 7) 0 c eq_refl)
    as (r & c' & evs & asked & Hrun & [Htrace Hasked] & Hclicks & _).
  change (answers (world c)) with (@nil Answer) in Hasked.
  change (answers (world c')) with (world c').2 in Hasked. cbn [app] in Hasked.
  assert (c' = (attempt_post_deletion (Env:=browser) real_config (Element 7) 0 c).2)
    as Hc by (by rewrite Hrun).
  assert ((attempt_post_deletion (Env:=browser) real_config (Element 7) 0 c).1
          = Returned true) as Hr by (vm_compute; reflexivity).
  rewrite Hrun in Hr. cbn [fst] in Hr. subst r.
  exists c', evs. split; [exact Hrun|]. split; [exact Htrace|].
  rewrite Hclicks, <- Hasked, Hc. vm_compute. reflexivity.
Defined.

Lemma wait_for_page_load_swallows_timeouts_witness :
  exists evs,
    wait_for_page_load (Env:=faulty bare_environment slow_page) real_config None
      (cleaner_in tt 0)
    = (Returned tt,
       {| stats := initial_stats 0; world := tt;
          trace := evs ++ [Logged WARNING (PageLoadTimeout 30)] |}).
Proof.
  destruct (wait_for_page_load_swallows_timeouts
              (Env:=faulty bare_environment slow_page) real_config None
              (cleaner_in tt 0) "document.readyState" tt)
    as (evs & H & _).
  { right. exists tt. by split. }
  exists evs. exact H.
Defined.

Lemma wait_lookup_tries_in_order_witness :
  let browser := recording sim_environment in
  let c := cleaner_in (sim_page [7%nat], []) 0 in
  exists c' replies,
    first_found (wait_clickable (Env:=browser)) is_TimeoutException delete_selectors c
      = (Returned None, c') /\
    length replies = 5%nat /\ Forall timeout_reply replies /\
    (world c').2 = zip_with waits_for delete_selectors replies.
Proof.
  intros browser c.
  destruct (wait_lookup_tries_in_order (Env:=browser) (Rec:=recording_recorded _)
              delete_selectors c)
    as (r & c' & replies & Hrun & _ & _ & [_ Hasked] & Hres).
  assert ((first_found (wait_clickable (Env:=browser)) is_TimeoutException
             delete_selectors c).1 = Returned None) as Hr by (vm_compute; reflexivity).
  rewrite Hrun in Hr. cbn [fst] in Hr. subst r. destruct Hres as [Hlen Hall].
  exists c', replies. split; [exact Hrun|]. split; [exact Hlen|]. split; [exact Hall|].
  exact Hasked.
Defined.

Lemma collect_posts_tries_in_order_witness :
  let browser := recording sim_environment in
  let c := cleaner_in (sim_page [7%nat; 8%nat], []) 0 in
  exists c' before,
    collect_posts (Env:=browser) post_selectors c
      = (Returned [Element 7; Element 8], c') /\
    Forall fruitless_reply before /\
    (world c').2
      = zip_with scan_for post_selectors (before ++ [Returned [Element 7; Element 8]]).
Proof.
  intros browser c.
  destruct (collect_posts_tries_in_order (Env:=browser) (Rec:=recording_recorded _)
              post_selectors c)
    as (all_posts & c' & replies & Hrun & _ & _ & [_ Hasked] & Hres).
  assert ((collect_posts (Env:=browser) post_selectors c).1
          = Returned [Element 7; Element 8]) as Hr by (vm_compute; reflexivity).
  rewrite Hrun in Hr. cbn [fst] in Hr. injection Hr as ->.
  destruct Hres as (before & -> & Hall).
  exists c', before. split; [exact Hrun|]. split; [exact Hall|]. exact Hasked.
Defined.

Lemma run_respects_caps_witness :
  (posts_deleted
     (stats (clean_profile_gradually real_config
               (cleaner_in (sim_page [7%nat; 8%nat]) 0)).2) <= 50)%nat.
Proof.
  assert (0 <= 10) as Hcap by done.
  exact (proj2 (run_respects_caps real_config
                  (cleaner_in (sim_page [7%nat; 8%nat]) 0) Hcap)).
Defined.

Lemma bare_stable_reads : StableReads unit (Env:=bare_environment).
Proof.
  refine {| testid_of := fun _ => Some "activity-log-item";
            id_of := fun _ => None;
            text_of := fun _ => "" |}; by intros post w.
Defined.

Lemma shared_identity_keeps_one_post_witness :
  (unique_loop (Env:=bare_environment) [Element 1; Element 2; Element 3] [] ∅
     (cleaner_in tt 0)).1 = Returned [Element 1].
Proof.
  apply (shared_identity_keeps_one_post (Env:=bare_environment) bare_stable_reads
           (Element 1) [Element 2; Element 3] "activity-log-item").
  intros post _. reflexivity.
Defined.

Lemma main_starts_only_when_safe_witness :
  (validate_config (merge_config_with_args create_default_config account_args)).1
    = true.
Proof.
  assert (main_preflight account_args (fun _ => None) "DELETE"
          = Start (merge_config_with_args create_default_config account_args)) as H
    by reflexivity.
  exact (proj1 (main_starts_only_when_safe account_args (fun _ => None) "DELETE" _ H)).
Defined.

Lemma main_exit_codes_witness :
  main_preflight default_args (fun _ => None) "" = Exit 1 /\
  (validate_config (merge_config_with_args create_default_config default_args)).1
    = false.
Proof.
  assert (main_preflight default_args (fun _ => None) "" = Exit 1) as H by reflexivity.
  split; [exact H|].
  destruct (main_exit_codes default_args (fun _ => None) "" 1 H)
    as [(_ & [Hnone|(base & Hbase & Hinvalid)])|(Hcode & _)].
  - discriminate Hnone.
  - injection Hbase as <-. exact Hinvalid.
  - discriminate Hcode.
Defined.
